(** * Coal Mine canary stores: the Redis and MongoDB back ends

    A shallow embedding of [coal_mine/redis_store.py] and
    [coal_mine/mongo_store.py].

    - Python dictionaries whose iteration order the code relies on (the
      canary handed to [save]) are association lists in insertion order;
      dictionaries that are only looked up (a loaded record) are [gmap]s.
    - The Redis server is one key space, [gmap string rvalue]; every key
      holds a hash, a list, a sorted set or a set, and a command applied to
      a key of another kind is answered with WRONGTYPE, which the client
      raises as [ResponseError].
    - A pipeline after [multi()] is the list of commands it has buffered;
      [execute] runs them in order.
    - Python exceptions are the constructors of [exn]; a call that can
      raise returns a [result].
    - The stores are taken to be reachable: the retry loops around
      [AutoReconnect] run their body once.
    - Timestamps (the value of [datetime.timestamp()], sorted-set scores)
      are integers; a float obtained by parsing text is kept as the decimal
      it denotes, binary rounding is outside the embedding.
    - Text is a string of bytes, the UTF-8 form of a Python [str].  [int]
      and [float] are embedded on ASCII text, digit runs of any length; on
      other text they consult the Unicode tables of digits and spaces, and
      the embedding leaves their outcome open ([Unmodelled], [LCoerced]). *)

From Stdlib Require Import ZArith String Ascii List Bool Lia Sorted.
From stdpp Require Import base gmap sets list strings pretty sorting.

Open Scope string_scope.
Open Scope list_scope.

(** ** Python values and exceptions *)

Inductive exn :=
| KeyError          (* NotFound, and a missing dictionary key *)
| PlainException    (* [raise Exception(...)]: the conflict on create *)
| TypeError
| ValueError
| AttributeError
| ResponseError     (* redis.ResponseError: WRONGTYPE *)
| DuplicateKeyError (* pymongo.errors.DuplicateKeyError *)
| WriteError        (* pymongo.errors.WriteError *)
| Unmodelled.       (* an outcome the embedding does not compute: the
                       [str()] of a datetime or a list, [int] and [float]
                       of text outside ASCII *)

Inductive result (A : Type) :=
| Ok (a : A)
| Raise (e : exn).
Arguments Ok {A} a.
Arguments Raise {A} e.

(** Sequencing: the first exception raised ends the call.  With these
    instances [x ← r; k] is stdpp's notation for it. *)
#[global] Instance result_ret : MRet result := fun A a => Ok a.
#[global] Instance result_bind : MBind result := fun A B k r =>
  match r with
  | Ok a => k a
  | Raise e => Raise e
  end.

#[global] Instance exn_eq_dec : EqDecision exn.
Proof. solve_decision. Defined.

(** Values a caller puts in a canary dictionary. *)
Inductive pyval :=
| VNone
| VBool (b : bool)
| VInt (z : Z)
| VStr (s : string)
| VTime (ts : Z)                       (* datetime, by its timestamp() *)
| VEmails (l : list string)            (* list of str *)
| VHistory (l : list (Z * string))     (* list of (datetime, str) *)
| VOid (n : nat).                      (* bson.ObjectId *)

#[global] Instance pyval_eq_dec : EqDecision pyval.
Proof. solve_decision. Defined.

(** Python truth value of an object. *)
Definition truthy (v : pyval) : bool :=
  match v with
  | VNone => false
  | VBool b => b
  | VInt z => negb (z =? 0)%Z
  | VStr s => negb (String.eqb s "")
  | VTime _ => true
  | VEmails l => negb (bool_decide (l = []))
  | VHistory l => negb (bool_decide (l = []))
  | VOid _ => true
  end.

(** A [dict] in insertion order, keys without repetition. *)
Definition dict := list (string * pyval).

Fixpoint dict_get (k : string) (d : dict) : option pyval :=
  match d with
  | [] => None
  | (k', v) :: d' => if String.eqb k k' then Some v else dict_get k d'
  end.

Definition dict_in (k : string) (d : dict) : bool :=
  match dict_get k d with Some _ => true | None => false end.

(** [d[k] = v]: in place when the key is there, at the end otherwise. *)
Fixpoint dict_set (k : string) (v : pyval) (d : dict) : dict :=
  match d with
  | [] => [(k, v)]
  | (k', v') :: d' =>
      if String.eqb k k' then (k, v) :: d' else (k', v') :: dict_set k v d'
  end.

(** [d.pop(k, None)], the popped value dropped. *)
Fixpoint dict_pop (k : string) (d : dict) : dict :=
  match d with
  | [] => []
  | (k', v') :: d' =>
      if String.eqb k k' then d' else (k', v') :: dict_pop k d'
  end.

Definition dict_keys (d : dict) : list string := d.*1.

(** ** Parsing text: [int(s)] and [float(s)] on ASCII text *)

(** The characters [int] and [float] skip at both ends of ASCII text:
    tab, line feed, vertical tab, form feed, carriage return and space. *)
Definition is_space (c : ascii) : bool :=
  let n := nat_of_ascii c in
  (((9 <=? n) && (n <=? 13)) || (n =? 32))%nat.

(** Every byte of the text is below 128. *)
Definition is_ascii (s : string) : bool :=
  forallb (λ c, (nat_of_ascii c <? 128)%nat) (list_ascii_of_string s).

Definition digit_of (c : ascii) : option Z :=
  let n := nat_of_ascii c in
  if ((48 <=? n) && (n <=? 57))%nat then Some (Z.of_nat (n - 48)) else None.

Fixpoint lstrip (l : list ascii) : list ascii :=
  match l with
  | c :: l' => if is_space c then lstrip l' else l
  | [] => []
  end.

(** [s.strip()] on the characters of [s]. *)
Definition strip (l : list ascii) : list ascii :=
  rev (lstrip (rev (lstrip l))).

(** A leading sign: [(negative, rest)]. *)
Definition split_sign (l : list ascii) : bool * list ascii :=
  match l with
  | "+"%char :: l' => (false, l')
  | "-"%char :: l' => (true, l')
  | _ => (false, l)
  end.

(** Digits with single underscores between them (PEP 515): the value read
    so far, the number of digits, and what follows the digit run.
    [prev] tells whether the previous character was a digit. *)
Fixpoint digits_go (acc : Z) (count : nat) (prev : bool) (l : list ascii)
  : Z * nat * list ascii :=
  match l with
  | c :: l' =>
      match digit_of c with
      | Some d => digits_go (10 * acc + d) (S count) true l'
      | None =>
          if Ascii.eqb c "_" && prev then
            match l' with
            | c' :: _ =>
                match digit_of c' with
                | Some _ => digits_go acc count false l'
                | None => (acc, count, l)
                end
            | [] => (acc, count, l)
            end
          else (acc, count, l)
      end
  | [] => (acc, count, l)
  end.

Definition digits (l : list ascii) : Z * nat * list ascii :=
  digits_go 0 0 false l.

(** [int(s)] in base 10: blanks, a sign, digits, blanks. *)
Definition py_int (s : string) : result Z :=
  if negb (is_ascii s) then Raise Unmodelled
  else
    let '(neg, body) := split_sign (strip (list_ascii_of_string s)) in
    match digits body with
    | (_, O, _) => Raise ValueError
    | (v, S _, []) => Ok (if neg then (- v)%Z else v)
    | (_, S _, _ :: _) => Raise ValueError
    end.

(** A parsed float: the decimal [mantissa * 10 ^ exponent] with its sign,
    an infinity or a NaN. *)
Inductive pyfloat :=
| FDec (negative : bool) (mantissa : Z) (exponent : Z)
| FInf (negative : bool)
| FNan.

#[global] Instance pyfloat_eq_dec : EqDecision pyfloat.
Proof. solve_decision. Defined.

Definition lower (c : ascii) : ascii :=
  let n := nat_of_ascii c in
  if ((65 <=? n) && (n <=? 90))%nat then ascii_of_nat (n + 32) else c.

Definition lower_string (l : list ascii) : string :=
  string_of_list_ascii (map lower l).

(** The exponent part, if any: [e], an optional sign, digits. *)
Definition float_exponent (l : list ascii) : option Z :=
  match l with
  | [] => Some 0%Z
  | c :: l' =>
      if Ascii.eqb (lower c) "e" then
        let '(neg, body) := split_sign l' in
        match digits body with
        | (v, S _, []) => Some (if neg then (- v)%Z else v)
        | _ => None
        end
      else None
  end.

(** The fraction part, if any: a point and digits, read on from the value
    of the integer part. *)
Definition float_fraction (ip : Z) (rest : list ascii) : Z * nat * list ascii :=
  match rest with
  | "."%char :: r => digits_go ip 0 false r
  | _ => (ip, O, rest)
  end.

(** [float(s)]: blanks, a sign, then [inf], [infinity] or [nan] in any
    case, or digits with an optional point and an optional exponent. *)
Definition py_float (s : string) : result pyfloat :=
  if negb (is_ascii s) then Raise Unmodelled
  else
    let '(neg, body) := split_sign (strip (list_ascii_of_string s)) in
    let word := lower_string body in
    if String.eqb word "inf" || String.eqb word "infinity" then Ok (FInf neg)
    else if String.eqb word "nan" then Ok FNan
    else
      let '(ip, ni, rest) := digits body in
      let '(fp, nf, rest') := float_fraction ip rest in
      match (ni + nf)%nat with
      | O => Raise ValueError
      | S _ =>
          match float_exponent rest' with
          | Some e => Ok (FDec neg fp (e - Z.of_nat nf))
          | None => Raise ValueError
          end
      end.

(** Values of a record that [load] or [load_brief] returns. *)
Inductive lval :=
| LNone
| LBool (b : bool)
| LInt (z : Z)
| LFloat (f : pyfloat)
| LStr (s : string)
| LTime (ts : Z)
| LEmails (l : list string)
| LHistory (l : list (Z * string))
| LCoerced (s : string).   (* [int], else [float], else [str] of a text
                              outside ASCII, left unevaluated *)

#[global] Instance lval_eq_dec : EqDecision lval.
Proof. solve_decision. Defined.

Abbreviation record := (gmap string lval).

(** ** The Redis server and the commands the store sends *)

Inductive rvalue :=
| RHash (h : gmap string string)
| RList (l : list string)
| RZSet (z : gmap string Z)      (* member to score *)
| RSet (s : gset string).

Abbreviation redis := (gmap string rvalue).

(** A reply that is WRONGTYPE reaches the caller as [ResponseError]. *)
Definition wrongtype {A} : result A := Raise ResponseError.

(** *** Reads *)

(** EXISTS *)
Definition exists_ (db : redis) (key : string) : bool :=
  match db !! key with Some _ => true | None => false end.

(** HGETALL: a missing key reads as the empty hash. *)
Definition hgetall (db : redis) (key : string) : result (gmap string string) :=
  match db !! key with
  | None => Ok ∅
  | Some (RHash h) => Ok h
  | Some _ => wrongtype
  end.

(** HGET: [None] for a missing key or field. *)
Definition hget (db : redis) (key field : string) : result (option string) :=
  h ← hgetall db key; Ok (h !! field).

(** HEXISTS *)
Definition hexists (db : redis) (key field : string) : result bool :=
  h ← hgetall db key;
  Ok (match h !! field with Some _ => true | None => false end).

(** HMGET: one entry per requested field. *)
Definition hmget (db : redis) (key : string) (fields : list string)
  : result (list (option string)) :=
  h ← hgetall db key; Ok ((λ f, h !! f) <$> fields).

(** LRANGE key 0 -1 *)
Definition lrange (db : redis) (key : string) : result (list string) :=
  match db !! key with
  | None => Ok []
  | Some (RList l) => Ok l
  | Some _ => wrongtype
  end.

(** The order of a sorted set: by score, then by member, bytewise. *)
Definition zorder (a b : string * Z) : bool :=
  (a.2 <? b.2)%Z || ((a.2 =? b.2)%Z && String.leb a.1 b.1).

Definition zsorted (z : gmap string Z) : list (string * Z) :=
  merge_sort (λ a b, Is_true (zorder a b)) (map_to_list z).

(** ZRANGE key 0 -1 WITHSCORES: [(member, score)] in sorted-set order. *)
Definition zrange_withscores (db : redis) (key : string)
  : result (list (string * Z)) :=
  match db !! key with
  | None => Ok []
  | Some (RZSet z) => Ok (zsorted z)
  | Some _ => wrongtype
  end.

(** ZRANGEBYSCORE key -inf +inf: every member, in sorted-set order. *)
Definition zrangebyscore_all (db : redis) (key : string)
  : result (list string) :=
  l ← zrange_withscores db key; Ok (l.*1).

(** ZSCORE: [None] for a missing key or member. *)
Definition zscore (db : redis) (key member : string) : result (option Z) :=
  match db !! key with
  | None => Ok None
  | Some (RZSet z) => Ok (z !! member)
  | Some _ => wrongtype
  end.

(** SMEMBERS, as SUNION uses it. *)
Definition smembers (db : redis) (key : string) : result (gset string) :=
  match db !! key with
  | None => Ok ∅
  | Some (RSet s) => Ok s
  | Some _ => wrongtype
  end.

(** SUNION key [key ...] *)
Fixpoint sunion (db : redis) (keys : list string) : result (gset string) :=
  match keys with
  | [] => Ok ∅
  | k :: ks => s ← smembers db k; r ← sunion db ks; Ok (s ∪ r)
  end.

(** *** Writes: the commands a pipeline buffers *)

Inductive command :=
| HSET (key field value : string)
| HDEL (key field : string)
| HMSET (key : string) (mapping : list (string * string))
| DEL (keys : list string)
| RPUSH (key : string) (values : list string)
| ZADD (key : string) (score : Z) (member : string)
| ZREM (key member : string)
| SADD (key member : string)
| SREM (key member : string).

(** Redis drops a collection when its last element goes. *)
Definition store_hash (key : string) (h : gmap string string) (db : redis)
  : redis :=
  if decide (h = ∅) then delete key db else <[key := RHash h]> db.

Definition store_zset (key : string) (z : gmap string Z) (db : redis)
  : redis :=
  if decide (z = ∅) then delete key db else <[key := RZSet z]> db.

Definition store_set (key : string) (s : gset string) (db : redis) : redis :=
  if decide (s = ∅) then delete key db else <[key := RSet s]> db.

(** One command on the server: [None] is the WRONGTYPE reply, which leaves
    the key space as it was. *)
Definition apply_command (c : command) (db : redis) : option redis :=
  match c with
  | HSET key field value =>
      match db !! key with
      | None => Some (<[key := RHash {[field := value]}]> db)
      | Some (RHash h) => Some (<[key := RHash (<[field := value]> h)]> db)
      | Some _ => None
      end
  | HDEL key field =>
      match db !! key with
      | None => Some db
      | Some (RHash h) => Some (store_hash key (delete field h) db)
      | Some _ => None
      end
  | HMSET key mapping =>
      match db !! key with
      | None => Some (store_hash key (list_to_map (rev mapping)) db)
      | Some (RHash h) =>
          Some (store_hash key (list_to_map (rev mapping) ∪ h) db)
      | Some _ => None
      end
  | DEL keys => Some (foldr delete db keys)
  | RPUSH key values =>
      match db !! key with
      | None => Some (<[key := RList values]> db)
      | Some (RList l) => Some (<[key := RList (l ++ values)]> db)
      | Some _ => None
      end
  | ZADD key score member =>
      match db !! key with
      | None => Some (<[key := RZSet {[member := score]}]> db)
      | Some (RZSet z) => Some (<[key := RZSet (<[member := score]> z)]> db)
      | Some _ => None
      end
  | ZREM key member =>
      match db !! key with
      | None => Some db
      | Some (RZSet z) => Some (store_zset key (delete member z) db)
      | Some _ => None
      end
  | SADD key member =>
      match db !! key with
      | None => Some (<[key := RSet {[member]}]> db)
      | Some (RSet s) => Some (<[key := RSet (s ∪ {[member]})]> db)
      | Some _ => None
      end
  | SREM key member =>
      match db !! key with
      | None => Some db
      | Some (RSet s) => Some (store_set key (s ∖ {[member]}) db)
      | Some _ => None
      end
  end.

(** EXEC: every buffered command runs, in order; a command that fails does
    not stop the ones after it, and the client raises once all have run. *)
Fixpoint execute (cmds : list command) (db : redis) : redis * result unit :=
  match cmds with
  | [] => (db, Ok ())
  | c :: cs =>
      match apply_command c db with
      | Some db' => execute cs db'
      | None => ((execute cs db).1, wrongtype)
      end
  end.

(** [client.transaction(func, *watches)] with nobody else writing: [func]
    reads the server as it stands and buffers its writes; when it raises,
    nothing was sent. *)
Definition transaction (func : redis -> result (list command)) (db : redis)
  : redis * result unit :=
  match func db with
  | Ok cmds => execute cmds db
  | Raise e => (db, Raise e)
  end.

(** *** The server key by key

    Every command reads and writes the keys it names and no other, so the
    content of a key after a pipeline is a fold over the commands. *)

(** The content of a key that holds a collection: nothing when empty. *)
Definition hash_value (h : gmap string string) : option rvalue :=
  if decide (h = ∅) then None else Some (RHash h).
Definition zset_value (z : gmap string Z) : option rvalue :=
  if decide (z = ∅) then None else Some (RZSet z).
Definition set_value (s : gset string) : option rvalue :=
  if decide (s = ∅) then None else Some (RSet s).

Definition command_keys (c : command) : list string :=
  match c with
  | HSET key _ _ | HDEL key _ | HMSET key _ | RPUSH key _ | ZADD key _ _
  | ZREM key _ | SADD key _ | SREM key _ => [key]
  | DEL keys => keys
  end.

(** What a command that names the key makes of its content; a WRONGTYPE
    reply leaves it. *)
Definition on_content (c : command) (v : option rvalue) : option rvalue :=
  match c, v with
  | DEL _, _ => None
  | HSET _ field value, None => Some (RHash {[field := value]})
  | HSET _ field value, Some (RHash h) => Some (RHash (<[field := value]> h))
  | HDEL _ field, Some (RHash h) => hash_value (delete field h)
  | HMSET _ mapping, None => hash_value (list_to_map (rev mapping))
  | HMSET _ mapping, Some (RHash h) =>
      hash_value (list_to_map (rev mapping) ∪ h)
  | RPUSH _ values, None => Some (RList values)
  | RPUSH _ values, Some (RList l) => Some (RList (l ++ values))
  | ZADD _ score member, None => Some (RZSet {[member := score]})
  | ZADD _ score member, Some (RZSet z) =>
      Some (RZSet (<[member := score]> z))
  | ZREM _ member, Some (RZSet z) => zset_value (delete member z)
  | SADD _ member, None => Some (RSet {[member]})
  | SADD _ member, Some (RSet s) => Some (RSet (s ∪ {[member]}))
  | SREM _ member, Some (RSet s) => set_value (s ∖ {[member]})
  | _, _ => v
  end.

Definition step_key (k : string) (c : command) (v : option rvalue)
  : option rvalue :=
  if decide (k ∈ command_keys c) then on_content c v else v.


(** The text the client sends for a Python value (redis-py 2.x
    [Connection.encode], which the calls [hmset] and [zadd(name, score,
    member)] of the source belong to): [str(value)] for anything that is not
    bytes, text or a number, so [None] goes out as the text [None]. *)
Definition encode (v : pyval) : result string :=
  match v with
  | VNone => Ok "None"
  | VBool true => Ok "True"
  | VBool false => Ok "False"
  | VInt z => Ok (pretty z)
  | VStr s => Ok s
  | VTime _ | VEmails _ | VHistory _ | VOid _ => Raise Unmodelled
  end.

Definition encode_reply (o : option string) : string :=
  match o with Some s => s | None => "None" end.

(** [d[k]] *)
Definition getitem (d : dict) (k : string) : result pyval :=
  match dict_get k d with Some v => Ok v | None => Raise KeyError end.

(** A generator: what it yields, and the exception that ends it, if any. *)
Definition stream (A : Type) : Type := list A * option exn.

(** ** redis_store.py, class RedisCanary *)

Module RedisCanary.

(** The attributes of the [RedisStore] a canary reads. *)
Record store := Store {
  namespace : string;
  slugs : string;
  active : string;
  paused : string;
  late : string;
  ontime : string;
  deadlines : string;
}.

Section Canary.
Variable st : store.     (* self.store *)
Variable id : string.    (* self.id *)

Definition key : string := namespace st +:+ ":" +:+ id.
Definition emails_k : string := key +:+ ":emails".
Definition history_k : string := key +:+ ":history".

Definition lval_of_reply (o : option string) : lval :=
  match o with Some s => LStr s | None => LNone end.

(** [bool(int(v))] *)
Definition bool_of_int (v : lval) : result bool :=
  match v with
  | LStr s => z ← py_int s; Ok (negb (z =? 0)%Z)
  | LInt z => Ok (negb (z =? 0)%Z)
  | LBool b => Ok b
  | _ => Raise TypeError
  end.

(** [x = data.get(name, None); if x is not None: x = bool(int(x))] *)
Definition flag (data : record) (name : string) : result (option bool) :=
  match data !! name with
  | None | Some LNone => Ok None
  | Some v => b ← bool_of_int v; Ok (Some b)
  end.

(** Lines 68-75: [int], then [float], then [str]; each [except] catches
    ValueError only.  On text outside ASCII neither attempt raises anything
    else, so one of the three values comes out; which one is left open. *)
Definition coerce_periodicity (v : lval) : result lval :=
  match v with
  | LStr s =>
      match py_int s with
      | Ok n => Ok (LInt n)
      | Raise ValueError =>
          match py_float s with
          | Ok f => Ok (LFloat f)
          | Raise ValueError => Ok (LStr s)
          | Raise Unmodelled => Ok (LCoerced s)
          | Raise e => Raise e
          end
      | Raise Unmodelled => Ok (LCoerced s)
      | Raise e => Raise e
      end
  | _ => Raise TypeError
  end.

(** The four replies of the transaction of [load]. *)
Definition _load (db : redis)
  : result (gmap string string * list string * list (string * Z) * option Z) :=
  if negb (exists_ db key) then Raise KeyError
  else
    data ← hgetall db key;
    em ← lrange db emails_k;
    hs ← zrange_withscores db history_k;
    deadline ← zscore db (deadlines st) id;
    Ok (data, em, hs, deadline).

Definition load (db : redis) : result record :=
  '(data, em, hs, deadline) ← _load db;
  let data : record := LStr <$> data in
  let data := <["emails" := LEmails em]> data in
  let data :=
    <["history" := LHistory ((λ '(member, score), (score, member)) <$> hs)]>
      data in
  paused ← flag data "paused";
  let data := <["paused" := LBool (default false paused)]> data in
  late ← flag data "late";
  let data := <["late" := LBool (default false late)]> data in
  data ← match data !! "periodicity" with
         | Some v => p ← coerce_periodicity v; Ok (<["periodicity" := p]> data)
         | None => Ok data
         end;
  data ← (if negb (default false paused) then
            match deadline with
            | Some ts => Ok (<["deadline" := LTime ts]> data)
            | None => Raise TypeError          (* float(None) *)
            end
          else Ok data);
  Ok (<["id" := LStr id]> data).

Definition load_brief (db : redis) : result record :=
  data ← hmget db key ["name"; "slug"];
  match data with
  | [name; slug] =>
      Ok (<["slug" := lval_of_reply slug]>
            (<["id" := LStr id]> {["name" := lval_of_reply name]}))
  | _ => Raise KeyError
  end.

(** What the loop of [save] buffers for a key whose value is [None]. *)
Definition unset_command (k : string) : command :=
  if negb (bool_decide (k ∈ ["emails"; "history"; "deadline"])) then
    HDEL key k
  else if bool_decide (k ∈ ["emails"; "history"]) then
    DEL [key; k]
  else
    ZREM (deadlines st) id.

(** [for key, value in canary.items()]: the commands buffered, and
    [data]. *)
Fixpoint save_loop (items : dict) (data : dict) : list command * dict :=
  match items with
  | [] => ([], data)
  | (k, VNone) :: rest =>
      let '(cmds, data') := save_loop rest data in
      (unset_command k :: cmds, data')
  | (k, value) :: rest => save_loop rest (dict_set k value data)
  end.

(** [*value] as the arguments of [rpush]. *)
Definition rpush_arguments (value : pyval) : result (list string) :=
  match value with
  | VEmails l => Ok l
  | VStr s => Ok ((λ c, String c EmptyString) <$> list_ascii_of_string s)
  | VHistory _ => Raise Unmodelled
  | VNone | VBool _ | VInt _ | VTime _ | VOid _ => Raise TypeError
  end.

(** [for dt, comment in value: zadd(history_k, dt.timestamp(), comment)] *)
Definition history_commands (value : pyval) : result (list command) :=
  match value with
  | VHistory l => Ok ((λ '(ts, comment), ZADD history_k ts comment) <$> l)
  | VEmails [] | VStr "" => Ok []
  | VEmails (s :: _) =>
      if (String.length s =? 2)%nat then Raise AttributeError
      else Raise ValueError
  | VStr _ => Raise ValueError
  | VNone | VBool _ | VInt _ | VTime _ | VOid _ => Raise TypeError
  end.

(** [deadline.timestamp()] *)
Definition timestamp (deadline : option pyval) : result Z :=
  match deadline with
  | Some (VTime ts) => Ok ts
  | _ => Raise AttributeError
  end.

Definition encode_item (kv : string * pyval) : result (string * string) :=
  v ← encode kv.2; Ok (kv.1, v).

Fixpoint encode_mapping (data : dict) : result (list (string * string)) :=
  match data with
  | [] => Ok []
  | kv :: rest =>
      x ← encode_item kv; xs ← encode_mapping rest; Ok (x :: xs)
  end.

Definition not_none (o : option pyval) : bool :=
  match o with Some VNone | None => false | Some _ => true end.

Definition is_true (o : option pyval) : bool :=
  match o with Some v => truthy v | None => false end.

(** The body of the transaction of [save]: it raises, or returns the
    commands buffered after [pipe.multi()]. *)
Definition _save (canary : dict) (create : bool) (db : redis)
  : result (list command) :=
  _ ← (if exists_ db key then
         if create then
           (* 'slug {} already exists'.format(canary['slug']) *)
           _ ← getitem canary "slug"; Raise PlainException
         else Ok ()
       else if negb create then Raise KeyError else Ok ());
  _ ← (if create then
         slug ← getitem canary "slug";
         field ← encode slug;
         taken ← hexists db (slugs st) field;
         if taken : bool then Raise PlainException else Ok ()
       else Ok ());
  (* pipe.multi() *)
  c_slug ← match dict_get "slug" canary with
           | Some slug => field ← encode slug; Ok [HSET (slugs st) field id]
           | None => Ok []
           end;
  let '(c_unset, data) := save_loop canary [] in
  let data := dict_pop "id" data in
  let paused := dict_get "paused" data in
  let late := dict_get "late" data in
  let deadline := dict_get "deadline" data in
  let data := dict_pop "deadline" data in
  c_emails ← (if is_true (dict_get "emails" data) then
                values ← rpush_arguments (default VNone (dict_get "emails" data));
                Ok [DEL [emails_k]; RPUSH emails_k values]
              else Ok []);
  let data := dict_pop "emails" data in
  c_history ← match dict_get "history" data with
              | Some value =>
                  cs ← history_commands value; Ok (DEL [history_k] :: cs)
              | None => Ok []
              end;
  let data := dict_pop "history" data in
  let '(c_late, data) :=
    if is_true late then
      ([SADD (RedisCanary.late st) id], dict_set "late" (VInt 1) data)
    else if not_none late then
      ([SADD (ontime st) id], dict_set "late" (VInt 0) data)
    else ([], data) in
  '(c_paused, data) ←
    (if is_true paused then
       Ok ([SADD (RedisCanary.paused st) id; ZREM (deadlines st) id],
           dict_set "paused" (VInt 1) data)
     else if not_none paused then
       ts ← timestamp deadline;
       Ok ([SADD (active st) id; ZADD (deadlines st) ts id],
           dict_set "paused" (VInt 0) data)
     else Ok ([], data));
  c_hmset ← match data with
            | [] => Ok []
            | _ :: _ => mapping ← encode_mapping data; Ok [HMSET key mapping]
            end;
  Ok (c_slug ++ c_unset ++ c_emails ++ c_history ++ c_late ++ c_paused
        ++ c_hmset)%list.

Definition save (canary : dict) (create : bool) (db : redis)
  : redis * result unit :=
  transaction (_save canary create) db.

Definition create (canary : dict) (db : redis) : redis * result unit :=
  save canary true db.

Definition _del (db : redis) : result (list command) :=
  slug ← hget db key "slug";
  (* pipe.multi() *)
  Ok ([SREM (active st) id; SREM (RedisCanary.paused st) id;
       SREM (RedisCanary.late st) id; SREM (ontime st) id;
       ZREM (deadlines st) id;
       HDEL (slugs st) (encode_reply slug);
       DEL [history_k];
       DEL [emails_k];
       DEL [key]]).

Definition delete (db : redis) : redis * result unit :=
  transaction _del db.

End Canary.

End RedisCanary.

(** ** redis_store.py, class RedisStore *)

Module RedisStore.

Definition _key (namespace key : string) : string :=
  namespace +:+ ":" +:+ key.

(** [RedisStore(namespace=...)]; the default namespace is [cm]. *)
Definition new (namespace : string) : RedisCanary.store :=
  {| RedisCanary.namespace := namespace;
     RedisCanary.slugs := _key namespace "slugs";
     RedisCanary.active := _key namespace "active";
     RedisCanary.paused := _key namespace "paused";
     RedisCanary.late := _key namespace "late";
     RedisCanary.ontime := _key namespace "ontime";
     RedisCanary.deadlines := _key namespace "deadlines" |}.

Section Store.
Variable self : RedisCanary.store.

Definition create (canary : dict) (db : redis) : redis * result unit :=
  match id ← getitem canary "id"; encode id with
  | Ok id => RedisCanary.create self id canary db
  | Raise e => (db, Raise e)
  end.

Definition update (identifier : string) (updates : dict) (db : redis)
  : redis * result unit :=
  RedisCanary.save self identifier updates false db.

Definition delete (identifier : string) (db : redis) : redis * result unit :=
  RedisCanary.delete self identifier db.

Definition get (identifier : string) (db : redis) : result record :=
  RedisCanary.load self identifier db.

(** [search.match(res[field])] for a compiled pattern [search]. *)
Definition re_match (search : string -> bool) (res : record) (field : string)
  : result bool :=
  match res !! field with
  | None => Raise KeyError
  | Some (LStr s) => Ok (search s)
  | Some _ => Raise TypeError
  end.

(** Lines 239-243: [true] when the record is skipped. *)
Definition skipped (search : option (string -> bool)) (res : record)
  : result bool :=
  match search with
  | None => Ok false
  | Some p =>
      m ← re_match p res "name";
      if m : bool then Ok false
      else
        m ← re_match p res "slug";
        if m : bool then Ok false
        else m ← re_match p res "id"; Ok (negb m)
  end.

(** The sets whose union [list] takes. *)
Definition list_sets (paused late : option bool) : list string :=
  (match paused with
   | None => [RedisCanary.paused self; RedisCanary.active self]
   | Some true => [RedisCanary.paused self]
   | Some false => [RedisCanary.active self]
   end ++
   match late with
   | None => [RedisCanary.late self; RedisCanary.ontime self]
   | Some true => [RedisCanary.late self]
   | Some false => [RedisCanary.ontime self]
   end)%list.

(** The loop of [list] over the ids. *)
Fixpoint list_loop (verbose : bool) (search : option (string -> bool))
    (db : redis) (ids : list string) : stream record :=
  match ids with
  | [] => ([], None)
  | id :: rest =>
      match
        res ← (if verbose then RedisCanary.load self id db
               else RedisCanary.load_brief self id db);
        skip ← skipped search res;
        Ok (res, skip)
      with
      | Raise e => ([], Some e)
      | Ok (res, true) => list_loop verbose search db rest
      | Ok (res, false) =>
          let res := if verbose then res else base.delete "slug" res in
          let '(out, e) := list_loop verbose search db rest in
          (res :: out, e)
      end
  end.

(** [list(verbose, paused, late, search)]; [search] is the pattern once
    compiled.  The ids come in the order the set is enumerated. *)
Definition list_ (verbose : bool) (paused late : option bool)
    (search : option (string -> bool)) (db : redis) : stream record :=
  match sunion db (list_sets paused late) with
  | Raise e => ([], Some e)
  | Ok ids => list_loop verbose search db (elements ids)
  end.

Fixpoint load_each (db : redis) (ids : list string) : stream record :=
  match ids with
  | [] => ([], None)
  | id :: rest =>
      match RedisCanary.load self id db with
      | Raise e => ([], Some e)
      | Ok res => let '(out, e) := load_each db rest in (res :: out, e)
      end
  end.

Definition upcoming_deadlines (db : redis) : stream record :=
  match zrangebyscore_all db (RedisCanary.deadlines self) with
  | Raise e => ([], Some e)
  | Ok ids => load_each db ids
  end.

Definition find_identifier (slug : string) (db : redis) : result string :=
  id_ ← hget db (RedisCanary.slugs self) slug;
  match id_ with
  | None => Raise KeyError
  | Some id_ => Ok id_
  end.

End Store.

End RedisStore.

(** ** mongo_store.py, class MongoStore *)

Module MongoStore.

(** The [canaries] collection: its documents in natural order, and the
    counter behind [bson.ObjectId()].  The server is modelled once it has
    accepted a request: an update changes the first matching document, a
    remove deletes every matching one, the unique index on [slug] refuses a
    second document with the same slug (a missing slug counts as null). *)
Record collection := Collection {
  docs : list dict;
  next_oid : nat;
}.

(** The query [{field: value}]: the field holds the value, or an array
    that contains it. *)
Definition field_eq (field : string) (value : pyval) (doc : dict) : bool :=
  match dict_get field doc with
  | Some (VEmails l) =>
      bool_decide (VEmails l = value) ||
      match value with VStr s => bool_decide (s ∈ l) | _ => false end
  | Some v => bool_decide (v = value)
  | None => bool_decide (value = VNone)
  end.

(** The query [{field: pattern}] for a compiled pattern. *)
Definition field_matches (search : string -> bool) (field : string) (doc : dict)
  : bool :=
  match dict_get field doc with
  | Some (VStr s) => search s
  | Some (VEmails l) => existsb search l
  | _ => false
  end.

Definition slug_key (doc : dict) : pyval := default VNone (dict_get "slug" doc).

Definition slug_taken (slug : pyval) (ds : list dict) : bool :=
  existsb (λ d, bool_decide (slug_key d = slug)) ds.

Definition create (canary : dict) (self : collection)
  : collection * result unit :=
  let canary := dict_set "_id" (VOid (next_oid self)) canary in
  if slug_taken (slug_key canary) (docs self) then
    ({| docs := docs self; next_oid := S (next_oid self) |},
     Raise DuplicateKeyError)
  else
    ({| docs := docs self ++ [canary]; next_oid := S (next_oid self) |},
     Ok ()).

(** [$set] then [$unset] on one document. *)
Definition apply_update (set : dict) (unset : list string) (doc : dict) : dict :=
  foldl (λ d k, dict_pop k d) (foldl (λ d kv, dict_set kv.1 kv.2 d) doc set)
    unset.

(** [update_one({'id': identifier}, doc)] *)
Fixpoint update_one (identifier : string) (set : dict) (unset : list string)
    (before after : list dict) : result (list dict) :=
  match after with
  | [] => Ok before
  | d :: rest =>
      if field_eq "id" (VStr identifier) d then
        let d' := apply_update set unset d in
        if negb (bool_decide (dict_get "_id" d' = dict_get "_id" d)) then
          Raise WriteError
        else if negb (bool_decide (slug_key d' = slug_key d)) &&
                slug_taken (slug_key d') (before ++ rest) then
          Raise DuplicateKeyError
        else Ok (before ++ d' :: rest)
      else update_one identifier set unset (before ++ [d]) rest
  end.

Definition update (identifier : string) (updates : dict) (self : collection)
  : collection * result unit :=
  let unset := (filter (λ kv, kv.2 = VNone) updates).*1 in
  let updates := filter (λ kv, kv.2 ≠ VNone) updates in
  match update_one identifier updates unset [] (docs self) with
  | Ok ds => ({| docs := ds; next_oid := next_oid self |}, Ok ())
  | Raise e => (self, Raise e)
  end.

(** The projection [{'_id': False}]. *)
Definition without_oid (doc : dict) : dict :=
  filter (λ kv, kv.1 ≠ "_id") doc.

Definition get (identifier : string) (self : collection) : result dict :=
  match filter (λ d, Is_true (field_eq "id" (VStr identifier) d)) (docs self) with
  | canary :: _ =>
      match without_oid canary with
      | [] => Raise KeyError
      | canary => Ok canary
      end
  | [] => Raise KeyError
  end.

Section Find.
(** The order of the server on the values of a sort key ([None] for a
    document without the field). *)
Variable sort_le : option pyval -> option pyval -> bool.

Definition fields (verbose : bool) (doc : dict) : dict :=
  if verbose then without_oid doc
  else filter (λ kv, kv.1 ∈ ["name"; "id"]) doc.

Definition spec (paused late : option bool)
    (search : option (string -> bool)) (doc : dict) : bool :=
  match paused with
  | Some b => field_eq "paused" (VBool b) doc
  | None => true
  end &&
  match late with
  | Some b => field_eq "late" (VBool b) doc
  | None => true
  end &&
  match search with
  | Some p =>
      field_matches p "name" doc || field_matches p "slug" doc
      || field_matches p "id" doc
  | None => true
  end.

Definition sort (order_by : option string) (ds : list dict) : list dict :=
  match order_by with
  | Some field =>
      merge_sort
        (λ a b, Is_true (sort_le (dict_get field a) (dict_get field b))) ds
  | None => ds
  end.

(** [list(verbose, paused, late, search, order_by)]; [search] is the
    pattern once compiled. *)
Definition list_ (verbose : bool) (paused late : option bool)
    (search : option (string -> bool)) (order_by : option string)
    (self : collection) : list dict :=
  fields verbose <$>
    sort order_by
      (filter (λ d, Is_true (spec paused late search d)) (docs self)).

Definition upcoming_deadlines (self : collection) : list dict :=
  list_ true (Some false) (Some false) None (Some "deadline") self.

End Find.

Definition delete (identifier : string) (self : collection)
  : collection * result unit :=
  let keep :=
    filter (λ d, ¬ Is_true (field_eq "id" (VStr identifier) d)) (docs self) in
  if (length (docs self) - length keep =? 0)%nat then
    ({| docs := keep; next_oid := next_oid self |}, Raise KeyError)
  else ({| docs := keep; next_oid := next_oid self |}, Ok ()).

Definition find_identifier (slug : string) (self : collection) : result pyval :=
  match filter (λ d, Is_true (field_eq "slug" (VStr slug) d)) (docs self) with
  | result :: _ => getitem result "id"
  | [] => Raise KeyError
  end.

End MongoStore.

(** ** Runs of the two stores used below *)

Definition cm : RedisCanary.store := RedisStore.new "cm".

(** An active, on-time canary. *)
Definition c1 : dict :=
  [("id", VStr "c1"); ("name", VStr "DB Backup"); ("slug", VStr "db-backup");
   ("periodicity", VInt 3600); ("emails", VEmails ["ops@example.com"]);
   ("paused", VBool false); ("late", VBool false); ("deadline", VTime 1000)].

(** The server after [create(c1)] on an empty key space. *)
Definition db1 : redis := (RedisStore.create cm c1 ∅).1.

(** ... then [update("c1", {"late": True})]. *)
Definition db_late : redis :=
  (RedisStore.update cm "c1" [("late", VBool true)] db1).1.

(** A canary created late and not paused. *)
Definition c3 : dict :=
  [("id", VStr "c3"); ("name", VStr "Nightly"); ("slug", VStr "nightly");
   ("paused", VBool false); ("late", VBool true); ("deadline", VTime 500)].

Definition db3 : redis := (RedisStore.create cm c3 ∅).1.

(** [create(c1)], [update("c1", {"slug": "renamed"})], [delete("c1")]. *)
Definition db_renamed : redis :=
  (RedisStore.update cm "c1" [("slug", VStr "renamed")] db1).1.

Definition db_deleted : redis := (RedisStore.delete cm "c1" db_renamed).1.

Definition c2 : dict :=
  [("id", VStr "c2"); ("name", VStr "Another"); ("slug", VStr "db-backup");
   ("paused", VBool false); ("late", VBool false); ("deadline", VTime 2000)].

(** [create(c1)], then [update("c1", {"emails": None})]. *)
Definition db_emails_unset : redis :=
  (RedisStore.update cm "c1" [("emails", VNone)] db1).1.

(** [create(c1)], then [update("c1", {"deadline": None})]. *)
Definition db_no_deadline : redis :=
  (RedisStore.update cm "c1" [("deadline", VNone)] db1).1.

(** [create(c1)], then [update("c1", {"periodicity": text})], and the hash
    stored for [c1] afterwards. *)
Definition db_periodicity (text : string) : redis :=
  (RedisStore.update cm "c1" [("periodicity", VStr text)] db1).1.

(** A collection with one document. *)
Definition coll1 : MongoStore.collection :=
  (MongoStore.create c1 (MongoStore.Collection [] 0)).1.

(** The order of integers and of timestamps, nothing below anything else:
    enough of the order of the server for the runs below. *)
Definition int_le (a b : option pyval) : bool :=
  match a, b with
  | Some (VInt x), Some (VInt y) => (x <=? y)%Z
  | Some (VTime x), Some (VTime y) => (x <=? y)%Z
  | _, _ => true
  end.

(** The record [list] yields for [c1] when it is not verbose. *)
Definition brief1 : record :=
  <["id" := LStr "c1"]> {["name" := LStr "DB Backup"]}.

(** The hash stored for [c1]. *)
Definition h1 : gmap string string :=
  list_to_map
    [("name", "DB Backup"); ("slug", "db-backup"); ("periodicity", "3600");
     ("late", "0"); ("paused", "0")].

Definition h_periodicity (text : string) : gmap string string :=
  <["periodicity" := text]> h1.

(** ** Vocabulary of the statements *)

Definition is_ok {A} (r : result A) : Prop := exists a, r = Ok a.

(** What [load] makes of a flag field of the hash: [bool(int(text))] when
    the field is there. *)
Definition stored_flag (o : option string) : result (option bool) :=
  match o with
  | None => Ok None
  | Some s => z ← py_int s; Ok (Some (negb (z =? 0)%Z))
  end.

(** The flag field is missing or holds the text of an integer. *)
Definition flag_readable (o : option string) : Prop := is_ok (stored_flag o).

(** The flag field is missing or reads as false. *)
Definition flag_unset (o : option string) : Prop :=
  stored_flag o = Ok None \/ stored_flag o = Ok (Some false).

(** The three-step coercion as the specification words it: the integer
    when the text parses as one, else the float when it parses as one, else
    the text; left open on text outside ASCII. *)
Definition first_parse (s : string) : lval :=
  if negb (is_ascii s) then LCoerced s
  else
    match py_int s with
    | Ok n => LInt n
    | Raise _ =>
        match py_float s with
        | Ok f => LFloat f
        | Raise _ => LStr s
        end
    end.

(** *** Texts of integers, of decimal fractions, and plain texts

    What the specification calls an integer, a float and a text, said
    without the parsers. *)

(** Tab, line feed, vertical tab, form feed, carriage return, space. *)
Definition blank (c : ascii) : Prop :=
  c ∈ ["009"; "010"; "011"; "012"; "013"; " "]%char.

Definition digit (c : ascii) : Prop :=
  c ∈ ["0"; "1"; "2"; "3"; "4"; "5"; "6"; "7"; "8"; "9"]%char.

(** The number a run of digits denotes. *)
Definition decimal_value (ds : list ascii) : Z :=
  foldl (λ acc c, (10 * acc + (Z.of_nat (nat_of_ascii c) - 48))%Z) 0%Z ds.

(** The integer [n] as [str] writes it, between blanks. *)
Definition integer_text (s : string) (n : Z) : Prop :=
  exists ws ws',
    Forall blank ws /\ Forall blank ws'
    /\ s = string_of_list_ascii ws +:+ pretty n +:+ string_of_list_ascii ws'.

(** A decimal fraction: an optional minus, digits, a point, digits, with a
    digit on one side of the point at least. *)
Definition fraction_text (s : string) (f : pyfloat) : Prop :=
  exists (neg : bool) ip fp,
    Forall digit ip /\ Forall digit fp /\ ip ++ fp <> []
    /\ s = string_of_list_ascii
             ((if neg then ["-"%char] else []) ++ ip ++ "."%char :: fp)
    /\ f = FDec neg (decimal_value (ip ++ fp)) (- Z.of_nat (length fp)).

(** A text that denotes no number: digits and then a character that
    continues no number, or a first character that starts none. *)
Definition plain_text (s : string) : Prop :=
  (exists ip c rest,
     ip <> [] /\ Forall digit ip
     /\ (¬ digit c) /\ (¬ blank c) /\ (c ∉ ["_"; "."; "e"; "E"]%char)
     /\ s = string_of_list_ascii (ip ++ c :: rest))
  \/ (exists c rest,
        (¬ digit c) /\ (¬ blank c)
        /\ (c ∉ ["+"; "-"; "."; "i"; "I"; "n"; "N"]%char)
        /\ s = String c rest).

(** The names the store keeps for itself under its namespace: an id equal
    to one of them would share its key with an index of the store. *)
Definition reserved : list string :=
  ["slugs"; "active"; "paused"; "late"; "ontime"; "deadlines"].

(** Every key a [save] or a [delete] of the canary can name. *)
Definition canary_keys (st : RedisCanary.store) (id : string) : list string :=
  [RedisCanary.slugs st; RedisCanary.key st id; "emails"; "history";
   RedisCanary.deadlines st; RedisCanary.emails_k st id;
   RedisCanary.history_k st id; RedisCanary.late st; RedisCanary.ontime st;
   RedisCanary.paused st; RedisCanary.active st].

(** An id without a colon, as the service generates them. *)
Definition plain (id : string) : Prop :=
  ":"%char ∉ list_ascii_of_string id.

(** ** Vocabulary and runs of the further properties *)

(** Whether the server accepts the command when its key holds [v]. *)
Definition accepted (c : command) (v : option rvalue) : bool :=
  match c, v with
  | DEL _, _ => true
  | _, None => true
  | (HSET _ _ _ | HDEL _ _ | HMSET _ _), Some (RHash _) => true
  | RPUSH _ _, Some (RList _) => true
  | (ZADD _ _ _ | ZREM _ _), Some (RZSet _) => true
  | (SADD _ _ | SREM _ _), Some (RSet _) => true
  | _, _ => false
  end.

(** The key of a command that names one key. *)
Definition command_key (c : command) : string :=
  match c with
  | HSET key _ _ | HDEL key _ | HMSET key _ | RPUSH key _ | ZADD key _ _
  | ZREM key _ | SADD key _ | SREM key _ => key
  | DEL _ => ""
  end.

(** What [get("c1")] returns on [db1]. *)
Definition res1 : record :=
  list_to_map
    [("id", LStr "c1"); ("name", LStr "DB Backup"); ("slug", LStr "db-backup");
     ("periodicity", LInt 3600); ("emails", LEmails ["ops@example.com"]);
     ("history", LHistory []); ("paused", LBool false); ("late", LBool false);
     ("deadline", LTime 1000)].

(** What [get("c3")] returns on [db3]. *)
Definition res3 : record :=
  list_to_map
    [("id", LStr "c3"); ("name", LStr "Nightly"); ("slug", LStr "nightly");
     ("emails", LEmails []); ("history", LHistory []);
     ("paused", LBool false); ("late", LBool true); ("deadline", LTime 500)].

(** [create(c1)], then [update("c1", {"paused": True})]. *)
Definition db_paused : redis :=
  (RedisStore.update cm "c1" [("paused", VBool true)] db1).1.

(** A command of one canary: it names keys of the canary and of the store
    only, and in the deadline sorted set it concerns the canary alone. *)
Definition canary_command (st : RedisCanary.store) (id : string)
    (c : command) : Prop :=
  (forall k, k ∈ command_keys c -> k ∈ canary_keys st id)
  /\ (RedisCanary.deadlines st ∈ command_keys c ->
      c = ZREM (RedisCanary.deadlines st) id
      \/ exists ts, c = ZADD (RedisCanary.deadlines st) ts id).

(** A command of a [save]: a command of the canary that, in the slug hash,
    binds a slug to the canary. *)
Definition save_command (st : RedisCanary.store) (id : string)
    (c : command) : Prop :=
  canary_command st id c
  /\ (RedisCanary.slugs st ∈ command_keys c ->
      exists field, c = HSET (RedisCanary.slugs st) field id).

(** ZSCORE on the content of the key. *)
Definition score_in (v : option rvalue) (member : string)
  : result (option Z) :=
  match v with
  | None => Ok None
  | Some (RZSet z) => Ok (z !! member)
  | Some _ => wrongtype
  end.

(** Two canaries on one server. *)
Definition db13 : redis := (RedisStore.create cm c3 db1).1.

(** The slug hash binds the slug to the id. *)
Definition binds (v : option rvalue) (slug id : string) : Prop :=
  exists h, v = Some (RHash h) /\ h !! slug = Some id.

(** No document holds an array as its slug. *)
Definition scalar_slug (d : dict) : bool :=
  match dict_get "slug" d with Some (VEmails _) => false | _ => true end.

Definition scalar_slugs (self : MongoStore.collection) : Prop :=
  Forall (λ d, scalar_slug d = true) (MongoStore.docs self).

Definition c4 : dict :=
  [("id", VStr "c4"); ("name", VStr "Weekly"); ("slug", VStr "weekly");
   ("paused", VBool false); ("late", VBool false); ("deadline", VTime 700)].

(** [create(c1)] then [create(c4)] on an empty collection. *)
Definition coll14 : MongoStore.collection := (MongoStore.create c4 coll1).1.

(** [create(c1)], then [update("c1", {"emails": [...]})]. *)
Definition db_emails : redis :=
  (RedisStore.update cm "c1"
     [("emails", VEmails ["dev@example.com"; "ops@example.com"])] db1).1.

(** [create(c1)], then an update of the history in which two entries share
    their comment. *)
Definition db_history : redis :=
  (RedisStore.update cm "c1"
     [("history", VHistory [(30%Z, "late"); (10%Z, "created"); (20%Z, "late")])]
     db1).1.

(** ... and one in which every comment is its own. *)
Definition db_history' : redis :=
  (RedisStore.update cm "c1"
     [("history", VHistory [(30%Z, "late"); (10%Z, "created")])] db1).1.

(** ** Texts and what [int] and [float] make of them *)

Lemma append_cons (x : ascii) (a b : string) :
  String x a +:+ b = String x (a +:+ b).
Proof. reflexivity. Qed.

Lemma chars_append (a b : string) :
  list_ascii_of_string (a +:+ b)
  = list_ascii_of_string a ++ list_ascii_of_string b.
Proof.
  induction a as [|x a IH]; [done|]. rewrite append_cons. simpl.
  by rewrite IH.
Qed.

Ltac each_char c :=
  destruct c as [[] [] [] [] [] [] [] []].

Lemma is_space_blank c : is_space c = true <-> blank c.
Proof.
  unfold blank. rewrite !elem_of_cons, elem_of_nil. split.
  - each_char c; intros H; try discriminate H; tauto.
  - intros [->|[->|[->|[->|[->|[->|[]]]]]]]; reflexivity.
Qed.

Lemma not_blank c : ¬ blank c -> is_space c = false.
Proof.
  intros H. destruct (is_space c) eqn:Hc; [|done].
  by apply is_space_blank in Hc.
Qed.

Lemma digit_of_digit c :
  digit_of c = Some (Z.of_nat (nat_of_ascii c) - 48)%Z <-> digit c.
Proof.
  unfold digit. rewrite !elem_of_cons, elem_of_nil. split.
  - each_char c; intros H; try discriminate H; tauto.
  - intros [->|[->|[->|[->|[->|[->|[->|[->|[->|[->|[]]]]]]]]]]];
      reflexivity.
Qed.

Lemma digit_of_Some c : is_Some (digit_of c) <-> digit c.
Proof.
  split.
  - unfold digit. rewrite !elem_of_cons, elem_of_nil.
    each_char c; intros [z H]; try discriminate H; tauto.
  - intros H%digit_of_digit. by eexists.
Qed.

Lemma not_digit c : ¬ digit c -> digit_of c = None.
Proof.
  intros H. destruct (digit_of c) eqn:Hc; [|done].
  destruct H. apply digit_of_Some. by eexists.
Qed.

Lemma digit_is_no_space c : is_Some (digit_of c) -> is_space c = false.
Proof.
  each_char c; vm_compute; try done; by intros [? ?].
Qed.

Lemma digit_is_ascii c :
  is_Some (digit_of c) -> (nat_of_ascii c <? 128)%nat = true.
Proof.
  each_char c; vm_compute; try done; by intros [? ?].
Qed.

Lemma blank_is_ascii c : blank c -> (nat_of_ascii c <? 128)%nat = true.
Proof.
  unfold blank. rewrite !elem_of_cons, elem_of_nil.
  intros [->|[->|[->|[->|[->|[->|[]]]]]]]; reflexivity.
Qed.

Lemma split_sign_other c l :
  c <> "+"%char -> c <> "-"%char -> split_sign (c :: l) = (false, c :: l).
Proof. each_char c; intros H1 H2; try done. Qed.

Lemma digit_is_no_sign c l :
  is_Some (digit_of c) -> split_sign (c :: l) = (false, c :: l).
Proof.
  each_char c; vm_compute; try done; by intros [? ?].
Qed.

Lemma float_fraction_other ip c l :
  c <> "."%char -> float_fraction ip (c :: l) = (ip, O, c :: l).
Proof. each_char c; intros H; try done. Qed.

Lemma lower_e c : lower c = "e"%char -> c = "e"%char \/ c = "E"%char.
Proof. each_char c; vm_compute; intros H; try discriminate H; tauto. Qed.

Lemma lower_i c : lower c = "i"%char -> c = "i"%char \/ c = "I"%char.
Proof. each_char c; vm_compute; intros H; try discriminate H; tauto. Qed.

Lemma lower_n c : lower c = "n"%char -> c = "n"%char \/ c = "N"%char.
Proof. each_char c; vm_compute; intros H; try discriminate H; tauto. Qed.

(** *** Stripping *)

Lemma lstrip_no_space c l : is_space c = false -> lstrip (c :: l) = c :: l.
Proof. intros H. simpl. by rewrite H. Qed.

Lemma lstrip_blanks ws l :
  Forall blank ws -> lstrip (ws ++ l) = lstrip l.
Proof.
  induction 1 as [|c ws Hc _ IH]; [done|].
  simpl. by rewrite (proj2 (is_space_blank c) Hc).
Qed.

Lemma lstrip_stop l c t :
  is_space c = false -> lstrip (l ++ c :: t) = lstrip l ++ c :: t.
Proof.
  intros Hc. induction l as [|a l IH]; simpl.
  - by rewrite Hc.
  - by destruct (is_space a).
Qed.

Lemma strip_blanks ws l : Forall blank ws -> strip (ws ++ l) = strip l.
Proof. intros H. unfold strip. by rewrite lstrip_blanks. Qed.

(** Stripping keeps the text up to its last character that is no blank,
    when the text starts with a character that is no blank. *)
Lemma strip_keep pre c rest :
  lstrip (pre ++ [c]) = pre ++ [c] -> is_space c = false ->
  strip (pre ++ c :: rest) = pre ++ c :: rev (lstrip (rev rest)).
Proof.
  intros Hhead Hc. unfold strip.
  assert (Hfirst : lstrip (pre ++ c :: rest) = pre ++ c :: rest).
  { destruct pre as [|a pre]; [by apply lstrip_no_space|].
    simpl in *. destruct (is_space a); [|done].
    exfalso. apply (f_equal (@length ascii)) in Hhead.
    assert (Hle : forall l, (length (lstrip l) <= length l)%nat).
    { induction l as [|x l IH]; [done|]. simpl.
      destruct (is_space x); simpl; lia. }
    specialize (Hle (pre ++ [c])). simpl in Hhead. lia. }
  rewrite Hfirst, rev_app_distr. cbn [rev]. rewrite <- app_assoc. cbn [app].
  rewrite lstrip_stop by done.
  rewrite rev_app_distr. cbn [rev]. rewrite rev_involutive.
  by rewrite <- app_assoc.
Qed.

Lemma strip_tail_blanks ws : Forall blank ws -> rev (lstrip (rev ws)) = [].
Proof.
  intros H.
  assert (Hrev : Forall blank (rev ws)).
  { apply Forall_forall. intros c Hc%list_elem_of_In%in_rev%list_elem_of_In.
    by apply (proj1 (Forall_forall _ _) H). }
  pose proof (lstrip_blanks (rev ws) [] Hrev) as Hs.
  rewrite app_nil_r in Hs. by rewrite Hs.
Qed.

(** *** Runs of digits *)

Lemma decimal_value_from (ds : list ascii) : forall acc,
  foldl (λ acc c, (10 * acc + (Z.of_nat (nat_of_ascii c) - 48))%Z) acc ds
  = (acc * 10 ^ Z.of_nat (length ds) + decimal_value ds)%Z.
Proof.
  unfold decimal_value.
  induction ds as [|d ds IH]; intros acc.
  - simpl. lia.
  - cbn [foldl length]. rewrite IH, (IH (10 * 0 + _)%Z).
    rewrite Nat2Z.inj_succ, Z.pow_succ_r by lia. ring.
Qed.

Lemma decimal_value_app (a b : list ascii) :
  decimal_value (a ++ b)
  = (decimal_value a * 10 ^ Z.of_nat (length b) + decimal_value b)%Z.
Proof.
  unfold decimal_value at 1. rewrite foldl_app.
  by rewrite decimal_value_from.
Qed.

Lemma digits_go_stop acc count prev rest :
  match rest with
  | [] => True
  | c :: _ => digit_of c = None /\ c <> "_"%char
  end ->
  digits_go acc count prev rest = (acc, count, rest).
Proof.
  destruct rest as [|c rest]; [done|]. intros [Hd Hu]. cbn [digits_go].
  rewrite Hd. destruct (Ascii.eqb_spec c "_"); [done|done].
Qed.

Lemma digits_go_run (ds : list ascii) : forall acc count prev rest,
  Forall digit ds -> ds <> [] ->
  digits_go acc count prev (ds ++ rest)
  = digits_go (acc * 10 ^ Z.of_nat (length ds) + decimal_value ds)
      (count + length ds) true rest.
Proof.
  induction ds as [|d ds IH]; intros acc count prev rest Hds Hne; [done|].
  inversion Hds as [|? ? Hd Hrest]; subst.
  cbn [app digits_go]. rewrite (proj2 (digit_of_digit d) Hd).
  destruct ds as [|d' ds'].
  - cbn [app length]. unfold decimal_value. cbn [foldl].
    replace (count + 1)%nat with (S count) by lia.
    f_equal. change (Z.of_nat 1) with 1%Z. lia.
  - rewrite IH by done.
    replace (count + length (d :: d' :: ds'))%nat
      with (S count + length (d' :: ds'))%nat by (simpl; lia).
    f_equal.
    change (d :: d' :: ds') with ([d] ++ d' :: ds').
    rewrite decimal_value_app.
    unfold decimal_value at 2. cbn [foldl].
    rewrite length_app, Nat2Z.inj_add, Z.pow_add_r by lia.
    change (Z.of_nat (length [d])) with 1%Z. ring.
Qed.

(** The digits read at the head of a text: a run of digits up to a
    character that is no digit and no underscore. *)
Lemma digits_run ds rest :
  Forall digit ds ->
  match rest with
  | [] => True
  | c :: _ => digit_of c = None /\ c <> "_"%char
  end ->
  digits (ds ++ rest) = (decimal_value ds, length ds, rest).
Proof.
  intros Hds Hrest. unfold digits.
  destruct ds as [|d ds]; [by apply digits_go_stop|].
  rewrite digits_go_run by done. rewrite digits_go_stop by done.
  by rewrite Z.mul_0_l, Z.add_0_l.
Qed.

(** *** The text [str] writes for an integer *)

Lemma digit_of_pretty_char (r : N) :
  (r < 10)%N -> digit_of (pretty_N_char r) = Some (Z.of_N r).
Proof.
  intros Hr.
  assert (r = 0 \/ r = 1 \/ r = 2 \/ r = 3 \/ r = 4 \/ r = 5 \/ r = 6
          \/ r = 7 \/ r = 8 \/ r = 9)%N as H by lia.
  destruct H as [->|[->|[->|[->|[->|[->|[->|[->|[->| ->]]]]]]]]];
    reflexivity.
Qed.

(** The text stdpp writes for a positive number is its decimal digits, and
    the digit reader of [int] reads the number back from them. *)
Lemma pretty_go_digits (x : N) : forall s,
  (0 < x)%N ->
  exists D,
    list_ascii_of_string (pretty_N_go x s) = D ++ list_ascii_of_string s
    /\ D <> []
    /\ Forall (λ c, is_Some (digit_of c)) D
    /\ forall acc count prev rest,
         digits_go acc count prev (D ++ rest)
         = digits_go (acc * 10 ^ Z.of_nat (length D) + Z.of_N x)
             (count + length D) true rest.
Proof.
  induction (N.lt_wf_0 x) as [x _ IH]. intros s Hx.
  rewrite pretty_N_go_step by done.
  assert (Hr : (x `mod` 10 < 10)%N) by (apply N.mod_lt; lia).
  assert (Hdigit := digit_of_pretty_char _ Hr).
  destruct (decide (x `div` 10 = 0)%N) as [Hq|Hq].
  - rewrite Hq, pretty_N_go_0. exists [pretty_N_char (x `mod` 10)].
    split; [done|]. split; [done|].
    split; [constructor; [by eexists|constructor]|].
    intros acc count prev rest. cbn [app digits_go]. rewrite Hdigit.
    assert (Hx' : (x = x `mod` 10)%N).
    { rewrite (N.div_mod x 10) at 1 by done. lia. }
    replace (acc * 10 ^ Z.of_nat (length [pretty_N_char (x `mod` 10)])
             + Z.of_N x)%Z with (10 * acc + Z.of_N (x `mod` 10))%Z.
    + by replace (count + length [pretty_N_char (x `mod` 10)])%nat
        with (S count) by (simpl; lia).
    + simpl length. change (10 ^ Z.of_nat 1)%Z with 10%Z.
      rewrite <- Hx'. ring.
  - destruct (IH (x `div` 10)%N) with
      (s := String (pretty_N_char (x `mod` 10)) s)
      as (D & Hchars & Hne & Hall & Hread).
    { apply N.div_lt; lia. }
    { by apply N.neq_0_lt_0. }
    exists (D ++ [pretty_N_char (x `mod` 10)]).
    split; [by rewrite Hchars, <- app_assoc|].
    split; [by destruct D|].
    split; [apply Forall_app; split; [done|];
            constructor; [by eexists|constructor]|].
    intros acc count prev rest.
    rewrite <- app_assoc. cbn [app]. rewrite Hread.
    cbn [digits_go]. rewrite Hdigit.
    replace (acc * 10 ^ Z.of_nat (length (D ++ [pretty_N_char (x `mod` 10)]))
             + Z.of_N x)%Z
      with (10 * (acc * 10 ^ Z.of_nat (length D) + Z.of_N (x `div` 10))
            + Z.of_N (x `mod` 10))%Z.
    + by replace (count + length (D ++ [pretty_N_char (x `mod` 10)]))%nat
        with (S (count + length D)) by (rewrite length_app; simpl; lia).
    + rewrite length_app. simpl length.
      rewrite Nat2Z.inj_add, Z.pow_add_r by lia.
      change (10 ^ Z.of_nat 1)%Z with 10%Z.
      assert (Hdm : Z.of_N x
                = (10 * Z.of_N (x `div` 10) + Z.of_N (x `mod` 10))%Z).
      { rewrite (N.div_mod x 10) at 1 by done. lia. }
      rewrite Hdm. ring.
Qed.

(** The characters of [str(z)]: a minus when [z] is negative, then the
    digits of its absolute value. *)
Lemma pretty_chars (z : Z) :
  exists D,
    list_ascii_of_string (pretty z)
    = (if bool_decide (z < 0)%Z then ["-"%char] else []) ++ D
    /\ D <> []
    /\ Forall (λ c, is_Some (digit_of c)) D
    /\ forall rest,
         match rest with
         | [] => True
         | c :: _ => digit_of c = None /\ c <> "_"%char
         end ->
         digits (D ++ rest) = (Z.abs z, length D, rest).
Proof.
  assert (Hpos : forall p : positive, exists D,
    list_ascii_of_string (pretty (N.pos p)) = D
    /\ D <> []
    /\ Forall (λ c, is_Some (digit_of c)) D
    /\ forall rest,
         match rest with
         | [] => True
         | c :: _ => digit_of c = None /\ c <> "_"%char
         end ->
         digits (D ++ rest) = (Z.pos p, length D, rest)).
  { intros p. unfold pretty, pretty_N. rewrite decide_False by done.
    destruct (pretty_go_digits (N.pos p) "")
      as (D & Hchars & Hne & Hall & Hread); [lia|].
    exists D. simpl (list_ascii_of_string "") in Hchars.
    rewrite app_nil_r in Hchars.
    split; [done|]. split; [done|]. split; [done|].
    intros rest Hrest. unfold digits. rewrite Hread.
    rewrite digits_go_stop by done. by rewrite Z.mul_0_l, Z.add_0_l. }
  destruct z as [|p|p].
  - exists ["0"%char]. split; [done|]. split; [done|].
    split; [constructor; [by eexists|constructor]|].
    intros rest Hrest. unfold digits. cbn [app digits_go].
    change (digit_of "0") with (Some 0%Z). cbv beta iota.
    rewrite digits_go_stop by exact Hrest. reflexivity.
  - destruct (Hpos p) as (D & Hchars & Hne & Hall & Hread).
    exists D. rewrite bool_decide_eq_false_2 by lia. cbn [app].
    split; [done|]. split; [done|]. split; [done|]. exact Hread.
  - destruct (Hpos p) as (D & Hchars & Hne & Hall & Hread).
    exists D. rewrite bool_decide_eq_true_2 by lia.
    split; [|split; [done|]; split; [done|]; exact Hread].
    unfold pretty, pretty_Z.
    change ("-" +:+ pretty p) with (String "-" (pretty p)).
    simpl list_ascii_of_string. cbn [app]. f_equal. exact Hchars.
Qed.

Lemma is_ascii_chars (s : string) :
  is_ascii s = true
  <-> Forall (λ c, (nat_of_ascii c <? 128)%nat = true)
        (list_ascii_of_string s).
Proof.
  unfold is_ascii. rewrite forallb_forall, Forall_forall.
  split; intros H c Hc; apply H; by apply list_elem_of_In.
Qed.

Lemma is_ascii_pretty (z : Z) : is_ascii (pretty z) = true.
Proof.
  apply is_ascii_chars.
  destruct (pretty_chars z) as (D & -> & _ & HD & _).
  apply Forall_app. split.
  - case_bool_decide; repeat constructor.
  - eapply Forall_impl; [exact HD|]. intros c. apply digit_is_ascii.
Qed.

(** [int] of the text of an integer, between blanks, is the integer. *)
Lemma py_int_integer_text s n : integer_text s n -> py_int s = Ok n.
Proof.
  intros (ws & ws' & Hws & Hws' & ->).
  destruct (pretty_chars n) as (D & Hchars & Hne & HD & Hread).
  assert (Hascii : is_ascii (string_of_list_ascii ws +:+ pretty n
                             +:+ string_of_list_ascii ws') = true).
  { apply is_ascii_chars.
    rewrite !chars_append, !list_ascii_of_string_of_list_ascii.
    repeat (apply Forall_app; split).
    - eapply Forall_impl; [exact Hws|]. intros c. apply blank_is_ascii.
    - by apply is_ascii_chars, is_ascii_pretty.
    - eapply Forall_impl; [exact Hws'|]. intros c. apply blank_is_ascii. }
  unfold py_int. rewrite Hascii. cbn [negb].
  rewrite !chars_append, !list_ascii_of_string_of_list_ascii.
  rewrite strip_blanks by done. rewrite Hchars.
  destruct (rev D) as [|d R] eqn:HR.
  { apply (f_equal (@rev ascii)) in HR. rewrite rev_involutive in HR.
    by destruct Hne. }
  assert (HD' : D = rev R ++ [d]).
  { apply (f_equal (@rev ascii)) in HR. by rewrite rev_involutive in HR. }
  assert (Hd : is_Some (digit_of d)).
  { apply (proj1 (Forall_forall _ _) HD d). rewrite HD'.
    apply elem_of_app. right. left. }
  set (sign := if bool_decide (n < 0)%Z then ["-"%char] else []) in *.
  assert (Hstrip : strip ((sign ++ D) ++ ws') = sign ++ D).
  { rewrite HD', app_assoc, <- app_assoc. cbn [app].
    rewrite strip_keep.
    - rewrite strip_tail_blanks by done. by rewrite <- app_assoc.
    - subst sign. case_bool_decide; [done|].
      cbn [app]. rewrite <- HD'.
      destruct D as [|d0 D0]; [done|]. inversion HD; subst.
      by apply lstrip_no_space, digit_is_no_space.
    - by apply digit_is_no_space. }
  rewrite Hstrip. subst sign.
  specialize (Hread [] I). rewrite app_nil_r in Hread.
  case_bool_decide as Hneg.
  - cbn [app split_sign]. rewrite Hread.
    destruct D as [|d0 D0]; [done|]. cbn [length]. f_equal. lia.
  - cbn [app]. destruct D as [|d0 D0]; [done|]. inversion HD; subst.
    rewrite digit_is_no_sign by done. rewrite Hread.
    cbn [length]. f_equal. lia.
Qed.

Lemma append_empty_r (a : string) : a +:+ "" = a.
Proof. induction a as [|x a IH]; [done|]. by rewrite append_cons, IH. Qed.

Lemma integer_text_pretty (n : Z) : integer_text (pretty n) n.
Proof.
  exists [], []. split; [done|]. split; [done|].
  simpl string_of_list_ascii. by rewrite append_empty_r.
Qed.

Lemma py_int_pretty (z : Z) : py_int (pretty z) = Ok z.
Proof. apply py_int_integer_text, integer_text_pretty. Qed.

(** *** Decimal fractions and plain texts *)

Lemma digit_no_space c : digit c -> is_space c = false.
Proof. intros H. apply digit_is_no_space, digit_of_Some, H. Qed.

Lemma strip_no_blank (l : list ascii) :
  Forall (λ c, is_space c = false) l -> strip l = l.
Proof.
  intros Hl. destruct (rev l) as [|c R] eqn:HR.
  { apply (f_equal (@rev ascii)) in HR. rewrite rev_involutive in HR.
    by subst. }
  assert (Hl' : l = rev R ++ [c]).
  { apply (f_equal (@rev ascii)) in HR. by rewrite rev_involutive in HR. }
  rewrite Hl' in *. apply Forall_app in Hl as [HR' Hc].
  inversion Hc; subst.
  rewrite strip_keep; [done| |done].
  destruct (rev R) as [|a A]; [by apply lstrip_no_space|].
  inversion HR'; subst. by apply lstrip_no_space.
Qed.

Lemma word_not (c x : ascii) (w w' : list ascii) :
  lower c <> x ->
  String.eqb (lower_string (c :: w)) (String x (string_of_list_ascii w'))
  = false.
Proof.
  intros H. apply String.eqb_neq. unfold lower_string. cbn [map].
  cbn [string_of_list_ascii]. congruence.
Qed.

(** A text that starts with a character whose lower case is neither [i]
    nor [n] is none of [inf], [infinity], [nan]. *)
Lemma no_word c w :
  lower c <> "i"%char -> lower c <> "n"%char ->
  let word := lower_string (c :: w) in
  String.eqb word "inf" || String.eqb word "infinity" = false
  /\ String.eqb word "nan" = false.
Proof.
  intros Hi Hn word. subst word. split.
  - apply orb_false_iff. split.
    + by apply (word_not c "i" w ["n"; "f"]%char).
    + by apply (word_not c "i" w ["n"; "f"; "i"; "n"; "i"; "t"; "y"]%char).
  - by apply (word_not c "n" w ["a"; "n"]%char).
Qed.

Lemma digit_lower c : digit c -> lower c <> "i"%char /\ lower c <> "n"%char.
Proof.
  unfold digit. rewrite !elem_of_cons, elem_of_nil.
  intros [->|[->|[->|[->|[->|[->|[->|[->|[->|[->|[]]]]]]]]]]]; done.
Qed.

Lemma digit_stop c :
  ¬ digit c -> c <> "_"%char ->
  digit_of c = None /\ c <> "_"%char.
Proof. intros H ?. split; [by apply not_digit|done]. Qed.

Lemma digit_ascii c : digit c -> (nat_of_ascii c <? 128)%nat = true.
Proof. intros H. apply digit_is_ascii, digit_of_Some, H. Qed.

Lemma fraction_text_ascii s f : fraction_text s f -> is_ascii s = true.
Proof.
  intros (neg & ip & fp & Hip & Hfp & _ & -> & _).
  apply is_ascii_chars. rewrite list_ascii_of_string_of_list_ascii.
  apply Forall_app. split; [destruct neg; repeat constructor|].
  apply Forall_app. split; [|constructor; [done|]];
    (eapply Forall_impl; [eassumption|]); apply digit_ascii.
Qed.

(** [int] refuses a decimal fraction and [float] reads it. *)
Lemma parse_fraction_text s f :
  fraction_text s f ->
  py_int s = Raise ValueError /\ py_float s = Ok f.
Proof.
  intros Hf. pose proof (fraction_text_ascii _ _ Hf) as Hascii.
  destruct Hf as (neg & ip & fp & Hip & Hfp & Hne & -> & ->).
  unfold py_int, py_float. rewrite Hascii. cbn [negb].
  rewrite list_ascii_of_string_of_list_ascii.
  assert (Hbody : Forall (λ c, is_space c = false) (ip ++ "."%char :: fp)).
  { apply Forall_app. split; [|constructor; [done|]];
      (eapply Forall_impl; [eassumption|]); apply digit_no_space. }
  assert (Hstrip :
    strip ((if neg then ["-"%char] else []) ++ ip ++ "."%char :: fp)
    = (if neg then ["-"%char] else []) ++ ip ++ "."%char :: fp).
  { apply strip_no_blank. apply Forall_app. split; [|done].
    destruct neg; repeat constructor. }
  rewrite Hstrip.
  assert (Hsign :
    split_sign ((if neg then ["-"%char] else []) ++ ip ++ "."%char :: fp)
    = (neg, ip ++ "."%char :: fp)).
  { destruct neg; [done|]. cbn [app].
    destruct ip as [|d ip]; [done|]. inversion Hip; subst.
    by apply digit_is_no_sign, digit_of_Some. }
  rewrite Hsign.
  assert (Hdigits : digits (ip ++ "."%char :: fp)
                    = (decimal_value ip, length ip, "."%char :: fp)).
  { by apply digits_run. }
  rewrite Hdigits. split.
  - destruct ip; done.
  - assert (Hword : let word := lower_string (ip ++ "."%char :: fp) in
              String.eqb word "inf" || String.eqb word "infinity" = false
              /\ String.eqb word "nan" = false).
    { destruct ip as [|d ip]; [by apply no_word|].
      inversion Hip; subst. cbn [app].
      by apply no_word; apply digit_lower. }
    destruct Hword as [-> ->].
    change (float_fraction (decimal_value ip) ("."%char :: fp))
      with (digits_go (decimal_value ip) 0 false fp).
    assert (Hfrac : digits_go (decimal_value ip) 0 false fp
                    = (decimal_value (ip ++ fp), length fp, [])).
    { destruct fp as [|d fp'].
      - by rewrite app_nil_r.
      - rewrite <- (app_nil_r (d :: fp')) at 1.
        rewrite digits_go_run by done. cbn [digits_go].
        by rewrite decimal_value_app. }
    rewrite Hfrac. cbn [float_exponent].
    destruct (length ip + length fp)%nat eqn:Hlen.
    + destruct ip, fp; done.
    + by rewrite Z.sub_0_l.
Qed.

(** Neither [int] nor [float] reads a plain text. *)
Lemma parse_plain_text s :
  is_ascii s = true -> plain_text s ->
  py_int s = Raise ValueError /\ py_float s = Raise ValueError.
Proof.
  intros Hascii
    [(ip & c & rest & Hne & Hip & Hd & Hb & Hc & ->)
    |(c & rest & Hd & Hb & Hc & ->)];
    unfold py_int, py_float; rewrite Hascii; cbn [negb].
  - rewrite list_ascii_of_string_of_list_ascii.
    rewrite !not_elem_of_cons in Hc. destruct Hc as (Hu & Hp & He & HE & _).
    destruct ip as [|d ip]; [done|]. inversion Hip; subst.
    rewrite strip_keep;
      [|by apply lstrip_no_space, digit_no_space|by apply not_blank].
    set (rest' := rev (lstrip (rev rest))).
    cbn [app]. rewrite digit_is_no_sign by by apply digit_of_Some.
    assert (Hdigits : digits (d :: ip ++ c :: rest')
                      = (decimal_value (d :: ip), length (d :: ip),
                         c :: rest')).
    { change (d :: ip ++ c :: rest') with ((d :: ip) ++ c :: rest').
      apply digits_run; [done|by apply digit_stop]. }
    rewrite Hdigits. split; [done|].
    destruct (no_word d (ip ++ c :: rest')) as [-> ->];
      [by apply digit_lower..|].
    rewrite float_fraction_other by done. cbn [length Nat.add].
    cbn [float_exponent].
    destruct (Ascii.eqb_spec (lower c) "e") as [Hl|Hl]; [|done].
    by destruct (lower_e c Hl).
  - rewrite !not_elem_of_cons in Hc.
    destruct Hc as (Hplus & Hminus & Hp & Hi & HI & Hn & HN & _).
    cbn [list_ascii_of_string].
    pose proof (strip_keep [] c (list_ascii_of_string rest)) as Hstrip.
    cbn [app] in Hstrip. rewrite Hstrip;
      [|by apply lstrip_no_space, not_blank|by apply not_blank].
    clear Hstrip.
    set (rest' := rev (lstrip (rev (list_ascii_of_string rest)))).
    rewrite split_sign_other by done.
    assert (Hdigits : digits (c :: rest') = (0%Z, O, c :: rest')).
    { unfold digits. cbn [digits_go]. rewrite not_digit by done.
      by rewrite andb_false_r. }
    rewrite Hdigits. split; [done|].
    destruct (no_word c rest') as [-> ->].
    { intros Hl. by destruct (lower_i c Hl). }
    { intros Hl. by destruct (lower_n c Hl). }
    by rewrite float_fraction_other.
Qed.

(** The exceptions of the two parsers. *)
Lemma py_int_raises s e :
  py_int s = Raise e ->
  is_ascii s = true /\ e = ValueError
  \/ is_ascii s = false /\ e = Unmodelled.
Proof.
  unfold py_int. destruct (is_ascii s); cbn [negb].
  - destruct (split_sign _) as [neg body].
    destruct (digits body) as [[v [|n]] [|c r]]; intros [= <-]; by left.
  - intros [= <-]. by right.
Qed.

Lemma py_float_raises s e :
  py_float s = Raise e ->
  is_ascii s = true /\ e = ValueError
  \/ is_ascii s = false /\ e = Unmodelled.
Proof.
  unfold py_float. destruct (is_ascii s); cbn [negb].
  - destruct (split_sign _) as [neg body].
    destruct (_ || _); [done|]. destruct (String.eqb _ "nan"); [done|].
    destruct (digits body) as [[ip ni] rest].
    destruct (float_fraction ip rest) as [[fp nf] rest'].
    destruct (ni + nf)%nat; [intros [= <-]; by left|].
    destruct (float_exponent rest'); [done|]. intros [= <-]. by left.
  - intros [= <-]. by right.
Qed.

Lemma py_int_ascii s :
  is_ascii s = false -> py_int s = Raise Unmodelled.
Proof. intros H. unfold py_int. by rewrite H. Qed.

(** ** Facts about the embedding *)

Lemma exists_lookup (db : redis) key v :
  db !! key = Some v -> exists_ db key = true.
Proof. intros H. unfold exists_. by rewrite H. Qed.

Lemma update_one_no_match identifier set unset after : forall before,
  Forall (λ d, MongoStore.field_eq "id" (VStr identifier) d = false) after ->
  MongoStore.update_one identifier set unset before after
  = Ok (before ++ after).
Proof.
  induction after as [|d rest IH]; intros before Hno; simpl.
  - by rewrite app_nil_r.
  - inversion Hno as [|? ? Hd Hrest]; subst.
    rewrite Hd. rewrite IH by assumption.
    by rewrite <- app_assoc.
Qed.

Lemma save_of_missing_key st id updates db :
  exists_ db (RedisCanary.key st id) = false ->
  RedisCanary.save st id updates false db = (db, Raise KeyError).
Proof.
  intros H. unfold RedisCanary.save, transaction, RedisCanary._save.
  by rewrite H.
Qed.

(** C6: [update] of an identifier that no record is bound to.  On the
    key-value store the existence check that opens the transaction raises
    KeyError (NotFound) and the server is left as it was; on the document
    store the call returns without an error and the collection is left as it
    was. *)
Theorem update_of_unbound_identifier
    (st : RedisCanary.store) (identifier : string) (updates : dict)
    (db : redis) (self : MongoStore.collection) :
  exists_ db (RedisCanary.key st identifier) = false ->
  Forall (λ d, MongoStore.field_eq "id" (VStr identifier) d = false)
    (MongoStore.docs self) ->
  RedisStore.update st identifier updates db = (db, Raise KeyError)
  /\ MongoStore.update identifier updates self = (self, Ok ()).
Proof.
  intros Hredis Hmongo. split.
  - by apply save_of_missing_key.
  - unfold MongoStore.update.
    rewrite update_one_no_match by assumption.
    by destruct self.
Qed.

Lemma update_of_unbound_identifier_witness :
  RedisStore.update cm "ghost" [("late", VBool true)] db1
    = (db1, Raise KeyError)
  /\ MongoStore.update "ghost" [("late", VBool true)] coll1 = (coll1, Ok ()).
Proof.
  apply (update_of_unbound_identifier cm "ghost" [("late", VBool true)]
           db1 coll1).
  - vm_compute. reflexivity.
  - vm_compute. repeat constructor.
Defined.

Lemma flag_of_hash (h : gmap string string) (x y : lval) name :
  name <> "emails" -> name <> "history" ->
  RedisCanary.flag (<["history" := x]> (<["emails" := y]> (LStr <$> h))) name
  = stored_flag (h !! name).
Proof.
  intros H1 H2. unfold RedisCanary.flag.
  rewrite !lookup_insert_ne by done. rewrite lookup_fmap.
  destruct (h !! name) as [s|]; simpl; [|done].
  by destruct (py_int s).
Qed.

Lemma flag_after_paused (h : gmap string string) (x y z : lval) :
  RedisCanary.flag
    (<["paused" := z]> (<["history" := x]> (<["emails" := y]> (LStr <$> h))))
    "late"
  = stored_flag (h !! "late").
Proof.
  unfold RedisCanary.flag. rewrite lookup_insert_ne by done.
  by apply flag_of_hash.
Qed.

Lemma coerce_periodicity_text s :
  RedisCanary.coerce_periodicity (LStr s) = Ok (first_parse s).
Proof.
  unfold RedisCanary.coerce_periodicity, first_parse.
  destruct (is_ascii s) eqn:Hascii; cbn [negb].
  - destruct (py_int s) as [n|e] eqn:Hint; [done|].
    destruct (py_int_raises _ _ Hint) as [[_ ->]|[? _]]; [|congruence].
    destruct (py_float s) as [f|e] eqn:Hfloat; [done|].
    by destruct (py_float_raises _ _ Hfloat) as [[_ ->]|[? _]];
      [|congruence].
  - by rewrite py_int_ascii.
Qed.

(** [load] once the four replies of its transaction are known. *)
Lemma load_replies st id db h em hs dl :
  db !! RedisCanary.key st id = Some (RHash h) ->
  lrange db (RedisCanary.emails_k st id) = Ok em ->
  zrange_withscores db (RedisCanary.history_k st id) = Ok hs ->
  zscore db (RedisCanary.deadlines st) id = Ok dl ->
  RedisCanary._load st id db = Ok (h, em, hs, dl).
Proof.
  intros Hh Hem Hhs Hdl. unfold RedisCanary._load.
  rewrite (exists_lookup _ _ _ Hh). unfold hgetall.
  by rewrite Hh, Hem, Hhs, Hdl.
Qed.

Lemma load_replies_inv st id db h r :
  db !! RedisCanary.key st id = Some (RHash h) ->
  RedisCanary._load st id db = Ok r ->
  exists em hs dl,
    r = (h, em, hs, dl)
    /\ lrange db (RedisCanary.emails_k st id) = Ok em
    /\ zrange_withscores db (RedisCanary.history_k st id) = Ok hs
    /\ zscore db (RedisCanary.deadlines st) id = Ok dl.
Proof.
  intros Hh. unfold RedisCanary._load.
  rewrite (exists_lookup _ _ _ Hh). unfold hgetall. rewrite Hh. simpl.
  destruct (lrange _ _) as [em|]; simpl; [|done].
  destruct (zrange_withscores _ _) as [hs|]; simpl; [|done].
  destruct (zscore _ _ _) as [dl|]; simpl; [|done].
  intros [= <-]. by exists em, hs, dl.
Qed.

(** The steps of [load] after the transaction, on the replies. *)
Lemma load_after_replies st id db h em hs dl :
  RedisCanary._load st id db = Ok (h, em, hs, dl) ->
  RedisCanary.load st id db =
    (paused ← stored_flag (h !! "paused");
     late ← stored_flag (h !! "late");
     let data : record :=
       <["late" := LBool (default false late)]>
         (<["paused" := LBool (default false paused)]>
            (<["history" :=
                 LHistory ((λ '(member, score), (score, member)) <$> hs)]>
               (<["emails" := LEmails em]> (LStr <$> h)))) in
     let data : record :=
       match h !! "periodicity" with
       | Some s => <["periodicity" := first_parse s]> data
       | None => data
       end in
     if negb (default false paused) then
       match dl with
       | Some ts => Ok (<["id" := LStr id]> (<["deadline" := LTime ts]> data))
       | None => Raise TypeError
       end
     else Ok (<["id" := LStr id]> data)).
Proof.
  intros Hload. unfold RedisCanary.load. rewrite Hload. simpl.
  rewrite flag_of_hash by done.
  destruct (stored_flag (h !! "paused")) as [p|]; simpl; [|done].
  rewrite flag_after_paused.
  destruct (stored_flag (h !! "late")) as [l|]; simpl; [|done].
  rewrite !lookup_insert_ne by done. rewrite lookup_fmap.
  destruct (h !! "periodicity") as [s|]; cbn [fmap option_fmap option_map].
  - rewrite coerce_periodicity_text. simpl.
    destruct (default false p); simpl; [done|]. by destruct dl.
  - simpl. destruct (default false p); simpl; [done|]. by destruct dl.
Qed.

(** C9: the periodicity [load] returns for a stored text is the integer
    the text parses as, else the float it parses as, else the text itself.
    Every record [load] returns carries, for a stored ASCII text, the value
    of the first attempt that succeeds, [int] before [float] before the
    text; it is the integer for the text of an integer, the float for a
    decimal fraction, and the text itself for an ASCII text that denotes no
    number.  And [load] does return a record when the other keys of the
    canary can be read, its flags are texts of integers and it is paused or
    has a deadline. *)
Theorem load_coerces_periodicity
    (st : RedisCanary.store) (id : string) (db : redis)
    (h : gmap string string) (s : string) :
  db !! RedisCanary.key st id = Some (RHash h) ->
  h !! "periodicity" = Some s ->
  (forall res, RedisCanary.load st id db = Ok res ->
     exists v,
       res !! "periodicity" = Some v
       /\ (is_ascii s = true ->
           v = match py_int s with
               | Ok n => LInt n
               | Raise _ =>
                   match py_float s with
                   | Ok f => LFloat f
                   | Raise _ => LStr s
                   end
               end)
       /\ (forall n, integer_text s n -> v = LInt n)
       /\ (forall f, fraction_text s f -> v = LFloat f)
       /\ (is_ascii s = true -> plain_text s -> v = LStr s))
  /\ (is_ok (lrange db (RedisCanary.emails_k st id)) ->
      is_ok (zrange_withscores db (RedisCanary.history_k st id)) ->
      flag_readable (h !! "paused") ->
      flag_readable (h !! "late") ->
      (exists dl, zscore db (RedisCanary.deadlines st) id = Ok dl
                  /\ (stored_flag (h !! "paused") = Ok (Some true)
                      \/ is_Some dl)) ->
      is_ok (RedisCanary.load st id db)).
Proof.
  intros Hh Hs. split.
  - intros res Hres. exists (first_parse s).
    assert (Hfirst : is_ascii s = true ->
              first_parse s
              = match py_int s with
                | Ok n => LInt n
                | Raise _ =>
                    match py_float s with
                    | Ok f => LFloat f
                    | Raise _ => LStr s
                    end
                end).
    { intros Hascii. unfold first_parse. by rewrite Hascii. }
    split; [|split; [exact Hfirst|split; [|split]]].
    + destruct (RedisCanary._load st id db) as [r|e] eqn:Hload.
      * destruct (load_replies_inv _ _ _ _ _ Hh Hload)
          as (em & hs & dl & -> & _).
        rewrite (load_after_replies _ _ _ _ _ _ _ Hload) in Hres.
        rewrite Hs in Hres.
        destruct (stored_flag (h !! "paused")) as [p|]; simpl in Hres;
          [|done].
        destruct (stored_flag (h !! "late")) as [l|]; simpl in Hres;
          [|done].
        destruct (default false p); simpl in Hres.
        -- injection Hres as <-. by simplify_map_eq.
        -- destruct dl; [|done]. injection Hres as <-. by simplify_map_eq.
      * unfold RedisCanary.load in Hres. by rewrite Hload in Hres.
    + intros n Hn. pose proof (py_int_integer_text _ _ Hn) as Hint.
      unfold first_parse.
      destruct (is_ascii s) eqn:Hascii; cbn [negb]; [by rewrite Hint|].
      by rewrite py_int_ascii in Hint.
    + intros f Hf. rewrite Hfirst by by eapply fraction_text_ascii.
      by destruct (parse_fraction_text _ _ Hf) as [-> ->].
    + intros Hascii Hp. rewrite Hfirst by done.
      by destruct (parse_plain_text _ Hascii Hp) as [-> ->].
  - intros [em Hem] [hs Hhs] [p Hp] [l Hl] (dl & Hdl & Hdeadline).
    rewrite (load_after_replies _ _ _ _ em hs dl)
      by (by apply load_replies).
    rewrite Hp, Hl. simpl.
    destruct Hdeadline as [Hpaused | [ts ->]].
    + rewrite Hp in Hpaused. injection Hpaused as ->. simpl. by eexists.
    + destruct (default false p); simpl; by eexists.
Qed.

(** The texts of the runs below, by kind. *)
Lemma texts_of_the_runs :
  integer_text "3600" 3600
  /\ integer_text " -42 " (-42)
  /\ fraction_text "1.5" (FDec false 15 (-1))
  /\ plain_text "daily"
  /\ plain_text "30s".
Proof.
  assert (Hdigit : forall c,
    c ∈ ["0"; "1"; "2"; "3"; "4"; "5"; "6"; "7"; "8"; "9"]%char -> digit c)
    by done.
  assert (Hblank : blank " "%char).
  { unfold blank. rewrite !elem_of_cons. tauto. }
  split; [|split; [|split; [|split]]].
  - exists [], []. split; [apply Forall_nil_2|].
    split; [apply Forall_nil_2|reflexivity].
  - exists [" "%char], [" "%char].
    split; [apply Forall_cons_2; [exact Hblank|apply Forall_nil_2]|].
    split; [apply Forall_cons_2; [exact Hblank|apply Forall_nil_2]|reflexivity].
  - exists false, ["1"%char], ["5"%char].
    split; [apply Forall_cons_2; [|apply Forall_nil_2]|].
    { apply Hdigit. rewrite !elem_of_cons. tauto. }
    split; [apply Forall_cons_2; [|apply Forall_nil_2]|].
    { apply Hdigit. rewrite !elem_of_cons. tauto. }
    split; [discriminate|]. split; reflexivity.
  - right. exists "d"%char, "aily".
    split; [|split; [|split; [|reflexivity]]].
    + unfold digit. rewrite !elem_of_cons, elem_of_nil.
      intros H. decompose [or] H; done.
    + unfold blank. rewrite !elem_of_cons, elem_of_nil.
      intros H. decompose [or] H; done.
    + rewrite !elem_of_cons, elem_of_nil.
      intros H. decompose [or] H; done.
  - left. exists ["3"; "0"]%char, "s"%char, [].
    split; [discriminate|].
    split; [apply Forall_cons_2; [|apply Forall_cons_2; [|apply Forall_nil_2]]|].
    { apply Hdigit. rewrite !elem_of_cons. tauto. }
    { apply Hdigit. rewrite !elem_of_cons. tauto. }
    split; [|split; [|split; [|reflexivity]]].
    + unfold digit. rewrite !elem_of_cons, elem_of_nil.
      intros H. decompose [or] H; done.
    + unfold blank. rewrite !elem_of_cons, elem_of_nil.
      intros H. decompose [or] H; done.
    + rewrite !elem_of_cons, elem_of_nil.
      intros H. decompose [or] H; done.
Qed.

Lemma load_coerces_periodicity_witness :
  is_ok (RedisCanary.load cm "c1" db1)
  /\ (forall res, RedisCanary.load cm "c1" db1 = Ok res ->
        res !! "periodicity" = Some (LInt 3600))
  /\ (forall res, RedisCanary.load cm "c1" (db_periodicity " -42 ") = Ok res ->
        res !! "periodicity" = Some (LInt (-42)))
  /\ (forall res, RedisCanary.load cm "c1" (db_periodicity "1.5") = Ok res ->
        res !! "periodicity" = Some (LFloat (FDec false 15 (-1))))
  /\ (forall res, RedisCanary.load cm "c1" (db_periodicity "1E3") = Ok res ->
        res !! "periodicity" = Some (LFloat (FDec false 1 3)))
  /\ (forall res, RedisCanary.load cm "c1" (db_periodicity "NaN") = Ok res ->
        res !! "periodicity" = Some (LFloat FNan))
  /\ (forall res, RedisCanary.load cm "c1" (db_periodicity "daily") = Ok res ->
        res !! "periodicity" = Some (LStr "daily"))
  /\ (forall res, RedisCanary.load cm "c1" (db_periodicity "30s") = Ok res ->
        res !! "periodicity" = Some (LStr "30s")).
Proof.
  destruct texts_of_the_runs as (T1 & T2 & T3 & T4 & T5).
  assert (Hat : forall text,
    db_periodicity text !! RedisCanary.key cm "c1"
    = Some (RHash (h_periodicity text))).
  { intros text. unfold db_periodicity, RedisStore.update, RedisCanary.save,
      transaction.
    replace (RedisCanary._save cm "c1" [("periodicity", VStr text)] false db1)
      with (Ok [HMSET (RedisCanary.key cm "c1") [("periodicity", text)]]
            : result (list command)) by reflexivity.
    reflexivity. }
  destruct (load_coerces_periodicity cm "c1" db1 h1 "3600")
    as [Hint Hret]; [reflexivity|reflexivity|].
  split.
  { apply Hret.
    - eexists. reflexivity.
    - eexists. reflexivity.
    - eexists. reflexivity.
    - eexists. reflexivity.
    - exists (Some 1000%Z). split; [reflexivity|]. right. by eexists. }
  split.
  { intros res Hres. destruct (Hint res Hres) as (v & -> & _ & Hi & _).
    f_equal. exact (Hi _ T1). }
  split.
  { intros res Hres.
    destruct (load_coerces_periodicity cm "c1" (db_periodicity " -42 ")
                (h_periodicity " -42 ") " -42 ") as [Hval _];
      [apply Hat|reflexivity|].
    destruct (Hval res Hres) as (v & -> & _ & Hi & _).
    f_equal. exact (Hi _ T2). }
  split.
  { intros res Hres.
    destruct (load_coerces_periodicity cm "c1" (db_periodicity "1.5")
                (h_periodicity "1.5") "1.5") as [Hval _];
      [apply Hat|reflexivity|].
    destruct (Hval res Hres) as (v & -> & _ & _ & Hf & _).
    f_equal. exact (Hf _ T3). }
  split.
  { intros res Hres.
    destruct (load_coerces_periodicity cm "c1" (db_periodicity "1E3")
                (h_periodicity "1E3") "1E3") as [Hval _];
      [apply Hat|reflexivity|].
    destruct (Hval res Hres) as (v & -> & Hv & _).
    f_equal. exact (Hv eq_refl). }
  split.
  { intros res Hres.
    destruct (load_coerces_periodicity cm "c1" (db_periodicity "NaN")
                (h_periodicity "NaN") "NaN") as [Hval _];
      [apply Hat|reflexivity|].
    destruct (Hval res Hres) as (v & -> & Hv & _).
    f_equal. exact (Hv eq_refl). }
  split.
  { intros res Hres.
    destruct (load_coerces_periodicity cm "c1" (db_periodicity "daily")
                (h_periodicity "daily") "daily") as [Hval _];
      [apply Hat|reflexivity|].
    destruct (Hval res Hres) as (v & -> & _ & _ & _ & Hp).
    f_equal. exact (Hp eq_refl T4). }
  intros res Hres.
  destruct (load_coerces_periodicity cm "c1" (db_periodicity "30s")
              (h_periodicity "30s") "30s") as [Hval _];
    [apply Hat|reflexivity|].
  destruct (Hval res Hres) as (v & -> & _ & _ & _ & Hp).
  f_equal. exact (Hp eq_refl T5).
Defined.

(** C10: [get] of a record that exists and whose paused field is absent or
    false returns only when the deadline sorted set has a score for the
    canary.  When the score is missing [get] raises, and the exception is
    the TypeError of [float(None)] whenever everything read before it was
    readable. *)
Theorem get_needs_deadline_score
    (st : RedisCanary.store) (id : string) (db : redis)
    (h : gmap string string) :
  db !! RedisCanary.key st id = Some (RHash h) ->
  flag_unset (h !! "paused") ->
  (forall res, RedisStore.get st id db = Ok res ->
     exists ts, zscore db (RedisCanary.deadlines st) id = Ok (Some ts))
  /\ (zscore db (RedisCanary.deadlines st) id = Ok None ->
      (exists e, RedisStore.get st id db = Raise e)
      /\ (is_ok (lrange db (RedisCanary.emails_k st id)) ->
          is_ok (zrange_withscores db (RedisCanary.history_k st id)) ->
          flag_readable (h !! "late") ->
          RedisStore.get st id db = Raise TypeError)).
Proof.
  intros Hh Hpaused. unfold RedisStore.get. unfold flag_unset in Hpaused.
  assert (Hnot : forall p, stored_flag (h !! "paused") = Ok p ->
                           default false p = false).
  { intros p Hp. destruct Hpaused as [H|H]; rewrite H in Hp;
      by injection Hp as <-. }
  split.
  - intros res Hres.
    destruct (RedisCanary._load st id db) as [r|e] eqn:Hload.
    + destruct (load_replies_inv _ _ _ _ _ Hh Hload)
        as (em & hs & dl & -> & _ & _ & Hdl).
      rewrite (load_after_replies _ _ _ _ _ _ _ Hload) in Hres.
      destruct (stored_flag (h !! "paused")) as [p|] eqn:Hp;
        simpl in Hres; [|done].
      destruct (stored_flag (h !! "late")) as [l|]; simpl in Hres; [|done].
      rewrite (Hnot p eq_refl) in Hres. simpl in Hres.
      destruct dl as [ts|]; [|done]. by exists ts.
    + unfold RedisCanary.load in Hres. by rewrite Hload in Hres.
  - intros Hdl. split.
    + destruct (RedisCanary._load st id db) as [r|e] eqn:Hload.
      * destruct (load_replies_inv _ _ _ _ _ Hh Hload)
          as (em & hs & dl & -> & _ & _ & Hdl').
        rewrite Hdl in Hdl'. injection Hdl' as <-.
        rewrite (load_after_replies _ _ _ _ _ _ _ Hload).
        destruct (stored_flag (h !! "paused")) as [p|] eqn:Hp; simpl;
          [|by eexists].
        destruct (stored_flag (h !! "late")) as [l|]; simpl; [|by eexists].
        rewrite (Hnot p eq_refl). simpl. by eexists.
      * exists e. unfold RedisCanary.load. by rewrite Hload.
    + intros [em Hem] [hs Hhs] [l Hl].
      rewrite (load_after_replies _ _ _ _ em hs None)
        by (by apply load_replies).
      destruct (stored_flag (h !! "paused")) as [p|] eqn:Hp; simpl.
      * rewrite Hl. simpl. by rewrite (Hnot p eq_refl).
      * destruct Hpaused; done.
Qed.

Lemma get_needs_deadline_score_witness :
  (forall res, RedisStore.get cm "c1" db_no_deadline = Ok res ->
     exists ts, zscore db_no_deadline "cm:deadlines" "c1" = Ok (Some ts))
  /\ (exists e, RedisStore.get cm "c1" db_no_deadline = Raise e)
  /\ RedisStore.get cm "c1" db_no_deadline = Raise TypeError.
Proof.
  destruct (get_needs_deadline_score cm "c1" db_no_deadline h1)
    as [Honly Hraises].
  - vm_compute. reflexivity.
  - right. vm_compute. reflexivity.
  - destruct Hraises as [Hexn Htype]; [vm_compute; reflexivity|].
    split; [exact Honly|]. split; [exact Hexn|].
    apply Htype; eexists; vm_compute; reflexivity.
Defined.

Lemma load_brief_fields st id db res :
  RedisCanary.load_brief st id db = Ok res ->
  dom (base.delete "slug" res) = ({["name"; "id"]} : gset string).
Proof.
  unfold RedisCanary.load_brief, hmget.
  destruct (hgetall db _) as [h|]; simpl; [|done].
  intros [= <-].
  rewrite dom_delete_L, !dom_insert_L, dom_singleton_L.
  set_solver.
Qed.

Lemma list_loop_brief_fields st search db ids res :
  res ∈ (RedisStore.list_loop st false search db ids).1 ->
  dom res = ({["name"; "id"]} : gset string).
Proof.
  induction ids as [|id rest IH]; simpl.
  - by intros ?%elem_of_nil.
  - destruct (RedisCanary.load_brief st id db) as [r|] eqn:Hr; simpl;
      [|by intros ?%elem_of_nil].
    destruct (RedisStore.skipped search r) as [[]|]; simpl;
      [done| |by intros ?%elem_of_nil].
    destruct (RedisStore.list_loop st false search db rest) as [out e].
    simpl in *. intros [->|Hin]%elem_of_cons; [|by apply IH].
    by eapply load_brief_fields.
Qed.

Lemma mongo_list_origin sort_le verbose paused late search order_by self res :
  res ∈ MongoStore.list_ sort_le verbose paused late search order_by self ->
  exists doc,
    doc ∈ MongoStore.docs self
    /\ Is_true (MongoStore.spec paused late search doc)
    /\ res = MongoStore.fields verbose doc.
Proof.
  unfold MongoStore.list_.
  intros (doc & -> & Hdoc)%list_elem_of_fmap.
  exists doc. split; [|split]; [| |done].
  - unfold MongoStore.sort in Hdoc. destruct order_by.
    + rewrite merge_sort_Permutation in Hdoc.
      by apply list_elem_of_filter in Hdoc as [_ ?].
    + by apply list_elem_of_filter in Hdoc as [_ ?].
  - unfold MongoStore.sort in Hdoc. destruct order_by.
    + rewrite merge_sort_Permutation in Hdoc.
      by apply list_elem_of_filter in Hdoc as [? _].
    + by apply list_elem_of_filter in Hdoc as [? _].
Qed.

(** C7, as the code has it: a record that [list] yields when it is not
    verbose carries the name and the id, and no slug.  On the key-value
    store its fields are exactly [name] and [id]; on the document store it
    is a stored document cut down to its [name] and [id] fields. *)
Theorem list_brief_is_name_and_id
    (st : RedisCanary.store) (sort_le : option pyval -> option pyval -> bool)
    (paused late : option bool) (search : option (string -> bool))
    (order_by : option string) (db : redis) (self : MongoStore.collection) :
  (forall res,
     res ∈ (RedisStore.list_ st false paused late search db).1 ->
     dom res = ({["name"; "id"]} : gset string))
  /\ (forall res,
        res ∈ MongoStore.list_ sort_le false paused late search order_by self ->
        exists doc,
          doc ∈ MongoStore.docs self
          /\ forall k v,
               (k, v) ∈ res <-> (k, v) ∈ doc /\ (k = "name" \/ k = "id")).
Proof.
  split.
  - intros res. unfold RedisStore.list_.
    destruct (sunion db _) as [ids|]; simpl; [|by intros ?%elem_of_nil].
    apply list_loop_brief_fields.
  - intros res (doc & Hdoc & _ & ->)%mongo_list_origin.
    exists doc. split; [done|]. intros k v. simpl.
    rewrite list_elem_of_filter. simpl.
    rewrite !elem_of_cons. rewrite elem_of_nil. tauto.
Qed.

Lemma list_brief_is_name_and_id_witness :
  dom brief1 = ({["name"; "id"]} : gset string)
  /\ exists doc,
       doc ∈ MongoStore.docs coll1
       /\ forall k v,
            (k, v) ∈ [("id", VStr "c1"); ("name", VStr "DB Backup")]
            <-> (k, v) ∈ doc /\ (k = "name" \/ k = "id").
Proof.
  destruct (list_brief_is_name_and_id cm int_le None None None None db1 coll1)
    as [Hredis Hmongo].
  split.
  - apply Hredis.
    replace (RedisStore.list_ cm false None None None db1)
      with ([brief1], @None exn) by (vm_compute; reflexivity).
    simpl. constructor.
  - apply Hmongo.
    replace (MongoStore.list_ int_le false None None None None coll1)
      with [[("id", VStr "c1"); ("name", VStr "DB Backup")]]
      by (vm_compute; reflexivity).
    constructor.
Defined.

(** C7 as stated fails: for a canary stored with a slug, the record that
    [list] yields when it is not verbose has no [slug] field, on either
    store. *)
Lemma list_brief_has_no_slug :
  ~ (forall res,
       res ∈ (RedisStore.list_ cm false None None None db1).1 ->
       dom res = ({["id"; "name"; "slug"]} : gset string))
  /\ ~ (forall res,
          res ∈ MongoStore.list_ int_le false None None None None coll1 ->
          "slug" ∈ dict_keys res).
Proof.
  split.
  - intros H. specialize (H brief1).
    assert (Hdom : dom brief1 = ({["id"; "name"; "slug"]} : gset string)).
    { apply H.
      replace (RedisStore.list_ cm false None None None db1)
        with ([brief1], @None exn) by (vm_compute; reflexivity).
      simpl. constructor. }
    apply (f_equal (λ s : gset string, bool_decide ("slug" ∈ s))) in Hdom.
    vm_compute in Hdom. discriminate.
  - intros H.
    specialize (H [("id", VStr "c1"); ("name", VStr "DB Backup")]).
    assert (Hin : "slug" ∈ dict_keys [("id", VStr "c1"); ("name", VStr "DB Backup")]).
    { apply H.
      replace (MongoStore.list_ int_le false None None None None coll1)
        with [[("id", VStr "c1"); ("name", VStr "DB Backup")]]
        by (vm_compute; reflexivity).
      constructor. }
    unfold dict_keys in Hin. simpl in Hin.
    repeat (apply elem_of_cons in Hin as [Hin|Hin]; [discriminate|]).
    by apply elem_of_nil in Hin.
Qed.

(** The ids [list] loads on the key-value store are the union of the sets
    it selects, not their intersection. *)
Lemma list_sets_paused_only st :
  RedisStore.list_sets st (Some true) None
  = [RedisCanary.paused st; RedisCanary.late st; RedisCanary.ontime st].
Proof. reflexivity. Qed.

(** On the document store the filters do restrict: a document [list]
    yields satisfies every filter given. *)
Lemma mongo_list_restricts sort_le verbose paused late search order_by self res :
  res ∈ MongoStore.list_ sort_le verbose paused late search order_by self ->
  exists doc,
    doc ∈ MongoStore.docs self /\ res = MongoStore.fields verbose doc
    /\ (forall b, paused = Some b ->
          MongoStore.field_eq "paused" (VBool b) doc = true)
    /\ (forall b, late = Some b ->
          MongoStore.field_eq "late" (VBool b) doc = true).
Proof.
  intros (doc & Hdoc & Hspec & ->)%mongo_list_origin.
  exists doc. split; [done|]. split; [done|].
  unfold MongoStore.spec in Hspec.
  apply andb_prop_elim in Hspec as [Hspec _].
  apply andb_prop_elim in Hspec as [Hp Hl].
  split; intros b ->; by apply Is_true_true.
Qed.

(** C1 fails on the key-value store.  After [create(c1)], where [c1] is
    neither paused nor late, [list(verbose=True, paused=True)] and
    [list(verbose=True, late=True)] both yield [c1]: the ids are the union of
    the paused set with the late and on-time sets, so the filter on one
    classification is undone by the other. *)
Theorem list_paused_yields_active_canary :
  exists res,
    RedisStore.get cm "c1" db1 = Ok res
    /\ res !! "paused" = Some (LBool false)
    /\ res !! "late" = Some (LBool false)
    /\ RedisStore.list_ cm true (Some true) None None db1 = ([res], None)
    /\ RedisStore.list_ cm true None (Some true) None db1 = ([res], None).
Proof.
  eexists. split; [vm_compute; reflexivity|].
  repeat split; vm_compute; reflexivity.
Qed.

(** C2 fails on the key-value store.  After [create(c1)] with [late=False]
    and [update("c1", {"late": True})] the canary is a member of the late
    set and of the on-time set: [save] adds to one set and never removes
    from the other, and [list(late=True)] and [list(late=False)] both yield
    it. *)
Theorem late_and_ontime_overlap_after_update :
  smembers db_late "cm:late" = Ok {["c1"]}
  /\ smembers db_late "cm:ontime" = Ok {["c1"]}
  /\ RedisStore.list_ cm false None (Some true) None db_late
     = ([brief1], None)
  /\ RedisStore.list_ cm false None (Some false) None db_late
     = ([brief1], None).
Proof. repeat split; vm_compute; reflexivity. Qed.

(** C3 fails on the key-value store.  After [create(c3)], where [c3] is
    late and not paused, [upcoming_deadlines()] yields [c3]: it walks the
    whole deadline sorted set and never looks at the late flag. *)
Theorem upcoming_deadlines_yields_late_canary :
  exists res,
    RedisStore.upcoming_deadlines cm db3 = ([res], None)
    /\ res !! "id" = Some (LStr "c3")
    /\ res !! "late" = Some (LBool true).
Proof.
  eexists. split; [vm_compute; reflexivity|].
  split; vm_compute; reflexivity.
Qed.

(** On the document store [upcoming_deadlines] yields only documents that
    are neither paused nor late. *)
Lemma mongo_upcoming_deadlines_filters sort_le self res :
  res ∈ MongoStore.upcoming_deadlines sort_le self ->
  exists doc,
    doc ∈ MongoStore.docs self /\ res = MongoStore.without_oid doc
    /\ MongoStore.field_eq "paused" (VBool false) doc = true
    /\ MongoStore.field_eq "late" (VBool false) doc = true.
Proof.
  intros (doc & Hdoc & -> & Hp & Hl)%mongo_list_restricts.
  exists doc. repeat split; [done|by apply Hp|by apply Hl].
Qed.

Lemma execute_raises_response_only cmds : forall db e,
  (execute cmds db).2 = Raise e -> e = ResponseError.
Proof.
  induction cmds as [|c cs IH]; intros db e; simpl.
  - done.
  - destruct (apply_command c db) as [db'|]; simpl.
    + apply IH.
    + unfold wrongtype. congruence.
Qed.

Lemma hgetall_raises_response_only db key e :
  hgetall db key = Raise e -> e = ResponseError.
Proof.
  unfold hgetall, wrongtype. destruct (db !! key) as [[]|]; congruence.
Qed.

(** [delete] on the key-value store never raises KeyError: its transaction
    reads the slug and buffers nine commands, whatever it finds. *)
Lemma redis_delete_never_not_found st id db :
  (RedisStore.delete st id db).2 <> Raise KeyError.
Proof.
  unfold RedisStore.delete, RedisCanary.delete, transaction, RedisCanary._del.
  unfold hget.
  destruct (hgetall db _) as [h|e] eqn:Hget;
    unfold mbind, result_bind; cbv beta iota.
  - intros H%execute_raises_response_only. discriminate.
  - apply hgetall_raises_response_only in Hget as ->. discriminate.
Qed.

(** On the document store [delete] of an identifier that no document
    carries raises KeyError and removes nothing. *)
Lemma mongo_delete_unbound identifier (self : MongoStore.collection) :
  Forall (λ d, MongoStore.field_eq "id" (VStr identifier) d = false)
    (MongoStore.docs self) ->
  MongoStore.delete identifier self = (self, Raise KeyError).
Proof.
  intros Hno. unfold MongoStore.delete.
  assert (Hkeep :
    filter (λ d, ¬ Is_true (MongoStore.field_eq "id" (VStr identifier) d))
      (MongoStore.docs self) = MongoStore.docs self).
  { induction Hno as [|d ds Hd _ IH]; [done|].
    rewrite filter_cons_True by (rewrite Hd; tauto). by rewrite IH. }
  rewrite Hkeep, Nat.sub_diag. simpl. by destruct self.
Qed.

(** C4 fails on the key-value store.  [delete("ghost")] on a server that
    holds no canary returns normally: [RedisCanary.delete] has no existence
    check, so no KeyError (NotFound) is raised. *)
Theorem redis_delete_of_unbound_identifier_returns :
  exists_ ∅ (RedisCanary.key cm "ghost") = false
  /\ RedisStore.delete cm "ghost" ∅ = (∅, Ok ()).
Proof. split; vm_compute; reflexivity. Qed.

(** C5 fails on the key-value store.  After [create(c1)],
    [update("c1", {"slug": "renamed"})] and [delete("c1")] the slug hash
    still binds the first slug to the deleted id: [find_identifier] of that
    slug returns ["c1"], and [create] of a new canary with that slug raises.
    [save] binds the new slug without releasing the old one, and [delete]
    releases only the slug stored in the hash. *)
Theorem delete_leaves_former_slug_bound :
  RedisStore.get cm "c1" db_deleted = Raise KeyError
  /\ hget db_deleted "cm:slugs" "renamed" = Ok None
  /\ hget db_deleted "cm:slugs" "db-backup" = Ok (Some "c1")
  /\ RedisStore.find_identifier cm "db-backup" db_deleted = Ok "c1"
  /\ RedisStore.create cm c2 db_deleted = (db_deleted, Raise PlainException).
Proof. repeat split; vm_compute; reflexivity. Qed.

(** What [save] buffers for [emails] or [history] set to [None]: a DEL of
    the hash of the canary and of the key named [emails] or [history]. *)
Lemma unset_command_emails st id :
  RedisCanary.unset_command st id "emails"
  = DEL [RedisCanary.key st id; "emails"]
  /\ RedisCanary.unset_command st id "history"
     = DEL [RedisCanary.key st id; "history"].
Proof. split; reflexivity. Qed.

(** C8 fails.  After [create(c1)], [update("c1", {"emails": None})]
    deletes the hash of the canary, so that [get("c1")] raises KeyError, and
    leaves the emails list as it was: the command buffered is
    [DEL cm:c1 emails], not a DEL of [cm:c1:emails]. *)
Theorem unset_emails_deletes_the_hash :
  RedisCanary._save cm "c1" [("emails", VNone)] false db1
    = Ok [DEL ["cm:c1"; "emails"]]
  /\ exists_ db1 "cm:c1" = true
  /\ exists_ db_emails_unset "cm:c1" = false
  /\ lrange db_emails_unset "cm:c1:emails" = Ok ["ops@example.com"]
  /\ RedisStore.get cm "c1" db_emails_unset = Raise KeyError.
Proof. repeat split; vm_compute; reflexivity. Qed.

(** *** Keys evolve independently *)

Lemma lookup_store_hash key h (db : redis) k :
  store_hash key h db !! k = if decide (k = key) then hash_value h else db !! k.
Proof.
  unfold store_hash, hash_value.
  destruct (decide (k = key)) as [->|]; destruct (decide (h = ∅));
    by simplify_map_eq.
Qed.

Lemma lookup_store_zset key z (db : redis) k :
  store_zset key z db !! k = if decide (k = key) then zset_value z else db !! k.
Proof.
  unfold store_zset, zset_value.
  destruct (decide (k = key)) as [->|]; destruct (decide (z = ∅));
    by simplify_map_eq.
Qed.

Lemma lookup_store_set key s (db : redis) k :
  store_set key s db !! k = if decide (k = key) then set_value s else db !! k.
Proof.
  unfold store_set, set_value.
  destruct (decide (k = key)) as [->|]; destruct (decide (s = ∅));
    by simplify_map_eq.
Qed.

Lemma lookup_foldr_delete keys (db : redis) k :
  foldr delete db keys !! k = if decide (k ∈ keys) then None else db !! k.
Proof.
  induction keys as [|key keys IH].
  - destruct (decide (k ∈ [])) as [Hin|]; [by apply elem_of_nil in Hin|done].
  - cbn [foldr]. destruct (decide (k = key)) as [->|Hne].
    + rewrite lookup_delete_eq.
      destruct (decide (key ∈ key :: keys)) as [|Hn]; [done|].
      destruct Hn. constructor.
    + rewrite lookup_delete_ne by done. rewrite IH.
      destruct (decide (k ∈ keys)) as [Hin|Hin],
               (decide (k ∈ key :: keys)) as [Hin'|Hin']; try done.
      * destruct Hin'. by constructor.
      * apply elem_of_cons in Hin' as [?|?]; done.
Qed.

Lemma elem_of_one (k : string) : k ∈ [k].
Proof. constructor. Qed.

Lemma not_elem_of_one (k key : string) : k <> key -> k ∉ [key].
Proof. intros Hne [?|H]%elem_of_cons; [done|by apply elem_of_nil in H]. Qed.

(** Every key goes its own way: what a command leaves under a key depends
    on the command and on what the key held. *)
Lemma apply_command_key c (db : redis) k :
  default db (apply_command c db) !! k = step_key k c (db !! k).
Proof.
  unfold step_key.
  destruct c as [key f x|key f|key m|keys|key vs|key sc mb|key mb|key mb|key mb];
    simpl.
  4: { rewrite lookup_foldr_delete. by case_decide. }
  all: destruct (decide (k = key)) as [->|Hne];
    [ rewrite decide_True by apply elem_of_one
    | rewrite decide_False by (by apply not_elem_of_one) ].
  all: destruct (db !! key) as [[]|] eqn:Hk; simpl;
    rewrite ?lookup_store_hash, ?lookup_store_zset, ?lookup_store_set.
  all: try case_decide; try done.
  all: by simplify_map_eq.
Qed.

Lemma execute_state c cs db :
  (execute (c :: cs) db).1 = (execute cs (default db (apply_command c db))).1.
Proof. simpl. by destruct (apply_command c db). Qed.

Lemma execute_key cmds : forall (db : redis) k,
  (execute cmds db).1 !! k = foldl (λ v c, step_key k c v) (db !! k) cmds.
Proof.
  induction cmds as [|c cs IH]; intros db k.
  - done.
  - rewrite execute_state, IH, apply_command_key. done.
Qed.

Lemma step_key_other k c v : k ∉ command_keys c -> step_key k c v = v.
Proof. intros H. unfold step_key. by rewrite decide_False. Qed.

Lemma step_key_same k c v : k ∈ command_keys c -> step_key k c v = on_content c v.
Proof. intros H. unfold step_key. by rewrite decide_True. Qed.


Ltac distinct_keys H :=
  repeat (apply NoDup_cons in H as [? H]);
  repeat match goal with
         | Hn : _ ∉ _ :: _ |- _ => apply not_elem_of_cons in Hn as [? ?]
         end.

Ltac run_key :=
  rewrite execute_key; cbn [foldl];
  repeat (first
    [ rewrite step_key_same by apply elem_of_one
    | rewrite step_key_other by (apply not_elem_of_one; congruence) ]).

Lemma smembers_after_srem (db : redis) key id v s :
  db !! key = on_content (SREM key id) v ->
  smembers db key = Ok s -> id ∉ s.
Proof.
  unfold smembers. intros ->.
  destruct v as [[h|l|z|s0]|]; simpl; try done.
  - unfold set_value. case_decide.
    + intros [= <-]. apply not_elem_of_empty.
    + intros [= <-] [_ Hn]%elem_of_difference.
      apply Hn. by apply elem_of_singleton.
  - intros [= <-]. apply not_elem_of_empty.
Qed.

Lemma load_id st id db res :
  RedisCanary.load st id db = Ok res -> res !! "id" = Some (LStr id).
Proof.
  unfold RedisCanary.load.
  destruct (RedisCanary._load st id db) as [[[[h em] hs] dl]|]; simpl;
    [|done].
  destruct (RedisCanary.flag _ "paused") as [p|]; simpl; [|done].
  destruct (RedisCanary.flag _ "late") as [l|]; simpl; [|done].
  match goal with
  | |- context [match ?x with Some v => _ | None => Ok ?d end] =>
      destruct x as [v|]; simpl
  end.
  - destruct (RedisCanary.coerce_periodicity v); simpl; [|done].
    destruct (default false p); simpl.
    + intros [= <-]. apply lookup_insert_eq.
    + destruct dl; simpl; [|done]. intros [= <-]. apply lookup_insert_eq.
  - destruct (default false p); simpl.
    + intros [= <-]. apply lookup_insert_eq.
    + destruct dl; simpl; [|done]. intros [= <-]. apply lookup_insert_eq.
Qed.

Lemma load_brief_id st id db res :
  RedisCanary.load_brief st id db = Ok res ->
  base.delete "slug" res !! "id" = Some (LStr id).
Proof.
  unfold RedisCanary.load_brief, hmget.
  destruct (hgetall db _) as [h|]; simpl; [|done].
  intros [= <-]. by simplify_map_eq.
Qed.

(** A record [list] yields carries the id of a member of the union. *)
Lemma list_loop_ids st verbose search db ids res :
  res ∈ (RedisStore.list_loop st verbose search db ids).1 ->
  exists i, i ∈ ids /\ res !! "id" = Some (LStr i).
Proof.
  induction ids as [|id rest IH]; simpl.
  - by intros ?%elem_of_nil.
  - destruct (if verbose then RedisCanary.load st id db
              else RedisCanary.load_brief st id db) as [r|] eqn:Hr; simpl;
      [|by intros ?%elem_of_nil].
    destruct (RedisStore.skipped search r) as [[]|]; simpl.
    + intros (i & Hi & Hres)%IH. exists i. split; [by right|done].
    + destruct (RedisStore.list_loop st verbose search db rest) as [out e].
      simpl in *. intros [->|Hin]%elem_of_cons.
      * exists id. split; [by left|].
        destruct verbose; [by apply load_id in Hr|by apply load_brief_id in Hr].
      * destruct (IH Hin) as (i & Hi & Hres). exists i.
        split; [by right|done].
    + by intros ?%elem_of_nil.
Qed.

Lemma sunion_member db keys : forall ids i,
  sunion db keys = Ok ids -> i ∈ ids ->
  exists k s, k ∈ keys /\ smembers db k = Ok s /\ i ∈ s.
Proof.
  induction keys as [|k ks IH]; simpl; intros ids i.
  - intros [= <-] Hin. by apply not_elem_of_empty in Hin.
  - destruct (smembers db k) as [s|] eqn:Hs; simpl; [|done].
    destruct (sunion db ks) as [r|] eqn:Hr; simpl; [|done].
    intros [= <-] [Hin|Hin]%elem_of_union.
    + exists k, s. split; [by left|done].
    + destruct (IH r i eq_refl Hin) as (k' & s' & Hk' & Hs' & Hi).
      exists k', s'. split; [by right|done].
Qed.

Lemma list_sets_membership st paused late k :
  k ∈ RedisStore.list_sets st paused late ->
  k ∈ [RedisCanary.active st; RedisCanary.paused st; RedisCanary.late st;
       RedisCanary.ontime st].
Proof.
  unfold RedisStore.list_sets.
  destruct paused as [[]|], late as [[]|]; simpl;
    rewrite !elem_of_cons, !elem_of_nil; tauto.
Qed.

(** What [delete] does achieve on the key-value store, whatever the server
    holds: for a canary whose hash stores its slug, the three keys of the
    canary are gone, no membership set and no deadline score is left, the
    stored slug is released, [get] raises KeyError, [find_identifier] of the
    stored slug does not return, and no [list] yields a record with the id.
    The nine keys involved are assumed to be different keys. *)
Lemma redis_delete_cleans_up st id db h slug :
  NoDup [RedisCanary.active st; RedisCanary.paused st; RedisCanary.late st;
         RedisCanary.ontime st; RedisCanary.deadlines st; RedisCanary.slugs st;
         RedisCanary.key st id; RedisCanary.emails_k st id;
         RedisCanary.history_k st id] ->
  db !! RedisCanary.key st id = Some (RHash h) ->
  h !! "slug" = Some slug ->
  let db' := (RedisStore.delete st id db).1 in
  exists_ db' (RedisCanary.key st id) = false
  /\ exists_ db' (RedisCanary.emails_k st id) = false
  /\ exists_ db' (RedisCanary.history_k st id) = false
  /\ (forall k s,
        k ∈ [RedisCanary.active st; RedisCanary.paused st;
             RedisCanary.late st; RedisCanary.ontime st] ->
        smembers db' k = Ok s -> id ∉ s)
  /\ (forall score,
        zscore db' (RedisCanary.deadlines st) id <> Ok (Some score))
  /\ (forall i, hget db' (RedisCanary.slugs st) slug <> Ok (Some i))
  /\ RedisStore.get st id db' = Raise KeyError
  /\ (forall i, RedisStore.find_identifier st slug db' <> Ok i)
  /\ (forall verbose paused late search res,
        res ∈ (RedisStore.list_ st verbose paused late search db').1 ->
        res !! "id" <> Some (LStr id)).
Proof.
  intros Hkeys Hh Hslug db'.
  assert (Hkeys' := Hkeys). distinct_keys Hkeys'.
  assert (Hdb' : db' =
    (execute
       [SREM (RedisCanary.active st) id; SREM (RedisCanary.paused st) id;
        SREM (RedisCanary.late st) id; SREM (RedisCanary.ontime st) id;
        ZREM (RedisCanary.deadlines st) id;
        HDEL (RedisCanary.slugs st) slug;
        DEL [RedisCanary.history_k st id]; DEL [RedisCanary.emails_k st id];
        DEL [RedisCanary.key st id]] db).1).
  { unfold db', RedisStore.delete, RedisCanary.delete, transaction,
      RedisCanary._del, hget, hgetall.
    rewrite Hh. cbn [mbind result_bind]. by rewrite Hslug. }
  assert (Hkey : exists_ db' (RedisCanary.key st id) = false).
  { unfold exists_. rewrite Hdb'. run_key. done. }
  assert (Hsets : forall k s,
    k ∈ [RedisCanary.active st; RedisCanary.paused st;
         RedisCanary.late st; RedisCanary.ontime st] ->
    smembers db' k = Ok s -> id ∉ s).
  { intros k s Hk. rewrite !elem_of_cons, elem_of_nil in Hk.
    destruct Hk as [->|[->|[->|[->|[]]]]];
      eapply (smembers_after_srem db' _ id);
      rewrite Hdb'; run_key; reflexivity. }
  assert (Hslugs : forall i,
    hget db' (RedisCanary.slugs st) slug <> Ok (Some i)).
  { intros i. unfold hget, hgetall. rewrite Hdb'. run_key.
    destruct (db !! RedisCanary.slugs st) as [[hs| | |]|]; simpl; try done.
    - unfold hash_value. case_decide as Hempty; simpl.
      + done.
      + by rewrite lookup_delete_eq.
  }
  split; [done|]. split. { unfold exists_. rewrite Hdb'. run_key. done. }
  split. { unfold exists_. rewrite Hdb'. run_key. done. }
  split; [done|].
  split.
  { intros score. unfold zscore. rewrite Hdb'. run_key.
    destruct (db !! RedisCanary.deadlines st) as [[| |z|]|]; simpl; try done.
    unfold zset_value. case_decide; simpl; [done|].
    by rewrite lookup_delete_eq. }
  split; [done|].
  split.
  { unfold RedisStore.get, RedisCanary.load, RedisCanary._load.
    by rewrite Hkey. }
  split.
  { intros i. unfold RedisStore.find_identifier.
    specialize (Hslugs i).
    destruct (hget db' (RedisCanary.slugs st) slug) as [[j|]|]; simpl;
      congruence. }
  intros verbose paused late search res. unfold RedisStore.list_.
  destruct (sunion db' _) as [ids|] eqn:Hids; simpl;
    [|by intros ?%elem_of_nil].
  intros (i & Hi%elem_of_elements & ->)%list_loop_ids [= ->].
  destruct (sunion_member _ _ _ _ Hids Hi) as (k & s & Hk & Hs & Hin).
  apply list_sets_membership in Hk.
  by apply (Hsets k s Hk Hs).
Qed.

(** The run that never renames: after [create(c1)] and [delete("c1")]
    nothing of [c1] is left and its slug is free again. *)
Example delete_after_create_cleans_up :
  let db' := (RedisStore.delete cm "c1" db1).1 in
  RedisStore.get cm "c1" db' = Raise KeyError
  /\ (forall i, RedisStore.find_identifier cm "db-backup" db' <> Ok i)
  /\ (RedisStore.create cm c2 db').2 = Ok ().
Proof.
  destruct (redis_delete_cleans_up cm "c1" db1 h1 "db-backup")
    as (_ & _ & _ & _ & _ & _ & Hget & Hfind & _).
  - apply (bool_decide_unpack _). vm_compute. exact I.
  - vm_compute. reflexivity.
  - vm_compute. reflexivity.
  - split; [exact Hget|]. split; [exact Hfind|]. vm_compute. reflexivity.
Qed.

(** What [bool(int(text))] makes of flag texts: the text of zero, also
    between blanks, reads as false; a text that [int] refuses, such as one
    that ends with the unit separator, raises ValueError. *)
Lemma flag_unset_zero_text (s : string) :
  integer_text s 0 -> flag_unset (Some s).
Proof.
  intros Hs. right. unfold stored_flag.
  by rewrite (py_int_integer_text _ _ Hs).
Qed.

Example stored_flag_runs :
  stored_flag None = Ok None
  /\ stored_flag (Some "0") = Ok (Some false)
  /\ stored_flag (Some " 1 ") = Ok (Some true)
  /\ stored_flag (Some (String "0" (String "031" ""))) = Raise ValueError
  /\ stored_flag (Some "False") = Raise ValueError
  /\ stored_flag (Some "") = Raise ValueError.
Proof. repeat split; reflexivity. Qed.

(** The three outcomes of the coercion, on texts the store can hold. *)
Example first_parse_runs :
  first_parse "3600" = LInt 3600
  /\ first_parse "007" = LInt 7
  /\ first_parse "1_000" = LInt 1000
  /\ first_parse "1.5" = LFloat (FDec false 15 (-1))
  /\ first_parse "1e3" = LFloat (FDec false 1 3)
  /\ first_parse "-Infinity" = LFloat (FInf true)
  /\ first_parse "daily" = LStr "daily"
  /\ first_parse "1 2" = LStr "1 2"
  /\ first_parse (String "1" (String "031" "")) = LStr (String "1" (String "031" "")).
Proof. repeat split; vm_compute; reflexivity. Qed.

(** ** More of the two stores *)

(** *** Keys of a store made by [new] *)

Lemma append_cancel (p a b : string) : p +:+ a = p +:+ b -> a = b.
Proof.
  induction p as [|c p IH]; [done|].
  rewrite !append_cons. intros [= H]. by apply IH.
Qed.

Lemma append_assoc (a b c : string) : (a +:+ b) +:+ c = a +:+ (b +:+ c).
Proof.
  induction a as [|x a IH]; [done|]. rewrite !append_cons. by rewrite IH.
Qed.

Lemma colon_after_prefix (p x : string) :
  ":"%char ∈ list_ascii_of_string (p +:+ ":" +:+ x).
Proof.
  rewrite chars_append. apply elem_of_app. right.
  change (":" +:+ x) with (String ":" x). simpl. constructor.
Qed.

Lemma length_append (a b : string) :
  String.length (a +:+ b) = (String.length a + String.length b)%nat.
Proof.
  induction a as [|x a IH]; [done|]. rewrite append_cons. simpl.
  by rewrite IH.
Qed.

Lemma append_suffix_ne (a b : string) : b <> "" -> a <> a +:+ b.
Proof.
  intros Hb H. apply (f_equal String.length) in H.
  rewrite length_append in H. destruct b; [done|]. simpl in H. lia.
Qed.

(** The keys of a store made by [new] all start with the namespace and a
    colon. *)
Lemma new_key_form ns id :
  let st := RedisStore.new ns in
  RedisCanary.key st id = ns +:+ ":" +:+ id
  /\ RedisCanary.emails_k st id = ns +:+ ":" +:+ (id +:+ ":emails")
  /\ RedisCanary.history_k st id = ns +:+ ":" +:+ (id +:+ ":history").
Proof.
  unfold RedisCanary.emails_k, RedisCanary.history_k, RedisCanary.key. simpl.
  by rewrite !append_assoc.
Qed.

Lemma under_namespace_ne ns a b : a <> b -> ns +:+ ":" +:+ a <> ns +:+ ":" +:+ b.
Proof. intros Hne H. apply Hne. by do 2 apply append_cancel in H. Qed.

Lemma bare_ne_under_namespace ns a b : plain a -> a <> ns +:+ ":" +:+ b.
Proof. intros Ha ->. apply Ha, colon_after_prefix. Qed.

Lemma with_suffix_ne_plain (a suffix b : string) :
  plain b -> a +:+ ":" +:+ suffix <> b.
Proof. intros Hb <-. apply Hb, colon_after_prefix. Qed.

Lemma plain_reserved r : r ∈ reserved -> plain r.
Proof.
  unfold reserved. rewrite !elem_of_cons, elem_of_nil.
  intros [->|[->|[->|[->|[->|[->|[]]]]]]]; unfold plain; simpl;
    rewrite !not_elem_of_cons; repeat split; try done; apply not_elem_of_nil.
Qed.

(** The keys of one canary and of the store are eleven different keys,
    unless the id is one of the names the store reserves. *)
Lemma canary_keys_distinct ns id :
  id ∉ reserved -> NoDup (canary_keys (RedisStore.new ns) id).
Proof.
  intros Hid. unfold canary_keys.
  destruct (new_key_form ns id) as (-> & -> & ->).
  simpl. unfold RedisStore._key.
  assert (Hres : forall r, r ∈ reserved -> id <> r) by (intros r Hr ->; done).
  assert (Hsuf : forall suffix r, r ∈ reserved ->
            id +:+ ":" +:+ suffix <> r).
  { intros suffix r Hr. by apply with_suffix_ne_plain, plain_reserved. }
  assert (Hs := Hres "slugs"). assert (Ha := Hres "active").
  assert (Hp := Hres "paused"). assert (Hl := Hres "late").
  assert (Ho := Hres "ontime"). assert (Hd := Hres "deadlines").
  assert (Hin : forall r, r ∈ reserved <->
            r = "slugs" \/ r = "active" \/ r = "paused" \/ r = "late"
            \/ r = "ontime" \/ r = "deadlines").
  { intros r. unfold reserved. rewrite !elem_of_cons, elem_of_nil. tauto. }
  repeat (apply NoDup_cons; split);
    rewrite ?not_elem_of_cons; repeat split;
    try apply not_elem_of_nil; try apply NoDup_nil_2;
    try (apply under_namespace_ne; first
           [ done
           | apply Hres; apply Hin; tauto
           | (intros E; symmetry in E; revert E; apply Hres; apply Hin; tauto)
           | apply (Hsuf "emails"); apply Hin; tauto
           | apply (Hsuf "history"); apply Hin; tauto
           | (intros E; symmetry in E; revert E;
              first [ apply (Hsuf "emails") | apply (Hsuf "history") ];
              apply Hin; tauto)
           | apply (append_suffix_ne id ":emails"); done
           | apply (append_suffix_ne id ":history"); done
           | (intros E; symmetry in E; revert E;
              first [ apply (append_suffix_ne id ":emails")
                    | apply (append_suffix_ne id ":history") ]; done)
           | (intros E; apply append_cancel in E; discriminate) ]);
    try (apply bare_ne_under_namespace; unfold plain; simpl;
         rewrite !not_elem_of_cons; repeat split; try done;
         apply not_elem_of_nil);
    try (intros E; symmetry in E; revert E;
         apply bare_ne_under_namespace; unfold plain; simpl;
         rewrite !not_elem_of_cons; repeat split; try done;
         apply not_elem_of_nil);
    try discriminate.
Qed.

(** * Further properties of the two stores *)

(** ** Pipelines that the server accepts *)

Lemma apply_command_accepted c (db : redis) :
  apply_command c db = None <-> accepted c (db !! command_key c) = false.
Proof.
  destruct c; simpl; try done;
    destruct (db !! key) as [[]|]; simpl; split; congruence.
Qed.

Lemma execute_cons_state c cs (db : redis) :
  (execute (c :: cs) db).1 = (execute cs (default db (apply_command c db))).1.
Proof. simpl. by destruct (apply_command c db). Qed.

Lemma execute_ok_cons c cs (db : redis) :
  (execute (c :: cs) db).2 = Ok () ->
  accepted c (db !! command_key c) = true
  /\ (execute cs (default db (apply_command c db))).2 = Ok ().
Proof.
  simpl. destruct (apply_command c db) as [db1|] eqn:Hc; simpl; [|done].
  intros H. split; [|done].
  destruct (accepted c (db !! command_key c)) eqn:Ha; [done|].
  apply apply_command_accepted in Ha. congruence.
Qed.

Lemma execute_ok_app a b (db : redis) :
  (execute (a ++ b) db).2 = Ok () ->
  (execute a db).2 = Ok () /\ (execute b (execute a db).1).2 = Ok ().
Proof.
  revert db. induction a as [|c a IH]; intros db; [done|].
  rewrite <- app_comm_cons. intros [Hc Hrest]%execute_ok_cons.
  apply IH in Hrest as [Ha Hb]. rewrite execute_cons_state.
  split; [|done].
  simpl. destruct (apply_command c db) as [db1|] eqn:Hdb1; simpl in *.
  - done.
  - apply apply_command_accepted in Hdb1. congruence.
Qed.

(** A command the pipeline ran without an error found its key free or of
    its own kind. *)
Lemma execute_ok_accepted pre c post (db : redis) :
  (execute (pre ++ c :: post) db).2 = Ok () ->
  accepted c (foldl (λ v c', step_key (command_key c) c' v)
                (db !! command_key c) pre) = true.
Proof.
  intros [_ Hc]%execute_ok_app. apply execute_ok_cons in Hc as [Hc _].
  by rewrite execute_key in Hc.
Qed.

Lemma foldl_step_key_other k cmds v :
  Forall (λ c, k ∉ command_keys c) cmds ->
  foldl (λ v c, step_key k c v) v cmds = v.
Proof.
  revert v. induction cmds as [|c cs IH]; intros v Hall; [done|].
  inversion Hall as [|? ? Hc Hcs]; subst. simpl.
  rewrite step_key_other by done. by apply IH.
Qed.

(** ** Checks before the pipeline; the shape of a record *)

Lemma create_refused st canary (db : redis) id slug :
  dict_get "id" canary = Some (VStr id) ->
  dict_get "slug" canary = Some (VStr slug) ->
  exists_ db (RedisCanary.key st id) = true
  \/ (exists bound, hget db (RedisCanary.slugs st) slug = Ok (Some bound)) ->
  RedisStore.create st canary db = (db, Raise PlainException).
Proof.
  intros Hid Hslug Hconflict.
  unfold RedisStore.create, getitem. rewrite Hid. simpl.
  unfold RedisCanary.create, RedisCanary.save, transaction, RedisCanary._save.
  destruct (exists_ db (RedisCanary.key st id)) eqn:Hex.
  { unfold getitem. by rewrite Hslug. }
  destruct Hconflict as [|[bound Hbound]]; [done|].
  unfold getitem. rewrite Hslug. simpl.
  unfold hexists. unfold hget in Hbound.
  destruct (hgetall db (RedisCanary.slugs st)) as [h|]; simpl in *; [|done].
  injection Hbound as ->. done.
Qed.

(** X2: [create] of a canary whose key exists raises and sends nothing:
    the plain [Exception] of line 98 when the canary has a slug, and the
    KeyError of [canary['slug']] when it has none, since the message of
    line 99 is formatted first.  With a text slug that is bound in the slug
    hash it raises the plain [Exception] of lines 98 or 105.  The key space
    is as it was in every case. *)
Theorem redis_create_conflict
    (st : RedisCanary.store) (canary : dict) (db : redis) (id : string) :
  dict_get "id" canary = Some (VStr id) ->
  (exists_ db (RedisCanary.key st id) = true ->
   RedisStore.create st canary db
   = (db, Raise (if dict_in "slug" canary then PlainException
                 else KeyError)))
  /\ (forall slug bound,
        dict_get "slug" canary = Some (VStr slug) ->
        hget db (RedisCanary.slugs st) slug = Ok (Some bound) ->
        RedisStore.create st canary db = (db, Raise PlainException)).
Proof.
  intros Hid. split.
  - intros Hex. unfold RedisStore.create, getitem. rewrite Hid. simpl.
    unfold RedisCanary.create, RedisCanary.save, transaction,
      RedisCanary._save.
    rewrite Hex. unfold dict_in, getitem.
    by destruct (dict_get "slug" canary).
  - intros slug bound Hslug Hbound.
    apply (create_refused st canary db id slug); [done|done|].
    right. by exists bound.
Qed.

Lemma redis_create_conflict_witness :
  RedisStore.create cm c1 db1 = (db1, Raise PlainException)
  /\ RedisStore.create cm [("id", VStr "c1"); ("name", VStr "DB Backup")] db1
     = (db1, Raise KeyError)
  /\ RedisStore.create cm c2 db1 = (db1, Raise PlainException).
Proof.
  split; [|split].
  - apply (proj1 (redis_create_conflict cm c1 db1 "c1" eq_refl)).
    reflexivity.
  - apply (proj1 (redis_create_conflict cm
                    [("id", VStr "c1"); ("name", VStr "DB Backup")] db1 "c1"
                    eq_refl)).
    reflexivity.
  - apply (proj2 (redis_create_conflict cm c2 db1 "c2" eq_refl)
             "db-backup" "c1"); reflexivity.
Defined.

Lemma load_ok_inv st id db res :
  RedisCanary.load st id db = Ok res ->
  exists h em hs dl,
    db !! RedisCanary.key st id = Some (RHash h)
    /\ RedisCanary._load st id db = Ok (h, em, hs, dl).
Proof.
  intros Hres. unfold RedisCanary.load in Hres.
  destruct (RedisCanary._load st id db) as [[[[h em] hs] dl]|] eqn:Hload;
    [|done].
  exists h, em, hs, dl. split; [|done].
  unfold RedisCanary._load in Hload.
  unfold exists_, hgetall in Hload.
  destruct (db !! RedisCanary.key st id) as [[h'| | |]|]; simpl in Hload;
    try done.
  destruct (lrange _ _); simpl in Hload; [|done].
  destruct (zrange_withscores _ _); simpl in Hload; [|done].
  destruct (zscore _ _ _); simpl in Hload; [|done].
  by injection Hload as -> _ _ _.
Qed.

(** X3: a record [get] returns always carries the id asked for, the
    emails list as stored, the history as (timestamp, comment) pairs in
    sorted-set order, and [paused] and [late] as booleans; when [paused] is
    false it carries as [deadline] the score of the canary in the deadline
    sorted set. *)
Theorem redis_get_record_shape
    (st : RedisCanary.store) (id : string) (db : redis) (res : record) :
  RedisStore.get st id db = Ok res ->
  exists_ db (RedisCanary.key st id) = true
  /\ res !! "id" = Some (LStr id)
  /\ (exists em,
        lrange db (RedisCanary.emails_k st id) = Ok em
        /\ res !! "emails" = Some (LEmails em))
  /\ (exists hs,
        zrange_withscores db (RedisCanary.history_k st id) = Ok hs
        /\ res !! "history"
           = Some (LHistory ((λ '(member, score), (score, member)) <$> hs)))
  /\ (exists paused late,
        res !! "paused" = Some (LBool paused)
        /\ res !! "late" = Some (LBool late)
        /\ (paused = false ->
            exists ts,
              zscore db (RedisCanary.deadlines st) id = Ok (Some ts)
              /\ res !! "deadline" = Some (LTime ts))).
Proof.
  unfold RedisStore.get. intros Hres.
  destruct (load_ok_inv _ _ _ _ Hres) as (h & em & hs & dl & Hh & Hload).
  destruct (load_replies_inv _ _ _ _ _ Hh Hload)
    as (em' & hs' & dl' & [= <- <- <-] & Hem & Hhs & Hdl).
  rewrite (load_after_replies _ _ _ _ _ _ _ Hload) in Hres.
  destruct (stored_flag (h !! "paused")) as [p|]; simpl in Hres; [|done].
  destruct (stored_flag (h !! "late")) as [l|]; simpl in Hres; [|done].
  split; [by eapply exists_lookup|].
  destruct (default false p) eqn:Hp; simpl in Hres.
  - injection Hres as <-.
    split; [by simplify_map_eq|].
    split; [exists em; split; [done|]; destruct (h !! "periodicity");
            by simplify_map_eq|].
    split; [exists hs; split; [done|]; destruct (h !! "periodicity");
            by simplify_map_eq|].
    exists true, (default false l).
    split; [destruct (h !! "periodicity"); by simplify_map_eq|].
    split; [destruct (h !! "periodicity"); by simplify_map_eq|done].
  - destruct dl as [ts|]; [|done]. injection Hres as <-.
    split; [by simplify_map_eq|].
    split; [exists em; split; [done|]; destruct (h !! "periodicity");
            by simplify_map_eq|].
    split; [exists hs; split; [done|]; destruct (h !! "periodicity");
            by simplify_map_eq|].
    exists false, (default false l).
    split; [destruct (h !! "periodicity"); by simplify_map_eq|].
    split; [destruct (h !! "periodicity"); by simplify_map_eq|].
    intros _. exists ts. split; [done|]. by simplify_map_eq.
Qed.

Lemma redis_get_record_shape_witness :
  res1 !! "id" = Some (LStr "c1")
  /\ exists ts,
       zscore db1 (RedisCanary.deadlines cm) "c1" = Ok (Some ts)
       /\ res1 !! "deadline" = Some (LTime ts).
Proof.
  destruct (redis_get_record_shape cm "c1" db1 res1)
    as (_ & Hid & _ & _ & (p & l & Hp & _ & Hdl)).
  - reflexivity.
  - split; [exact Hid|]. apply Hdl.
    assert (Hres : res1 !! "paused" = Some (LBool false)) by reflexivity.
    congruence.
Defined.

(** ** An update, then a get *)

Lemma lrange_same (db db' : redis) k :
  db' !! k = db !! k -> lrange db' k = lrange db k.
Proof. unfold lrange. by intros ->. Qed.

Lemma zrange_same (db db' : redis) k :
  db' !! k = db !! k -> zrange_withscores db' k = zrange_withscores db k.
Proof. unfold zrange_withscores. by intros ->. Qed.

Lemma zscore_same (db db' : redis) k m :
  db' !! k = db !! k -> zscore db' k m = zscore db k m.
Proof. unfold zscore. by intros ->. Qed.

Lemma save_late_commands st id (b : bool) db :
  exists_ db (RedisCanary.key st id) = true ->
  RedisCanary._save st id [("late", VBool b)] false db
  = Ok [SADD (if b then RedisCanary.late st else RedisCanary.ontime st) id;
        HMSET (RedisCanary.key st id) [("late", if b then "1" else "0")]].
Proof.
  intros Hex. unfold RedisCanary._save. rewrite Hex. by destruct b.
Qed.

Lemma save_paused_commands st id db :
  exists_ db (RedisCanary.key st id) = true ->
  RedisCanary._save st id [("paused", VBool true)] false db
  = Ok [SADD (RedisCanary.paused st) id; ZREM (RedisCanary.deadlines st) id;
        HMSET (RedisCanary.key st id) [("paused", "1")]].
Proof. intros Hex. unfold RedisCanary._save. by rewrite Hex. Qed.

Lemma hash_value_insert k x (h : gmap string string) :
  hash_value (<[k := x]> h) = Some (RHash (<[k := x]> h)).
Proof.
  unfold hash_value. case_decide as He; [|done].
  apply (f_equal (λ m : gmap string string, m !! k)) in He.
  by rewrite lookup_insert_eq, lookup_empty in He.
Qed.

Lemma hmset_one k x (h : gmap string string) :
  list_to_map (rev [(k, x)]) ∪ h = <[k := x]> h.
Proof.
  simpl. rewrite insert_empty. by rewrite <- insert_union_singleton_l.
Qed.

(** X4: after [update(id, {"late": b})] has returned, [get(id)] returns
    the record it returned before with [late] set to [b]. *)
Theorem redis_update_late_then_get
    (ns id : string) (db db' : redis) (b : bool) (res : record) :
  id ∉ reserved ->
  RedisStore.get (RedisStore.new ns) id db = Ok res ->
  RedisStore.update (RedisStore.new ns) id [("late", VBool b)] db
    = (db', Ok ()) ->
  RedisStore.get (RedisStore.new ns) id db' = Ok (<["late" := LBool b]> res).
Proof.
  intros Hid Hget Hupd. set (st := RedisStore.new ns) in *.
  assert (Hkeys := canary_keys_distinct ns id Hid).
  fold st in Hkeys. unfold canary_keys in Hkeys. distinct_keys Hkeys.
  unfold RedisStore.get in *.
  destruct (load_ok_inv _ _ _ _ Hget) as (h & em & hs & dl & Hh & Hload).
  destruct (load_replies_inv _ _ _ _ _ Hh Hload)
    as (em' & hs' & dl' & [= <- <- <-] & Hem & Hhs & Hdl).
  unfold RedisStore.update, RedisCanary.save, transaction in Hupd.
  rewrite save_late_commands in Hupd by (by eapply exists_lookup).
  assert (Hdb' : db' = (execute
     [SADD (if b then RedisCanary.late st else RedisCanary.ontime st) id;
      HMSET (RedisCanary.key st id) [("late", if b then "1" else "0")]]
     db).1) by (by rewrite Hupd).
  clear Hupd.
  assert (Hh' : db' !! RedisCanary.key st id
                = Some (RHash (<["late" := if b then "1" else "0"]> h))).
  { rewrite Hdb'. destruct b; run_key; rewrite Hh; unfold on_content;
      by rewrite hmset_one, hash_value_insert. }
  assert (Hload' : RedisCanary._load st id db'
            = Ok (<["late" := if b then "1" else "0"]> h, em, hs, dl)).
  { apply load_replies; [done| | |].
    - rewrite <- Hem. apply lrange_same. rewrite Hdb'. by destruct b; run_key.
    - rewrite <- Hhs. apply zrange_same. rewrite Hdb'. by destruct b; run_key.
    - rewrite <- Hdl. apply zscore_same. rewrite Hdb'. by destruct b; run_key. }
  rewrite (load_after_replies _ _ _ _ _ _ _ Hload) in Hget.
  rewrite (load_after_replies _ _ _ _ _ _ _ Hload').
  rewrite (lookup_insert_ne h "late" "paused") by done.
  rewrite (lookup_insert_ne h "late" "periodicity") by done.
  rewrite lookup_insert_eq.
  assert (Hflag : stored_flag (Some (if b then "1" else "0")) = Ok (Some b))
    by (by destruct b).
  rewrite Hflag. clear Hflag.
  destruct (stored_flag (h !! "paused")) as [p|]; simpl in *; [|done].
  destruct (stored_flag (h !! "late")) as [l|]; simpl in Hget; [|done].
  destruct (default false p); simpl in *.
  - injection Hget as <-. f_equal. apply map_eq. intros k.
    destruct (h !! "periodicity");
      rewrite !lookup_insert, !lookup_fmap, ?lookup_insert;
      repeat case_decide; subst; done.
  - destruct dl as [ts|]; [|done].
    injection Hget as <-. f_equal. apply map_eq. intros k.
    destruct (h !! "periodicity");
      rewrite !lookup_insert, !lookup_fmap, ?lookup_insert;
      repeat case_decide; subst; done.
Qed.

Lemma redis_update_late_then_get_witness :
  RedisStore.get cm "c1" db_late = Ok (<["late" := LBool true]> res1).
Proof.
  apply (redis_update_late_then_get "cm" "c1" db1 db_late true res1).
  - apply (bool_decide_unpack _). vm_compute. exact I.
  - reflexivity.
  - reflexivity.
Defined.

Lemma zsorted_members (z : gmap string Z) i :
  i ∈ (zsorted z).*1 <-> is_Some (z !! i).
Proof.
  unfold zsorted. rewrite merge_sort_Permutation.
  rewrite list_elem_of_fmap. split.
  - intros ([k v] & -> & Hin%elem_of_map_to_list). by exists v.
  - intros [v Hv]. exists (i, v). split; [done|].
    by apply elem_of_map_to_list.
Qed.

Lemma load_each_ids st db ids res :
  res ∈ (RedisStore.load_each st db ids).1 ->
  exists i, i ∈ ids /\ res !! "id" = Some (LStr i).
Proof.
  induction ids as [|id rest IH]; simpl.
  - by intros ?%elem_of_nil.
  - destruct (RedisCanary.load st id db) as [r|] eqn:Hr; simpl;
      [|by intros ?%elem_of_nil].
    destruct (RedisStore.load_each st db rest) as [out e]. simpl in *.
    intros [->|Hin]%elem_of_cons.
    + exists id. split; [by left|]. by apply load_id in Hr.
    + destruct (IH Hin) as (i & Hi & Hres). exists i. split; [by right|done].
Qed.

(** X5: after [update(id, {"paused": True})] has returned, [get(id)]
    returns the record it returned before with [paused] true and without a
    deadline, and [upcoming_deadlines()] yields no record of that id. *)
Theorem redis_update_paused_then_get
    (ns id : string) (db db' : redis) (res : record) :
  id ∉ reserved ->
  RedisStore.get (RedisStore.new ns) id db = Ok res ->
  hget db (RedisCanary.key (RedisStore.new ns) id) "deadline" = Ok None ->
  RedisStore.update (RedisStore.new ns) id [("paused", VBool true)] db
    = (db', Ok ()) ->
  RedisStore.get (RedisStore.new ns) id db'
    = Ok (<["paused" := LBool true]> (base.delete "deadline" res))
  /\ forall r,
       r ∈ (RedisStore.upcoming_deadlines (RedisStore.new ns) db').1 ->
       r !! "id" <> Some (LStr id).
Proof.
  intros Hid Hget Hnodl Hupd. set (st := RedisStore.new ns) in *.
  assert (Hkeys := canary_keys_distinct ns id Hid).
  fold st in Hkeys. unfold canary_keys in Hkeys. distinct_keys Hkeys.
  unfold RedisStore.get in *.
  destruct (load_ok_inv _ _ _ _ Hget) as (h & em & hs & dl & Hh & Hload).
  destruct (load_replies_inv _ _ _ _ _ Hh Hload)
    as (em' & hs' & dl' & [= <- <- <-] & Hem & Hhs & Hdl).
  unfold hget, hgetall in Hnodl. rewrite Hh in Hnodl. simpl in Hnodl.
  injection Hnodl as Hnodl.
  unfold RedisStore.update, RedisCanary.save, transaction in Hupd.
  rewrite save_paused_commands in Hupd by (by eapply exists_lookup).
  assert (Hdb' : db' = (execute
     [SADD (RedisCanary.paused st) id; ZREM (RedisCanary.deadlines st) id;
      HMSET (RedisCanary.key st id) [("paused", "1")]] db).1)
    by (by rewrite Hupd).
  clear Hupd.
  assert (Hh' : db' !! RedisCanary.key st id
                = Some (RHash (<["paused" := "1"]> h))).
  { rewrite Hdb'. run_key. rewrite Hh. unfold on_content.
    by rewrite hmset_one, hash_value_insert. }
  assert (Hz' : db' !! RedisCanary.deadlines st
                = on_content (ZREM (RedisCanary.deadlines st) id)
                    (db !! RedisCanary.deadlines st)).
  { rewrite Hdb'. by run_key. }
  assert (Hscore : forall ids,
            zrangebyscore_all db' (RedisCanary.deadlines st) = Ok ids ->
            id ∉ ids).
  { intros ids. unfold zrangebyscore_all, zrange_withscores. rewrite Hz'.
    unfold zscore in Hdl.
    destruct (db !! RedisCanary.deadlines st) as [[| |z|]|]; simpl;
      try done.
    - unfold zset_value. case_decide; simpl.
      + intros [= <-]. apply not_elem_of_nil.
      + intros [= <-]. rewrite zsorted_members, lookup_delete_eq.
        by intros [? ?].
    - intros [= <-]. apply not_elem_of_nil. }
  assert (Hdl' : zscore db' (RedisCanary.deadlines st) id = Ok None).
  { unfold zscore. rewrite Hz'. unfold zscore in Hdl.
    destruct (db !! RedisCanary.deadlines st) as [[| |z|]|]; simpl;
      try done.
    unfold zset_value. case_decide; simpl; [done|].
    by rewrite lookup_delete_eq. }
  assert (Hload' : RedisCanary._load st id db'
            = Ok (<["paused" := "1"]> h, em, hs, None)).
  { apply load_replies; [done| | |done].
    - rewrite <- Hem. apply lrange_same. rewrite Hdb'. by run_key.
    - rewrite <- Hhs. apply zrange_same. rewrite Hdb'. by run_key. }
  split.
  - rewrite (load_after_replies _ _ _ _ _ _ _ Hload) in Hget.
    rewrite (load_after_replies _ _ _ _ _ _ _ Hload').
    rewrite lookup_insert_eq.
    rewrite (lookup_insert_ne h "paused" "late") by done.
    rewrite (lookup_insert_ne h "paused" "periodicity") by done.
    change (stored_flag (Some "1")) with (@Ok (option bool) (Some true)).
    destruct (stored_flag (h !! "paused")) as [p|]; simpl in *; [|done].
    destruct (stored_flag (h !! "late")) as [l|]; simpl in *; [|done].
    destruct (default false p); simpl in *.
    + injection Hget as <-. f_equal. apply map_eq. intros k.
      destruct (h !! "periodicity");
        rewrite ?lookup_insert, ?lookup_delete, ?lookup_insert,
          ?lookup_fmap, ?lookup_insert;
        repeat case_decide; subst; try done; by rewrite ?Hnodl.
    + destruct dl as [ts|]; [|done].
      injection Hget as <-. f_equal. apply map_eq. intros k.
      destruct (h !! "periodicity");
        rewrite ?lookup_insert, ?lookup_delete, ?lookup_insert,
          ?lookup_fmap, ?lookup_insert;
        repeat case_decide; subst; try done; by rewrite ?Hnodl.
  - intros r. unfold RedisStore.upcoming_deadlines.
    destruct (zrangebyscore_all db' (RedisCanary.deadlines st))
      as [ids|] eqn:Hids; simpl; [|by intros ?%elem_of_nil].
    intros (i & Hi & ->)%load_each_ids [= ->].
    by apply (Hscore ids).
Qed.

Lemma redis_update_paused_then_get_witness :
  RedisStore.get cm "c1" db_paused
  = Ok (<["paused" := LBool true]> (base.delete "deadline" res1)).
Proof.
  refine (proj1 (redis_update_paused_then_get "cm" "c1" db1 db_paused res1
                   _ _ _ _)).
  - apply (bool_decide_unpack _). vm_compute. exact I.
  - reflexivity.
  - reflexivity.
  - reflexivity.
Defined.

(** ** The commands of a save name the keys of its canary *)

Ltac canary_command_tac :=
  let Hk := fresh "Hk" in
  let Hd := fresh "Hd" in
  split;
  [ intros ? Hk; simpl in Hk; unfold canary_keys;
    rewrite ?elem_of_cons, ?elem_of_nil in Hk;
    rewrite ?elem_of_cons; intuition (subst; auto 20)
  | intros Hd; simpl in Hd; rewrite ?elem_of_cons, ?elem_of_nil in Hd;
    first [ by left | by right; eexists | exfalso; intuition congruence ] ].

Ltac save_command_tac :=
  let Hs := fresh "Hs" in
  split;
  [ canary_command_tac
  | intros Hs; simpl in Hs; rewrite ?elem_of_cons, ?elem_of_nil in Hs;
    first [ by eexists | exfalso; intuition congruence ] ].

Ltac local_list :=
  repeat (apply Forall_cons_2; [canary_command_tac|]); try apply Forall_nil_2.

Ltac save_list :=
  repeat (apply Forall_cons_2; [save_command_tac|]); try apply Forall_nil_2.

Lemma unset_command_local st id k :
  NoDup (canary_keys st id) ->
  save_command st id (RedisCanary.unset_command st id k).
Proof.
  intros Hkeys. unfold canary_keys in Hkeys. distinct_keys Hkeys.
  unfold RedisCanary.unset_command.
  destruct (bool_decide (k ∈ ["emails"; "history"; "deadline"])) eqn:Hin1;
    simpl.
  - destruct (bool_decide (k ∈ ["emails"; "history"])) eqn:Hin2.
    + apply bool_decide_eq_true in Hin2.
      rewrite !elem_of_cons, elem_of_nil in Hin2.
      destruct Hin2 as [->|[->|[]]]; save_command_tac.
    + save_command_tac.
  - save_command_tac.
Qed.

Lemma save_loop_local st id items : forall data,
  NoDup (canary_keys st id) ->
  Forall (save_command st id) (RedisCanary.save_loop st id items data).1.
Proof.
  induction items as [|[k v] rest IH]; intros data Hkeys; simpl.
  - constructor.
  - destruct v; try apply IH; try done.
    specialize (IH data Hkeys).
    destruct (RedisCanary.save_loop st id rest data) as [cmds data'].
    simpl in *. constructor; [by apply unset_command_local|done].
Qed.

Lemma history_commands_local st id value cs :
  NoDup (canary_keys st id) ->
  RedisCanary.history_commands st id value = Ok cs ->
  Forall (save_command st id) cs.
Proof.
  intros Hkeys. unfold canary_keys in Hkeys. distinct_keys Hkeys.
  destruct value as [| | |s| |l|l|]; simpl; try done.
  - destruct s; [|done]. intros [= <-]. constructor.
  - destruct l as [|s l]; [intros [= <-]; constructor|].
    by destruct (String.length s =? 2)%nat.
  - intros [= <-]. induction l as [|[ts comment] l IH]; simpl;
      [apply Forall_nil_2|apply Forall_cons_2; [save_command_tac|done]].
Qed.

(** The stages of [_save], one hypothesis each. *)
Ltac save_bind Hsave x Hx :=
  match type of Hsave with
  | (?t ≫= _) = _ => destruct t as [x|] eqn:Hx; simpl in Hsave; [|done]
  end.

Ltac save_stages Hsave :=
  let u := fresh "u" in
  let Hcheck := fresh "Hcheck" in
  let Hbound := fresh "Hbound" in
  let c_slug := fresh "c_slug" in
  let Hslug := fresh "Hslug" in
  let c_unset := fresh "c_unset" in
  let data := fresh "data" in
  let Hloop := fresh "Hloop" in
  let c_emails := fresh "c_emails" in
  let Hemails := fresh "Hemails" in
  let c_history := fresh "c_history" in
  let Hhistory := fresh "Hhistory" in
  let c_late := fresh "c_late" in
  let data_late := fresh "data_late" in
  let Hlate := fresh "Hlate" in
  let paused_out := fresh "paused_out" in
  let c_paused := fresh "c_paused" in
  let data_paused := fresh "data_paused" in
  let Hpaused := fresh "Hpaused" in
  let c_hmset := fresh "c_hmset" in
  let Hhmset := fresh "Hhmset" in
  unfold RedisCanary._save in Hsave;
  save_bind Hsave u Hcheck; destruct u;
  save_bind Hsave u Hbound; destruct u;
  save_bind Hsave c_slug Hslug;
  match type of Hsave with
  | context [RedisCanary.save_loop ?st ?id ?canary []] =>
      destruct (RedisCanary.save_loop st id canary [])
        as [c_unset data] eqn:Hloop; simpl in Hsave
  end;
  save_bind Hsave c_emails Hemails;
  save_bind Hsave c_history Hhistory;
  match type of Hsave with
  | (let '(_, _) := ?t in _) = _ =>
      destruct t as [c_late data_late] eqn:Hlate; simpl in Hsave
  end;
  save_bind Hsave paused_out Hpaused;
  destruct paused_out as [c_paused data_paused]; simpl in Hsave;
  save_bind Hsave c_hmset Hhmset;
  injection Hsave as <-.

(** Every command a [save] buffers is a command of its canary. *)
Lemma save_commands_of_save st id canary create db cmds :
  NoDup (canary_keys st id) ->
  RedisCanary._save st id canary create db = Ok cmds ->
  Forall (save_command st id) cmds.
Proof.
  intros Hkeys Hsave.
  assert (Hkeys' := Hkeys). unfold canary_keys in Hkeys'.
  distinct_keys Hkeys'.
  save_stages Hsave.
  assert (Hloop' := save_loop_local st id canary [] Hkeys).
  rewrite Hloop in Hloop'. simpl in Hloop'.
  repeat apply Forall_app_2.
  - destruct (dict_get "slug" canary) as [slug|]; simpl in Hslug.
    + destruct (encode slug) as [field|]; simpl in Hslug; [|done].
      injection Hslug as <-. save_list.
    + injection Hslug as <-. constructor.
  - done.
  - destruct (RedisCanary.is_true _); simpl in Hemails.
    + destruct (RedisCanary.rpush_arguments _) as [values|];
        simpl in Hemails; [|done].
      injection Hemails as <-.
      save_list.
    + injection Hemails as <-. constructor.
  - destruct (dict_get "history" _) as [value|]; simpl in Hhistory.
    + destruct (RedisCanary.history_commands st id value) as [cs|] eqn:Hcs;
        simpl in Hhistory; [|done].
      injection Hhistory as <-.
      apply Forall_cons_2; [save_command_tac|].
      by eapply history_commands_local.
    + injection Hhistory as <-. constructor.
  - destruct (RedisCanary.is_true (dict_get "late" _));
      [|destruct (RedisCanary.not_none (dict_get "late" _))];
      injection Hlate as <- _;
      save_list.
  - destruct (RedisCanary.is_true (dict_get "paused" _)); simpl in Hpaused.
    + injection Hpaused as <- _. save_list.
    + destruct (RedisCanary.not_none (dict_get "paused" _));
        simpl in Hpaused.
      * destruct (RedisCanary.timestamp _) as [ts|]; simpl in Hpaused;
          [|done].
        injection Hpaused as <- _. save_list.
      * injection Hpaused as <- _. apply Forall_nil_2.
  - destruct data_paused as [|kv data_rest]; cbv beta iota in Hhmset.
    + injection Hhmset as <-. apply Forall_nil_2.
    + destruct (RedisCanary.encode_mapping (kv :: data_rest)) as [mapping|];
        cbn [mbind result_bind] in Hhmset; [|done].
      injection Hhmset as <-. save_list.
Qed.

Lemma save_commands_local st id canary create db cmds :
  NoDup (canary_keys st id) ->
  RedisCanary._save st id canary create db = Ok cmds ->
  Forall (canary_command st id) cmds.
Proof.
  intros Hkeys Hsave. eapply Forall_impl.
  - by eapply save_commands_of_save.
  - by intros c [Hc _].
Qed.

(** ** One canary does not disturb another *)

Lemma plain_cons c (s : string) : plain (String c s) -> c <> ":"%char /\ plain s.
Proof.
  unfold plain. simpl. rewrite not_elem_of_cons. intros [? ?]. split; done.
Qed.

Lemma plain_split (a b x y : string) :
  plain a -> plain b -> a +:+ ":" +:+ x = b +:+ ":" +:+ y -> a = b /\ x = y.
Proof.
  revert b. induction a as [|c a IH]; intros [|d b] Ha Hb.
  - intros H. split; [done|]. by injection H.
  - apply plain_cons in Hb as [Hd _]. rewrite append_cons.
    intros [= H _]. by destruct Hd.
  - apply plain_cons in Ha as [Hc _]. rewrite append_cons.
    intros [= H _]. by destruct Hc.
  - apply plain_cons in Ha as [_ Ha]. apply plain_cons in Hb as [_ Hb].
    rewrite !append_cons. intros [= -> H].
    destruct (IH b Ha Hb H) as [-> ->]. done.
Qed.

Lemma elem_of_canary_keys st id k :
  k ∈ canary_keys st id <->
  k = RedisCanary.slugs st \/ k = RedisCanary.key st id \/ k = "emails"
  \/ k = "history" \/ k = RedisCanary.deadlines st
  \/ k = RedisCanary.emails_k st id \/ k = RedisCanary.history_k st id
  \/ k = RedisCanary.late st \/ k = RedisCanary.ontime st
  \/ k = RedisCanary.paused st \/ k = RedisCanary.active st.
Proof. unfold canary_keys. rewrite !elem_of_cons, elem_of_nil. tauto. Qed.

(** The three keys of a canary are no key of another canary or of the
    store, for ids without a colon. *)
Lemma other_canary_keys ns id id' k :
  plain id -> plain id' -> id <> id' -> id' ∉ reserved ->
  k ∈ [RedisCanary.key (RedisStore.new ns) id';
       RedisCanary.emails_k (RedisStore.new ns) id';
       RedisCanary.history_k (RedisStore.new ns) id'] ->
  k ∉ canary_keys (RedisStore.new ns) id.
Proof.
  intros Hid Hid' Hne Hres Hk.
  assert (Hr : forall r, r ∈ reserved -> id' <> r) by (intros r Hr ->; done).
  assert (Hin : forall r, r ∈ reserved <->
            r = "slugs" \/ r = "active" \/ r = "paused" \/ r = "late"
            \/ r = "ontime" \/ r = "deadlines").
  { intros r. unfold reserved. rewrite !elem_of_cons, elem_of_nil. tauto. }
  assert (Hbare : forall x (b : string), plain b -> ns +:+ ":" +:+ x <> b).
  { intros x b Hb E. symmetry in E. revert E.
    by apply bare_ne_under_namespace. }
  rewrite elem_of_canary_keys.
  destruct (new_key_form ns id) as (-> & -> & ->).
  destruct (new_key_form ns id') as (Hk1 & Hk2 & Hk3).
  rewrite Hk1, Hk2, Hk3 in Hk. clear Hk1 Hk2 Hk3.
  simpl. unfold RedisStore._key.
  rewrite !elem_of_cons, elem_of_nil in Hk.
  destruct Hk as [->|[->|[->|[]]]].
  - intros [E|[E|[E|[E|[E|[E|[E|[E|[E|[E|E]]]]]]]]]];
      try (exfalso; revert E; apply Hbare;
           apply (bool_decide_unpack _); by vm_compute);
      try (do 2 apply append_cancel in E; revert E;
           first [ apply Hr; apply Hin; tauto
                 | by intros ->
                 | intros ->; apply Hid', colon_after_prefix ]).
  - intros [E|[E|[E|[E|[E|[E|[E|[E|[E|[E|E]]]]]]]]]];
      try (exfalso; revert E; apply Hbare;
           apply (bool_decide_unpack _); by vm_compute);
      try (do 2 apply append_cancel in E; revert E;
           first [ apply with_suffix_ne_plain, plain_reserved, Hin; tauto
                 | apply with_suffix_ne_plain; done
                 | intros E; apply plain_split in E as [? ?]; done ]).
  - intros [E|[E|[E|[E|[E|[E|[E|[E|[E|[E|E]]]]]]]]]];
      try (exfalso; revert E; apply Hbare;
           apply (bool_decide_unpack _); by vm_compute);
      try (do 2 apply append_cancel in E; revert E;
           first [ apply with_suffix_ne_plain, plain_reserved, Hin; tauto
                 | apply with_suffix_ne_plain; done
                 | intros E; apply plain_split in E as [? ?]; done ]).
Qed.

Lemma load_same st id (db db' : redis) :
  db' !! RedisCanary.key st id = db !! RedisCanary.key st id ->
  db' !! RedisCanary.emails_k st id = db !! RedisCanary.emails_k st id ->
  db' !! RedisCanary.history_k st id = db !! RedisCanary.history_k st id ->
  zscore db' (RedisCanary.deadlines st) id
  = zscore db (RedisCanary.deadlines st) id ->
  RedisCanary.load st id db' = RedisCanary.load st id db.
Proof.
  intros Hk He Hh Hz. unfold RedisCanary.load, RedisCanary._load.
  unfold exists_, hgetall, lrange, zrange_withscores.
  by rewrite Hk, He, Hh, Hz.
Qed.

Lemma zscore_content (db : redis) k member :
  zscore db k member = score_in (db !! k) member.
Proof. reflexivity. Qed.

(** The commands of one canary leave the scores of the others. *)
Lemma score_of_other st id id' cmds : forall v,
  NoDup (canary_keys st id) ->
  Forall (canary_command st id) cmds ->
  id' <> id ->
  score_in (foldl (λ v c, step_key (RedisCanary.deadlines st) c v) v cmds) id'
  = score_in v id'.
Proof.
  induction cmds as [|c cs IH]; intros v Hkeys Hall Hne; [done|].
  inversion Hall as [|? ? [_ Hc] Hcs]; subst. simpl.
  rewrite IH by done. unfold step_key. case_decide as Hd; [|done].
  destruct (Hc Hd) as [->|[ts ->]]; destruct v as [[| |z|]|]; simpl;
    try done.
  - unfold zset_value. case_decide as He; simpl.
    + apply (f_equal (λ m : gmap string Z, m !! id')) in He.
      rewrite lookup_delete_ne, lookup_empty in He by done.
      by rewrite He.
    + by rewrite lookup_delete_ne by done.
  - by rewrite lookup_insert_ne by done.
  - by rewrite lookup_singleton_ne by done.
Qed.

(** What the commands of one canary do, [get] of another does not see. *)
Lemma canary_commands_isolated ns id id' cmds (db : redis) :
  plain id -> plain id' -> id <> id' -> id ∉ reserved -> id' ∉ reserved ->
  Forall (canary_command (RedisStore.new ns) id) cmds ->
  RedisCanary.load (RedisStore.new ns) id' (execute cmds db).1
  = RedisCanary.load (RedisStore.new ns) id' db.
Proof.
  intros Hid Hid' Hne Hres Hres' Hall.
  assert (Hkeys := canary_keys_distinct ns id Hres).
  assert (Hother : forall k,
            k ∈ [RedisCanary.key (RedisStore.new ns) id';
                 RedisCanary.emails_k (RedisStore.new ns) id';
                 RedisCanary.history_k (RedisStore.new ns) id'] ->
            (execute cmds db).1 !! k = db !! k).
  { intros k Hk. rewrite execute_key. apply foldl_step_key_other.
    eapply Forall_impl; [exact Hall|]. intros c [Hc _] Hin.
    apply Hc in Hin. by apply (other_canary_keys ns id id' k). }
  apply load_same.
  - apply Hother. set_solver.
  - apply Hother. set_solver.
  - apply Hother. set_solver.
  - rewrite !zscore_content, execute_key.
    apply (score_of_other _ id id'); [done|done|congruence].
Qed.

Lemma del_commands_local st id db cmds :
  NoDup (canary_keys st id) ->
  RedisCanary._del st id db = Ok cmds ->
  Forall (canary_command st id) cmds.
Proof.
  intros Hkeys. unfold canary_keys in Hkeys. distinct_keys Hkeys.
  unfold RedisCanary._del.
  destruct (hget db _ _) as [slug|]; simpl; [|done].
  intros [= <-]. local_list.
Qed.

(** X6: a [save] of one canary (a [create] or an [update]) does not change
    what [get] returns for another canary, whatever [save] returns; ids are
    taken without a colon and outside the names the store keeps for
    itself. *)
Theorem redis_save_leaves_other_canaries
    (ns id id' : string) (canary : dict) (create : bool) (db : redis) :
  plain id -> plain id' -> id <> id' -> id ∉ reserved -> id' ∉ reserved ->
  RedisStore.get (RedisStore.new ns) id'
    (RedisCanary.save (RedisStore.new ns) id canary create db).1
  = RedisStore.get (RedisStore.new ns) id' db.
Proof.
  intros Hid Hid' Hne Hres Hres'.
  unfold RedisStore.get, RedisCanary.save, transaction.
  destruct (RedisCanary._save _ id canary create db) as [cmds|] eqn:Hsave;
    [|done].
  apply (canary_commands_isolated ns id id'); try done.
  eapply save_commands_local; [|exact Hsave].
  by apply canary_keys_distinct.
Qed.

Lemma redis_save_leaves_other_canaries_witness :
  RedisStore.get cm "c3"
    (RedisCanary.save cm "c1" [("late", VBool true)] false db13).1
  = RedisStore.get cm "c3" db13.
Proof.
  apply (redis_save_leaves_other_canaries "cm" "c1" "c3");
    apply (bool_decide_unpack _); vm_compute; exact I.
Defined.

(** X7: a [delete] of one canary does not change what [get] returns for
    another canary; ids are taken without a colon and outside the names the
    store keeps for itself. *)
Theorem redis_delete_leaves_other_canaries
    (ns id id' : string) (db : redis) :
  plain id -> plain id' -> id <> id' -> id ∉ reserved -> id' ∉ reserved ->
  RedisStore.get (RedisStore.new ns) id'
    (RedisStore.delete (RedisStore.new ns) id db).1
  = RedisStore.get (RedisStore.new ns) id' db.
Proof.
  intros Hid Hid' Hne Hres Hres'.
  unfold RedisStore.get, RedisStore.delete, RedisCanary.delete, transaction.
  destruct (RedisCanary._del _ id db) as [cmds|] eqn:Hdel; [|done].
  apply (canary_commands_isolated ns id id'); try done.
  eapply del_commands_local; [|exact Hdel].
  by apply canary_keys_distinct.
Qed.

Lemma redis_delete_leaves_other_canaries_witness :
  RedisStore.get cm "c3" (RedisStore.delete cm "c1" db13).1
  = RedisStore.get cm "c3" db13.
Proof.
  apply (redis_delete_leaves_other_canaries "cm" "c1" "c3");
    apply (bool_decide_unpack _); vm_compute; exact I.
Defined.

(** ** Slugs on the key-value store *)

Lemma binds_kept st id slug cmds : forall v,
  Forall (save_command st id) cmds ->
  binds v slug id ->
  binds (foldl (λ v c, step_key (RedisCanary.slugs st) c v) v cmds) slug id.
Proof.
  induction cmds as [|c cs IH]; intros v Hall Hv; [done|].
  inversion Hall as [|? ? [_ Hc] Hcs]; subst. simpl.
  apply IH; [done|]. unfold step_key. case_decide as Hs; [|done].
  destruct (Hc Hs) as [field ->]. destruct Hv as (h & -> & Hh). simpl.
  exists (<[field := id]> h). split; [done|].
  destruct (decide (field = slug)) as [->|Hne].
  - apply lookup_insert_eq.
  - by rewrite lookup_insert_ne.
Qed.

Lemma create_commands st canary db db' id :
  dict_get "id" canary = Some (VStr id) ->
  RedisStore.create st canary db = (db', Ok ()) ->
  exists cmds,
    RedisCanary._save st id canary true db = Ok cmds
    /\ execute cmds db = (db', Ok ()).
Proof.
  intros Hid. unfold RedisStore.create, getitem. rewrite Hid. simpl.
  unfold RedisCanary.create, RedisCanary.save, transaction.
  destruct (RedisCanary._save st id canary true db) as [cmds|]; [|done].
  intros H. by exists cmds.
Qed.

(** After [create] has returned, the slug hash binds the slug of the
    canary to its id. *)
Lemma create_binds_slug ns canary (db db' : redis) id slug :
  id ∉ reserved ->
  dict_get "id" canary = Some (VStr id) ->
  dict_get "slug" canary = Some (VStr slug) ->
  RedisStore.create (RedisStore.new ns) canary db = (db', Ok ()) ->
  hget db' (RedisCanary.slugs (RedisStore.new ns)) slug = Ok (Some id).
Proof.
  intros Hres Hid Hslug Hcreate. set (st := RedisStore.new ns) in *.
  assert (Hkeys := canary_keys_distinct ns id Hres). fold st in Hkeys.
  destruct (create_commands _ _ _ _ _ Hid Hcreate) as (cmds & Hsave & Hexec).
  assert (Hlocal := save_commands_of_save _ _ _ _ _ _ Hkeys Hsave).
  assert (Hfirst : exists rest,
            cmds = HSET (RedisCanary.slugs st) slug id :: rest).
  { save_stages Hsave. rewrite Hslug in Hslug0. simpl in Hslug0.
    injection Hslug0 as <-. by eexists. }
  destruct Hfirst as [rest ->].
  assert (Hbinds : binds (db' !! RedisCanary.slugs st) slug id).
  { replace db' with (execute (HSET (RedisCanary.slugs st) slug id :: rest)
                        db).1 by (by rewrite Hexec).
    rewrite execute_key. cbn [foldl].
    inversion Hlocal as [|? ? _ Hrest]; subst.
    apply (binds_kept st id); [done|].
    rewrite step_key_same by apply elem_of_one.
    assert (Hacc : accepted (HSET (RedisCanary.slugs st) slug id)
                     (db !! RedisCanary.slugs st) = true).
    { pose proof (execute_ok_accepted []
                    (HSET (RedisCanary.slugs st) slug id) rest db) as Hacc.
      cbn [app foldl command_key] in Hacc. apply Hacc. by rewrite Hexec. }
    destruct (db !! RedisCanary.slugs st) as [[h| | |]|]; simpl in *;
      try done.
    - exists (<[slug := id]> h). split; [done|]. apply lookup_insert_eq.
    - exists {[slug := id]}. split; [done|]. apply lookup_singleton_eq. }
  destruct Hbinds as (h & Hh & Hbound).
  unfold hget, hgetall. rewrite Hh. simpl. by rewrite Hbound.
Qed.

(** X8: after [create] has returned for a canary with id [id] and slug
    [slug], [find_identifier(slug)] returns [id]. *)
Theorem redis_create_then_find_identifier
    (ns : string) (canary : dict) (db db' : redis) (id slug : string) :
  id ∉ reserved ->
  dict_get "id" canary = Some (VStr id) ->
  dict_get "slug" canary = Some (VStr slug) ->
  RedisStore.create (RedisStore.new ns) canary db = (db', Ok ()) ->
  RedisStore.find_identifier (RedisStore.new ns) slug db' = Ok id.
Proof.
  intros Hres Hid Hslug Hcreate.
  unfold RedisStore.find_identifier.
  by rewrite (create_binds_slug ns canary db db' id slug).
Qed.

Lemma redis_create_then_find_identifier_witness :
  RedisStore.find_identifier cm "db-backup" db1 = Ok "c1".
Proof.
  apply (redis_create_then_find_identifier "cm" c1 ∅ db1 "c1" "db-backup").
  - apply (bool_decide_unpack _). vm_compute. exact I.
  - reflexivity.
  - reflexivity.
  - reflexivity.
Defined.

(** X9: once [create] has returned for a canary, a [create] of another
    canary with the same slug raises and changes nothing. *)
Theorem redis_second_create_with_slug_refused
    (ns : string) (first second : dict) (db db' : redis)
    (id id' slug : string) :
  id ∉ reserved ->
  dict_get "id" first = Some (VStr id) ->
  dict_get "slug" first = Some (VStr slug) ->
  dict_get "id" second = Some (VStr id') ->
  dict_get "slug" second = Some (VStr slug) ->
  RedisStore.create (RedisStore.new ns) first db = (db', Ok ()) ->
  RedisStore.create (RedisStore.new ns) second db'
  = (db', Raise PlainException).
Proof.
  intros Hres Hid Hslug Hid' Hslug' Hcreate.
  apply (create_refused _ second db' id' slug); [done|done|].
  right. exists id. by apply (create_binds_slug ns first db db' id slug).
Qed.

Lemma redis_second_create_with_slug_refused_witness :
  RedisStore.create cm c2 db1 = (db1, Raise PlainException).
Proof.
  apply (redis_second_create_with_slug_refused "cm" c1 c2 ∅ db1
           "c1" "c2" "db-backup").
  - apply (bool_decide_unpack _). vm_compute. exact I.
  - reflexivity.
  - reflexivity.
  - reflexivity.
  - reflexivity.
  - reflexivity.
Defined.

(** ** Integers written and read back *)

(** X10: an integer field that [save] writes to the hash is read back by
    the coercion of [load] as the same integer: [int(str(n))] is [n]. *)
Theorem integer_periodicity_round_trip (n : Z) :
  encode (VInt n) ≫= (λ text, RedisCanary.coerce_periodicity (LStr text))
  = Ok (LInt n).
Proof.
  cbn [encode mbind result_bind]. rewrite coerce_periodicity_text.
  unfold first_parse. by rewrite is_ascii_pretty, py_int_pretty.
Qed.

(** ** Dictionaries *)

Lemma eqb_decide (a b : string) :
  String.eqb a b = bool_decide (a = b).
Proof.
  destruct (String.eqb_spec a b) as [->|Hne].
  - by rewrite bool_decide_eq_true_2.
  - by rewrite bool_decide_eq_false_2.
Qed.

Lemma dict_get_None k (d : dict) : dict_get k d = None <-> k ∉ dict_keys d.
Proof.
  unfold dict_keys. induction d as [|[k' v] d IH]; simpl.
  - split; [intros _; apply not_elem_of_nil|done].
  - rewrite eqb_decide. rewrite not_elem_of_cons. case_bool_decide.
    + split; [done|]. by intros [? _].
    + rewrite IH. tauto.
Qed.

Lemma dict_get_set k k' v (d : dict) :
  dict_get k (dict_set k' v d)
  = if decide (k = k') then Some v else dict_get k d.
Proof.
  induction d as [|[k0 v0] d IH]; simpl.
  - rewrite eqb_decide. case_bool_decide; by case_decide.
  - rewrite (eqb_decide k' k0). case_bool_decide as Hk0; simpl;
      rewrite ?eqb_decide.
    + subst. case_bool_decide; by case_decide.
    + rewrite IH. case_bool_decide; [subst|done].
      by rewrite decide_False by done.
Qed.

Lemma elem_of_keys_set k0 k v (d : dict) :
  k0 ∈ dict_keys (dict_set k v d) <-> k0 = k \/ k0 ∈ dict_keys d.
Proof.
  unfold dict_keys. induction d as [|[k1 v1] d IH]; simpl.
  - rewrite elem_of_cons, elem_of_nil. tauto.
  - rewrite eqb_decide. case_bool_decide; simpl; rewrite !elem_of_cons.
    + subst. tauto.
    + rewrite IH. tauto.
Qed.

Lemma dict_keys_set k v (d : dict) :
  NoDup (dict_keys d) -> NoDup (dict_keys (dict_set k v d)).
Proof.
  induction d as [|[k0 v0] d IH].
  - intros _. apply NoDup_singleton.
  - unfold dict_keys in *. simpl. rewrite eqb_decide.
    intros [Hk0 Hd]%NoDup_cons. case_bool_decide; simpl.
    + subst. by apply NoDup_cons.
    + apply NoDup_cons. split; [|by apply IH].
      intros Hin. apply (elem_of_keys_set k0 k v d) in Hin as [->|Hin]; done.
Qed.

Lemma elem_of_keys_pop k0 k (d : dict) :
  k0 ∈ dict_keys (dict_pop k d) -> k0 ∈ dict_keys d.
Proof.
  unfold dict_keys. induction d as [|[k1 v1] d IH]; simpl; [done|].
  rewrite eqb_decide. case_bool_decide; simpl; rewrite !elem_of_cons.
  - by right.
  - intros [->|Hin]; [by left|right; by apply IH].
Qed.

Lemma dict_keys_pop k (d : dict) :
  NoDup (dict_keys d) -> NoDup (dict_keys (dict_pop k d)).
Proof.
  induction d as [|[k0 v0] d IH]; [done|].
  unfold dict_keys in *. simpl. rewrite eqb_decide.
  intros [Hk0 Hd]%NoDup_cons. case_bool_decide; simpl; [done|].
  apply NoDup_cons. split; [|by apply IH].
  intros Hin. by apply (elem_of_keys_pop k0 k d) in Hin.
Qed.

Lemma dict_get_pop k k' (d : dict) :
  NoDup (dict_keys d) ->
  dict_get k (dict_pop k' d) = if decide (k = k') then None else dict_get k d.
Proof.
  induction d as [|[k0 v0] d IH]; intros Hd.
  - simpl. by case_decide.
  - unfold dict_keys in *. simpl in *. apply NoDup_cons in Hd as [Hk0 Hd].
    rewrite (eqb_decide k' k0). case_bool_decide as Hk; simpl.
    + subst. rewrite eqb_decide. case_decide as Hkk.
      * subst. by apply dict_get_None.
      * by rewrite bool_decide_eq_false_2.
    + rewrite eqb_decide. rewrite IH by done.
      case_bool_decide; [subst|done].
      by rewrite decide_False by done.
Qed.

(** A canary without a [None] value: the loop of [save] buffers nothing
    and copies the items. *)
Lemma save_loop_all_set st id (items : dict) : forall data,
  Forall (λ kv, kv.2 <> VNone) items ->
  RedisCanary.save_loop st id items data
  = ([], foldl (λ d kv, dict_set kv.1 kv.2 d) data items).
Proof.
  induction items as [|[k v] rest IH]; intros data Hall; [done|].
  inversion Hall as [|? ? Hv Hrest]; subst. simpl in *.
  destruct v; try done; by apply IH.
Qed.

Lemma foldl_set_keys (items : dict) : forall data,
  NoDup (dict_keys data) ->
  NoDup (dict_keys (foldl (λ d kv, dict_set kv.1 kv.2 d) data items)).
Proof.
  induction items as [|[k v] rest IH]; intros data Hd; [done|].
  simpl. apply IH. by apply dict_keys_set.
Qed.

Lemma foldl_set_get (items : dict) : forall data k,
  NoDup (dict_keys items) ->
  dict_get k (foldl (λ d kv, dict_set kv.1 kv.2 d) data items)
  = match dict_get k items with
    | Some v => Some v
    | None => dict_get k data
    end.
Proof.
  induction items as [|[k0 v0] rest IH]; intros data k Hd; [done|].
  unfold dict_keys in Hd. simpl in Hd. apply NoDup_cons in Hd as [Hk0 Hd].
  simpl. rewrite IH by done. rewrite eqb_decide.
  case_bool_decide as Hk.
  - subst. fold (dict_keys rest) in Hk0. apply dict_get_None in Hk0.
    rewrite Hk0, dict_get_set. by rewrite decide_True.
  - destruct (dict_get k rest); [done|].
    rewrite dict_get_set. by rewrite decide_False.
Qed.

Lemma encode_mapping_lookup (d : dict) : forall m k,
  RedisCanary.encode_mapping d = Ok m ->
  NoDup (dict_keys d) ->
  (list_to_map (rev m) : gmap string string) !! k
  = match dict_get k d with
    | Some v => match encode v with Ok x => Some x | Raise _ => None end
    | None => None
    end.
Proof.
  induction d as [|[k0 v0] d IH]; intros m k Hm Hd.
  - injection Hm as <-. done.
  - unfold dict_keys in Hd. simpl in Hd. apply NoDup_cons in Hd as [Hk0 Hd].
    simpl in Hm. unfold RedisCanary.encode_item in Hm. simpl in Hm.
    destruct (encode v0) as [x0|] eqn:Hx0; simpl in Hm; [|done].
    destruct (RedisCanary.encode_mapping d) as [m'|] eqn:Hm'; simpl in Hm;
      [|done].
    injection Hm as <-. simpl.
    rewrite list_to_map_app. simpl. rewrite insert_empty.
    rewrite eqb_decide. case_bool_decide as Hk.
    + subst. rewrite Hx0.
      rewrite lookup_union_r; [apply lookup_singleton_eq|].
      rewrite (IH m' k0 eq_refl Hd).
      fold (dict_keys d) in Hk0. apply dict_get_None in Hk0. by rewrite Hk0.
    + rewrite lookup_union_l by (by rewrite lookup_singleton_ne).
      by apply IH.
Qed.

(** ** A create, then a get *)

Lemma dict_set_cons k v (d : dict) : exists kv rest, dict_set k v d = kv :: rest.
Proof.
  destruct d as [|[k0 v0] d]; simpl; [by eexists _, _|].
  destruct (String.eqb k k0); by eexists _, _.
Qed.

Lemma hash_value_nonempty (h : gmap string string) k x :
  h !! k = Some x -> hash_value h = Some (RHash h).
Proof.
  intros Hk. unfold hash_value. case_decide as He; [|done].
  by rewrite He, lookup_empty in Hk.
Qed.

Ltac keys_nodup :=
  repeat first [ apply dict_keys_set | apply dict_keys_pop ]; assumption.

Ltac dict_lookup :=
  repeat first
    [ rewrite dict_get_set
    | rewrite dict_get_pop by keys_nodup
    | rewrite decide_True by done
    | rewrite decide_False by done ].

Lemma redis_create_then_get_aux
    (ns : string) (canary : dict) (db db' : redis) (id : string)
    (t : Z) (l : bool) (em : list string) :
  id ∉ reserved ->
  NoDup (dict_keys canary) ->
  Forall (λ kv, kv.2 <> VNone) canary ->
  dict_get "id" canary = Some (VStr id) ->
  dict_get "paused" canary = Some (VBool false) ->
  dict_get "late" canary = Some (VBool l) ->
  dict_get "deadline" canary = Some (VTime t) ->
  dict_get "emails" canary = Some (VEmails em) ->
  dict_get "history" canary = None ->
  db !! RedisCanary.emails_k (RedisStore.new ns) id = None ->
  db !! RedisCanary.history_k (RedisStore.new ns) id = None ->
  RedisStore.create (RedisStore.new ns) canary db = (db', Ok ()) ->
  exists h,
    RedisCanary._load (RedisStore.new ns) id db' = Ok (h, em, [], Some t)
    /\ h !! "paused" = Some "0"
    /\ h !! "late" = Some (if l then "1" else "0")
    /\ forall k, k ∉ ["id"; "deadline"; "emails"; "history"; "paused"; "late"] ->
         h !! k = match dict_get k canary with
                  | Some v =>
                      match encode v with Ok x => Some x | Raise _ => None end
                  | None => None
                  end.
Proof.
  intros Hres Hnd Hset Cid Cpaused Clate Cdeadline Cemails Chistory
    Hfresh_e Hfresh_h Hcreate.
  set (st := RedisStore.new ns) in *.
  assert (Hkeys := canary_keys_distinct ns id Hres). fold st in Hkeys.
  assert (Hkeys' := Hkeys). unfold canary_keys in Hkeys'.
  distinct_keys Hkeys'.
  destruct (create_commands _ _ _ _ _ Cid Hcreate) as (cmds & Hsave & Hexec).
  save_stages Hsave.
  (* the key is free *)
  assert (Hfree : db !! RedisCanary.key st id = None).
  { unfold exists_ in Hcheck.
    destruct (db !! RedisCanary.key st id); [|done].
    unfold mbind, result_bind in Hcheck.
    by destruct (getitem canary "slug"). }
  (* the loop copies the canary *)
  rewrite save_loop_all_set in Hloop by done. injection Hloop as <- <-.
  set (data := foldl (λ d kv, dict_set kv.1 kv.2 d) [] canary) in *.
  assert (Hdata_nd : NoDup (dict_keys data)).
  { apply foldl_set_keys. apply NoDup_nil_2. }
  assert (Hdata : forall k, dict_get k data = dict_get k canary).
  { intros k. unfold data. rewrite foldl_set_get by done.
    by destruct (dict_get k canary). }
  (* emails *)
  assert (He : c_emails = [] /\ em = []
               \/ c_emails = [DEL [RedisCanary.emails_k st id];
                              RPUSH (RedisCanary.emails_k st id) em]).
  { revert Hemails. dict_lookup. rewrite Hdata, Cemails. simpl.
    case_bool_decide; simpl; intros [= <-]; [by left|by right]. }
  clear Hemails.
  (* history *)
  assert (c_history = []) as ->.
  { revert Hhistory. dict_lookup. rewrite Hdata, Chistory.
    by intros [= <-]. }
  (* late *)
  assert (Hl : c_late = [SADD (if l then RedisCanary.late st
                              else RedisCanary.ontime st) id]
               /\ data_late
                  = dict_set "late" (VInt (if l then 1 else 0))
                      (dict_pop "history" (dict_pop "emails"
                         (dict_pop "deadline" (dict_pop "id" data))))).
  { revert Hlate. dict_lookup. rewrite Hdata, Clate. simpl.
    destruct l; simpl; by intros [= <- <-]. }
  destruct Hl as [-> ->]. clear Hlate.
  (* paused *)
  assert (Hp : c_paused = [SADD (RedisCanary.active st) id;
                           ZADD (RedisCanary.deadlines st) t id]
               /\ data_paused
                  = dict_set "paused" (VInt 0)
                      (dict_set "late" (VInt (if l then 1 else 0))
                         (dict_pop "history" (dict_pop "emails"
                            (dict_pop "deadline" (dict_pop "id" data)))))).
  { revert Hpaused. dict_lookup. rewrite !Hdata, Cpaused, Cdeadline. simpl.
    by intros [= <- <-]. }
  destruct Hp as [-> ->]. clear Hpaused.
  (* the mapping of hmset *)
  set (final := dict_set "paused" (VInt 0) _) in *.
  assert (Hfinal_nd : NoDup (dict_keys final)) by (unfold final; keys_nodup).
  assert (Hm : exists mapping,
            RedisCanary.encode_mapping final = Ok mapping
            /\ c_hmset = [HMSET (RedisCanary.key st id) mapping]).
  { destruct (dict_set_cons "paused" (VInt 0)
                (dict_set "late" (VInt (if l then 1 else 0))
                   (dict_pop "history" (dict_pop "emails"
                      (dict_pop "deadline" (dict_pop "id" data))))))
      as (kv & rest & Hcons).
    fold final in Hcons. rewrite Hcons in Hhmset. rewrite <- Hcons in Hhmset.
    destruct (RedisCanary.encode_mapping final) as [mapping|];
      simpl in Hhmset; [|done].
    injection Hhmset as <-. by eexists. }
  destruct Hm as (mapping & Hmapping & ->). clear Hhmset.
  set (h := (list_to_map (rev mapping) : gmap string string)).
  assert (Hh : forall k,
            h !! k = match dict_get k final with
                     | Some v =>
                         match encode v with
                         | Ok x => Some x
                         | Raise _ => None
                         end
                     | None => None
                     end).
  { intros k. by apply encode_mapping_lookup. }
  assert (Hh_paused : h !! "paused" = Some "0").
  { rewrite Hh. unfold final. by dict_lookup. }
  assert (Hh_late : h !! "late" = Some (if l then "1" else "0")).
  { rewrite Hh. unfold final. dict_lookup. by destruct l. }
  exists h. split; [|split; [done|split; [done|]]].
  - (* the replies of the transaction on the new state *)
    replace db' with (execute (c_slug ++ [] ++ c_emails ++ [] ++
      [SADD (if l then RedisCanary.late st else RedisCanary.ontime st) id] ++
      [SADD (RedisCanary.active st) id;
       ZADD (RedisCanary.deadlines st) t id] ++
      [HMSET (RedisCanary.key st id) mapping]) db).1 by (by rewrite Hexec).
    assert (Hc_slug : Forall (λ c, command_keys c = [RedisCanary.slugs st])
                        c_slug).
    { destruct (dict_get "slug" canary) as [v|]; simpl in Hslug.
      - destruct (encode v); simpl in Hslug; [|done].
        injection Hslug as <-. by repeat constructor.
      - injection Hslug as <-. constructor. }
    assert (Hskip : forall k v,
              k <> RedisCanary.slugs st ->
              foldl (λ v c, step_key k c v) v c_slug = v).
    { intros k v Hk. apply foldl_step_key_other.
      eapply Forall_impl; [exact Hc_slug|]. intros c ->.
      by apply not_elem_of_one. }
    apply load_replies.
    + rewrite execute_key, !foldl_app, Hskip by congruence.
      destruct He as [[-> _]| ->]; destruct l; cbn [foldl];
        repeat (first
          [ rewrite step_key_same by apply elem_of_one
          | rewrite step_key_other by (apply not_elem_of_one; congruence) ]);
        rewrite Hfree; unfold on_content; fold h;
        by apply (hash_value_nonempty h "paused" "0").
    + unfold lrange.
      rewrite execute_key, !foldl_app, Hskip by congruence.
      destruct He as [[-> ->]| ->]; destruct l; cbn [foldl];
        repeat (first
          [ rewrite step_key_same by apply elem_of_one
          | rewrite step_key_other by (apply not_elem_of_one; congruence) ]);
        rewrite ?Hfresh_e; done.
    + unfold zrange_withscores.
      rewrite execute_key, !foldl_app, Hskip by congruence.
      destruct He as [[-> _]| ->]; destruct l; cbn [foldl];
        repeat (first
          [ rewrite step_key_same by apply elem_of_one
          | rewrite step_key_other by (apply not_elem_of_one; congruence) ]);
        by rewrite Hfresh_h.
    + assert (Hacc : accepted (ZADD (RedisCanary.deadlines st) t id)
                       (db !! RedisCanary.deadlines st) = true).
      { pose proof (execute_ok_accepted
          (c_slug ++ c_emails ++
           [SADD (if l then RedisCanary.late st else RedisCanary.ontime st) id;
            SADD (RedisCanary.active st) id])
          (ZADD (RedisCanary.deadlines st) t id)
          [HMSET (RedisCanary.key st id) mapping] db) as Hacc.
        cbn [command_key] in Hacc.
        rewrite !foldl_app, Hskip in Hacc by congruence.
        assert (Hpre : foldl (λ v c, step_key (RedisCanary.deadlines st) c v)
                  (foldl (λ v c, step_key (RedisCanary.deadlines st) c v)
                     (db !! RedisCanary.deadlines st) c_emails)
                  [SADD (if l then RedisCanary.late st
                         else RedisCanary.ontime st) id;
                   SADD (RedisCanary.active st) id]
                = db !! RedisCanary.deadlines st).
        { destruct He as [[-> _]| ->]; destruct l; cbn [foldl];
            repeat (rewrite step_key_other
                      by (apply not_elem_of_one; congruence)); done. }
        rewrite Hpre in Hacc. apply Hacc.
        rewrite <- !app_assoc. simpl app. simpl app in Hexec.
        by rewrite Hexec. }
      unfold zscore.
      rewrite execute_key, !foldl_app, Hskip by congruence.
      destruct He as [[-> _]| ->]; destruct l; cbn [foldl];
        repeat (first
          [ rewrite step_key_same by apply elem_of_one
          | rewrite step_key_other by (apply not_elem_of_one; congruence) ]);
        destruct (db !! RedisCanary.deadlines st) as [[| |z|]|];
        simpl in *; try done;
        by rewrite ?lookup_insert_eq, ?lookup_singleton_eq.
  - intros k Hk. rewrite !not_elem_of_cons in Hk.
    destruct Hk as (? & ? & ? & ? & ? & ? & _).
    rewrite Hh. unfold final. dict_lookup. by rewrite Hdata.
Qed.

(** X11: [get] after [create].  For a canary without [None] values that
    is created not paused, with a deadline, a late flag and an emails list,
    on a server that holds no emails or history key for the id, [get]
    returns a record with the id, the deadline, the flags and the emails
    that were given, an empty history, every text field as given and an
    integer periodicity as the integer given. *)
Theorem redis_create_then_get
    (ns : string) (canary : dict) (db db' : redis) (id : string)
    (t : Z) (l : bool) (em : list string) :
  id ∉ reserved ->
  NoDup (dict_keys canary) ->
  Forall (λ kv, kv.2 <> VNone) canary ->
  dict_get "id" canary = Some (VStr id) ->
  dict_get "paused" canary = Some (VBool false) ->
  dict_get "late" canary = Some (VBool l) ->
  dict_get "deadline" canary = Some (VTime t) ->
  dict_get "emails" canary = Some (VEmails em) ->
  dict_get "history" canary = None ->
  db !! RedisCanary.emails_k (RedisStore.new ns) id = None ->
  db !! RedisCanary.history_k (RedisStore.new ns) id = None ->
  RedisStore.create (RedisStore.new ns) canary db = (db', Ok ()) ->
  exists res,
    RedisStore.get (RedisStore.new ns) id db' = Ok res
    /\ res !! "id" = Some (LStr id)
    /\ res !! "paused" = Some (LBool false)
    /\ res !! "late" = Some (LBool l)
    /\ res !! "deadline" = Some (LTime t)
    /\ res !! "emails" = Some (LEmails em)
    /\ res !! "history" = Some (LHistory [])
    /\ (forall k s,
          dict_get k canary = Some (VStr s) -> k <> "periodicity" ->
          res !! k = Some (LStr s))
    /\ (forall n,
          dict_get "periodicity" canary = Some (VInt n) ->
          res !! "periodicity" = Some (LInt n)).
Proof.
  intros Hres Hnd Hset Cid Cpaused Clate Cdeadline Cemails Chistory
    Hfresh_e Hfresh_h Hcreate.
  destruct (redis_create_then_get_aux ns canary db db' id t l em)
    as (h & Hload & Hpaused & Hlate & Hother); try done.
  unfold RedisStore.get.
  rewrite (load_after_replies _ _ _ _ _ _ _ Hload).
  rewrite Hpaused, Hlate.
  change (stored_flag (Some "0")) with (@Ok (option bool) (Some false)).
  assert (Hflag : stored_flag (Some (if l then "1" else "0")) = Ok (Some l))
    by (by destruct l).
  rewrite Hflag. cbn [mbind result_bind default negb].
  eexists. split; [reflexivity|].
  assert (Hper : "periodicity" ∉
            ["id"; "deadline"; "emails"; "history"; "paused"; "late"]).
  { rewrite !not_elem_of_cons. repeat split; try done.
    apply not_elem_of_nil. }
  split; [by simplify_map_eq|].
  split; [destruct (h !! "periodicity"); by simplify_map_eq|].
  split; [destruct (h !! "periodicity"); by simplify_map_eq|].
  split; [by simplify_map_eq|].
  split; [destruct (h !! "periodicity"); by simplify_map_eq|].
  split; [destruct (h !! "periodicity"); by simplify_map_eq|].
  split.
  - intros k s Hk Hkp.
    destruct (decide (k = "id")) as [->|Hid].
    { rewrite Cid in Hk. injection Hk as ->. by simplify_map_eq. }
    assert (Hspecial : k ∉
              ["id"; "deadline"; "emails"; "history"; "paused"; "late"]).
    { rewrite !not_elem_of_cons.
      repeat split; try apply not_elem_of_nil; try done;
        intros ->; congruence. }
    rewrite !not_elem_of_cons in Hspecial.
    destruct Hspecial as (? & ? & ? & ? & ? & ? & _).
    assert (Hhk : h !! k = Some s).
    { rewrite Hother;
        [by rewrite Hk|rewrite !not_elem_of_cons; repeat split; try done;
                       apply not_elem_of_nil]. }
    rewrite lookup_insert_ne by done.
    rewrite lookup_insert_ne by done.
    destruct (h !! "periodicity");
      rewrite ?(lookup_insert_ne _ "periodicity" k) by done;
      rewrite !lookup_insert_ne by done;
      by rewrite lookup_fmap, Hhk.
  - intros n Hn.
    assert (Hhp : h !! "periodicity" = Some (pretty n)).
    { rewrite Hother by done. by rewrite Hn. }
    rewrite Hhp. unfold first_parse.
    rewrite is_ascii_pretty, py_int_pretty. cbn [negb].
    by simplify_map_eq.
Qed.

Lemma redis_create_then_get_witness :
  exists res,
    RedisStore.get cm "c1" db1 = Ok res
    /\ res !! "deadline" = Some (LTime 1000)
    /\ res !! "emails" = Some (LEmails ["ops@example.com"])
    /\ res !! "name" = Some (LStr "DB Backup")
    /\ res !! "periodicity" = Some (LInt 3600).
Proof.
  destruct (redis_create_then_get "cm" c1 ∅ db1 "c1" 1000 false
              ["ops@example.com"])
    as (res & Hget & _ & _ & _ & Hdl & Hem & _ & Htext & Hper).
  - apply (bool_decide_unpack _). vm_compute. exact I.
  - apply (bool_decide_unpack _). vm_compute. exact I.
  - apply (bool_decide_unpack _). vm_compute. exact I.
  - reflexivity.
  - reflexivity.
  - reflexivity.
  - reflexivity.
  - reflexivity.
  - reflexivity.
  - apply lookup_empty.
  - apply lookup_empty.
  - reflexivity.
  - exists res. split; [exact Hget|]. split; [exact Hdl|].
    split; [exact Hem|]. split; [by apply Htext|]. by apply Hper.
Defined.

(** ** A delete leaves no trace; what a list yields *)

(** X12: [delete] of a canary whose hash stores its slug leaves no trace
    of it: its three keys are gone, no membership set and no deadline score
    holds the id, the stored slug is released, [get] raises KeyError,
    [find_identifier] of the stored slug does not return, and no [list]
    yields a record with the id. *)
Theorem redis_delete_leaves_no_trace
    (ns id slug : string) (db : redis) :
  id ∉ reserved ->
  hget db (RedisCanary.key (RedisStore.new ns) id) "slug" = Ok (Some slug) ->
  let st := RedisStore.new ns in
  let db' := (RedisStore.delete st id db).1 in
  exists_ db' (RedisCanary.key st id) = false
  /\ exists_ db' (RedisCanary.emails_k st id) = false
  /\ exists_ db' (RedisCanary.history_k st id) = false
  /\ (forall k s,
        k ∈ [RedisCanary.active st; RedisCanary.paused st;
             RedisCanary.late st; RedisCanary.ontime st] ->
        smembers db' k = Ok s -> id ∉ s)
  /\ (forall score,
        zscore db' (RedisCanary.deadlines st) id <> Ok (Some score))
  /\ (forall i, hget db' (RedisCanary.slugs st) slug <> Ok (Some i))
  /\ RedisStore.get st id db' = Raise KeyError
  /\ (forall i, RedisStore.find_identifier st slug db' <> Ok i)
  /\ (forall verbose paused late search res,
        res ∈ (RedisStore.list_ st verbose paused late search db').1 ->
        res !! "id" <> Some (LStr id)).
Proof.
  intros Hres Hslug.
  assert (exists h, db !! RedisCanary.key (RedisStore.new ns) id
                    = Some (RHash h) /\ h !! "slug" = Some slug)
    as (h & Hh & Hs).
  { unfold hget, hgetall, wrongtype, mbind, result_bind in Hslug.
    destruct (db !! RedisCanary.key (RedisStore.new ns) id)
      as [[h| | |]|]; try discriminate Hslug.
    exists h. split; [done|congruence]. }
  intros st db'.
  assert (Hkeys := canary_keys_distinct ns id Hres). fold st in Hkeys.
  unfold canary_keys in Hkeys. distinct_keys Hkeys.
  apply (redis_delete_cleans_up st id db h slug); [|done|done].
  repeat (apply NoDup_cons; split);
    rewrite ?not_elem_of_cons; repeat split;
    try apply not_elem_of_nil; try apply NoDup_nil_2; congruence.
Qed.

Lemma redis_delete_leaves_no_trace_witness :
  let db' := (RedisStore.delete cm "c1" db1).1 in
  RedisStore.get cm "c1" db' = Raise KeyError
  /\ (forall i, RedisStore.find_identifier cm "db-backup" db' <> Ok i)
  /\ (forall verbose paused late search res,
        res ∈ (RedisStore.list_ cm verbose paused late search db').1 ->
        res !! "id" <> Some (LStr "c1")).
Proof.
  destruct (redis_delete_leaves_no_trace "cm" "c1" "db-backup" db1)
    as (_ & _ & _ & _ & _ & _ & Hget & Hfind & Hlist).
  - apply (bool_decide_unpack _). vm_compute. exact I.
  - reflexivity.
  - split; [exact Hget|]. split; [exact Hfind|exact Hlist].
Defined.

Lemma skipped_match search r :
  RedisStore.skipped (Some search) r = Ok false ->
  exists field text,
    field ∈ ["name"; "slug"; "id"]
    /\ r !! field = Some (LStr text) /\ search text = true.
Proof.
  unfold RedisStore.skipped, RedisStore.re_match, mbind, result_bind.
  intros Hskip.
  destruct (r !! "name") as [[| | | |name| | | |]|] eqn:Hname; try done.
  destruct (search name) eqn:Hm.
  { exists "name", name. split; [set_solver|done]. }
  destruct (r !! "slug") as [[| | | |slug| | | |]|] eqn:Hslug; try done.
  destruct (search slug) eqn:Hm'.
  { exists "slug", slug. split; [set_solver|done]. }
  destruct (r !! "id") as [[| | | |i| | | |]|] eqn:Hid; try done.
  destruct (search i) eqn:Hm''; [|done].
  exists "id", i. split; [set_solver|done].
Qed.

Lemma list_loop_search st search db ids res :
  res ∈ (RedisStore.list_loop st true (Some search) db ids).1 ->
  exists field text,
    field ∈ ["name"; "slug"; "id"]
    /\ res !! field = Some (LStr text) /\ search text = true.
Proof.
  remember (Some search) as sp eqn:Hsp.
  induction ids as [|id rest IH]; simpl.
  - by intros ?%elem_of_nil.
  - destruct (RedisCanary.load st id db) as [r|] eqn:Hr; simpl;
      [|by intros ?%elem_of_nil].
    destruct (RedisStore.skipped sp r) as [[]|] eqn:Hskip; simpl.
    + exact IH.
    + destruct (RedisStore.list_loop st true sp db rest) as [out e].
      simpl in *.
      intros [->|Hin]%elem_of_cons; [|by apply IH].
      subst sp. by apply skipped_match.
    + by intros ?%elem_of_nil.
Qed.

(** X13: what [list] yields on the key-value store.  Every record carries
    the id of a member of one of the sets the filters select; and with a
    search pattern, every full record has a name, a slug or an id that the
    pattern matches. *)
Theorem redis_list_sound
    (st : RedisCanary.store) (verbose : bool) (paused late : option bool)
    (search : option (string -> bool)) (db : redis) (res : record) :
  res ∈ (RedisStore.list_ st verbose paused late search db).1 ->
  (exists id key members,
     res !! "id" = Some (LStr id)
     /\ key ∈ RedisStore.list_sets st paused late
     /\ smembers db key = Ok members /\ id ∈ members)
  /\ (forall pattern,
        verbose = true -> search = Some pattern ->
        exists field text,
          field ∈ ["name"; "slug"; "id"]
          /\ res !! field = Some (LStr text) /\ pattern text = true).
Proof.
  unfold RedisStore.list_.
  destruct (sunion db _) as [ids|] eqn:Hids; simpl;
    [|by intros ?%elem_of_nil].
  intros Hres. split.
  - destruct (list_loop_ids _ _ _ _ _ _ Hres) as (i & Hi%elem_of_elements & Hid).
    destruct (sunion_member _ _ _ _ Hids Hi) as (k & s & Hk & Hs & Hin).
    by exists i, k, s.
  - intros pattern -> ->. by eapply list_loop_search.
Qed.

Lemma redis_list_sound_witness :
  exists id key members,
    brief1 !! "id" = Some (LStr id)
    /\ key ∈ RedisStore.list_sets cm (Some true) None
    /\ smembers db1 key = Ok members /\ id ∈ members.
Proof.
  apply (redis_list_sound cm false (Some true) None None db1 brief1).
  replace (RedisStore.list_ cm false (Some true) None None db1)
    with ([brief1], @None exn) by reflexivity.
  simpl. constructor.
Defined.

(** ** The order of upcoming deadlines *)

Lemma load_unpaused_deadline st id db res :
  RedisCanary.load st id db = Ok res ->
  res !! "paused" = Some (LBool false) ->
  exists ts,
    zscore db (RedisCanary.deadlines st) id = Ok (Some ts)
    /\ res !! "deadline" = Some (LTime ts).
Proof.
  intros Hres.
  destruct (load_ok_inv _ _ _ _ Hres) as (h & em & hs & dl & Hh & Hload).
  destruct (load_replies_inv _ _ _ _ _ Hh Hload)
    as (em' & hs' & dl' & [= <- <- <-] & Hem & Hhs & Hdl).
  rewrite (load_after_replies _ _ _ _ _ _ _ Hload) in Hres.
  destruct (stored_flag (h !! "paused")) as [p|]; simpl in Hres; [|done].
  destruct (stored_flag (h !! "late")) as [l|]; simpl in Hres; [|done].
  destruct (default false p) eqn:Hp; simpl in Hres.
  - injection Hres as <-. intros Hpaused. exfalso. revert Hpaused.
    destruct (h !! "periodicity"); by simplify_map_eq.
  - destruct dl as [ts|]; [|done]. injection Hres as <-.
    intros _. exists ts. split; [done|]. by simplify_map_eq.
Qed.

Lemma load_each_lookup st db ids : forall i res,
  (RedisStore.load_each st db ids).1 !! i = Some res ->
  exists id, ids !! i = Some id /\ RedisCanary.load st id db = Ok res.
Proof.
  induction ids as [|id rest IH]; simpl; intros i res.
  - by rewrite lookup_nil.
  - destruct (RedisCanary.load st id db) as [r|] eqn:Hr; simpl;
      [|by rewrite lookup_nil].
    destruct (RedisStore.load_each st db rest) as [out e]. simpl in *.
    destruct i as [|i]; simpl.
    + intros [= <-]. by exists id.
    + apply IH.
Qed.

Lemma zorder_total : Total (λ a b : string * Z, Is_true (zorder a b)).
Proof.
  intros [a s] [b t]. unfold zorder. simpl.
  destruct (Z.lt_trichotomy s t) as [Hlt|[->|Hgt]].
  - left. apply Is_true_true, orb_true_iff. left. by apply Z.ltb_lt.
  - rewrite Z.ltb_irrefl, Z.eqb_refl. simpl.
    destruct (String.leb_total a b) as [->| ->]; [by left|by right].
  - right. apply Is_true_true, orb_true_iff. left. by apply Z.ltb_lt.
Qed.

Lemma zsorted_scores (z : gmap string Z) :
  StronglySorted (λ a b : string * Z, (a.2 <= b.2)%Z) (zsorted z).
Proof.
  apply Sorted_StronglySorted.
  { intros a b c. simpl. lia. }
  unfold zsorted.
  assert (Hs := @Sorted_merge_sort _ (λ a b, Is_true (zorder a b)) _
                  zorder_total (map_to_list z)).
  revert Hs. generalize (merge_sort (λ a b, Is_true (zorder a b))
                           (map_to_list z)).
  induction 1 as [|a l Hl IH Hhd]; constructor; [done|].
  destruct Hhd as [|b l Hab]; constructor.
  unfold zorder in Hab.
  apply Is_true_true, orb_true_iff in Hab as [?%Z.ltb_lt|Hab]; [lia|].
  apply andb_true_iff in Hab as [?%Z.eqb_eq _]. lia.
Qed.

Lemma StronglySorted_lookup {A} (R : relation A) (l : list A) :
  StronglySorted R l ->
  forall i j a b, (i < j)%nat -> l !! i = Some a -> l !! j = Some b -> R a b.
Proof.
  induction 1 as [|x l Hl IH Hall]; intros i j a b Hij Ha Hb.
  - by rewrite lookup_nil in Ha.
  - destruct j as [|j]; [lia|]. simpl in Hb.
    destruct i as [|i]; simpl in Ha.
    + injection Ha as <-. rewrite Forall_forall in Hall.
      apply Hall. by eapply list_elem_of_lookup_2.
    + apply (IH i j); [lia|done|done].
Qed.

Lemma zsorted_lookup (z : gmap string Z) i id :
  (zsorted z).*1 !! i = Some id ->
  exists score, zsorted z !! i = Some (id, score) /\ z !! id = Some score.
Proof.
  rewrite list_lookup_fmap.
  destruct (zsorted z !! i) as [[k v]|] eqn:Hi; simpl; [|done].
  intros [= ->]. exists v. split; [done|].
  apply list_elem_of_lookup_2 in Hi. unfold zsorted in Hi.
  rewrite merge_sort_Permutation in Hi. by apply elem_of_map_to_list.
Qed.

(** X14: [upcoming_deadlines] on the key-value store yields the records
    of unpaused canaries in ascending order of deadline: of two records it
    yields with [paused] false, the earlier one carries a deadline that is
    not after the later one's. *)
Theorem redis_upcoming_deadlines_ascending
    (st : RedisCanary.store) (db : redis) (i j : nat) (r r' : record) :
  (i < j)%nat ->
  (RedisStore.upcoming_deadlines st db).1 !! i = Some r ->
  (RedisStore.upcoming_deadlines st db).1 !! j = Some r' ->
  r !! "paused" = Some (LBool false) ->
  r' !! "paused" = Some (LBool false) ->
  exists t t',
    r !! "deadline" = Some (LTime t)
    /\ r' !! "deadline" = Some (LTime t')
    /\ (t <= t')%Z.
Proof.
  intros Hij Hr Hr' Hp Hp'.
  unfold RedisStore.upcoming_deadlines, zrangebyscore_all,
    zrange_withscores, wrongtype, mbind, result_bind in Hr, Hr'.
  destruct (db !! RedisCanary.deadlines st) as [[| |z|]|] eqn:Hz;
    simpl in Hr, Hr'; try by rewrite lookup_nil in Hr.
  apply load_each_lookup in Hr as (id & Hid & Hload).
  apply load_each_lookup in Hr' as (id' & Hid' & Hload').
  destruct (load_unpaused_deadline _ _ _ _ Hload Hp) as (t & Ht & Hd).
  destruct (load_unpaused_deadline _ _ _ _ Hload' Hp') as (t' & Ht' & Hd').
  exists t, t'. split; [done|]. split; [done|].
  apply zsorted_lookup in Hid as (s & Hi & Hs).
  apply zsorted_lookup in Hid' as (s' & Hj & Hs').
  unfold zscore in Ht, Ht'. rewrite Hz in Ht, Ht'.
  assert (s = t) as -> by congruence.
  assert (s' = t') as -> by congruence.
  apply (StronglySorted_lookup _ _ (zsorted_scores z) i j (id, t) (id', t'));
    done.
Qed.

Lemma redis_upcoming_deadlines_ascending_witness :
  exists t t',
    res3 !! "deadline" = Some (LTime t)
    /\ res1 !! "deadline" = Some (LTime t')
    /\ (t <= t')%Z.
Proof.
  apply (redis_upcoming_deadlines_ascending cm db13 0 1 res3 res1).
  - lia.
  - reflexivity.
  - reflexivity.
  - reflexivity.
  - reflexivity.
Defined.

(** ** The document store: create and get *)

Lemma dict_get_cons k k' v (d : dict) :
  dict_get k ((k', v) :: d) = if String.eqb k k' then Some v else dict_get k d.
Proof. reflexivity. Qed.

Lemma dict_set_step k v k' v' (d : dict) :
  dict_set k v ((k', v') :: d)
  = if String.eqb k k' then (k, v) :: d else (k', v') :: dict_set k v d.
Proof. reflexivity. Qed.

Lemma dict_get_without_oid k (d : dict) :
  k <> "_id" -> dict_get k (MongoStore.without_oid d) = dict_get k d.
Proof.
  intros Hk. unfold MongoStore.without_oid, dict.
  induction d as [|[k' v] d IH]; [done|].
  destruct (decide (k' = "_id")) as [->|Hk'].
  - rewrite filter_cons_False by (simpl; tauto).
    rewrite IH, dict_get_cons, eqb_decide.
    by rewrite bool_decide_eq_false_2.
  - rewrite filter_cons_True by done. rewrite !dict_get_cons. by rewrite IH.
Qed.

Lemma without_oid_set v (d : dict) :
  "_id" ∉ dict_keys d ->
  MongoStore.without_oid (dict_set "_id" v d) = d.
Proof.
  unfold MongoStore.without_oid, dict_keys, dict.
  induction d as [|[k w] d IH].
  - intros _. change (dict_set "_id" v []) with [("_id", v)].
    by rewrite filter_cons_False, filter_nil by (simpl; tauto).
  - rewrite fmap_cons, not_elem_of_cons. intros [Hk Hd].
    rewrite dict_set_step, eqb_decide, bool_decide_eq_false_2 by done.
    rewrite filter_cons_True by (simpl; intros ->; by apply Hk).
    by rewrite IH.
Qed.

Lemma field_eq_has_field field s (d : dict) :
  MongoStore.field_eq field (VStr s) d = true -> is_Some (dict_get field d).
Proof.
  unfold MongoStore.field_eq. destruct (dict_get field d); [done|].
  by rewrite bool_decide_eq_false_2.
Qed.

Lemma field_eq_str field s (d : dict) :
  dict_get field d = Some (VStr s) -> MongoStore.field_eq field (VStr s) d = true.
Proof.
  unfold MongoStore.field_eq. intros ->. by apply bool_decide_eq_true_2.
Qed.

Lemma field_eq_bool field b (d : dict) :
  MongoStore.field_eq field (VBool b) d = true
  <-> dict_get field d = Some (VBool b).
Proof.
  unfold MongoStore.field_eq.
  destruct (dict_get field d) as [v|].
  - destruct v; rewrite ?orb_false_r, bool_decide_eq_true;
      split; congruence.
  - rewrite bool_decide_eq_true. split; congruence.
Qed.

Lemma get_KeyError identifier (self : MongoStore.collection) e :
  MongoStore.get identifier self = Raise e ->
  e = KeyError
  /\ Forall (λ d, MongoStore.field_eq "id" (VStr identifier) d = false)
       (MongoStore.docs self).
Proof.
  unfold MongoStore.get.
  destruct (filter _ _) as [|d ds] eqn:Hf.
  - intros [= <-]. split; [done|].
    apply Forall_forall. intros d Hd.
    destruct (MongoStore.field_eq "id" (VStr identifier) d) eqn:Hm; [|done].
    assert (Hin : d ∈ filter
              (λ d, Is_true (MongoStore.field_eq "id" (VStr identifier) d))
              (MongoStore.docs self)).
    { apply list_elem_of_filter. by rewrite Hm. }
    rewrite Hf in Hin. by apply elem_of_nil in Hin.
  - assert (Hin : d ∈ filter
              (λ d, Is_true (MongoStore.field_eq "id" (VStr identifier) d))
              (MongoStore.docs self)) by (rewrite Hf; left).
    apply list_elem_of_filter in Hin as [Hm%Is_true_true _].
    apply field_eq_has_field in Hm as [v Hv].
    rewrite <- (dict_get_without_oid "id") in Hv by done.
    destruct (MongoStore.without_oid d); [done|]. done.
Qed.

Lemma filter_none {A} (P : A -> Prop) `{!forall x, Decision (P x)} (l : list A) :
  Forall (λ x, ¬ P x) l -> filter P l = [].
Proof.
  induction 1 as [|x l Hx _ IH]; [done|].
  by rewrite filter_cons_False.
Qed.

Lemma filter_length_all {A} (P : A -> Prop) `{!forall x, Decision (P x)}
    (l : list A) :
  length (filter P l) = length l -> Forall P l.
Proof.
  induction l as [|x l IH]; [done|].
  destruct (decide (P x)).
  - rewrite filter_cons_True by done. simpl. intros [= Hl].
    constructor; [done|by apply IH].
  - rewrite filter_cons_False by done. simpl. intros Hl.
    assert (Hle := length_filter P l). lia.
Qed.

Lemma no_match_not (identifier : string) (ds : list dict) :
  Forall (λ d, MongoStore.field_eq "id" (VStr identifier) d = false) ds
  <-> Forall (λ d, ¬ Is_true (MongoStore.field_eq "id" (VStr identifier) d)) ds.
Proof.
  rewrite !Forall_forall. split; intros H d Hd; specialize (H d Hd).
  - rewrite H. by intros [].
  - destruct (MongoStore.field_eq _ _ d); [by destruct H|done].
Qed.

(** X15: a canary created in the document store is what [get] of its id
    returns, as long as the id was unbound before. *)
Theorem mongo_create_then_get
    (canary : dict) (id : string) (self self' : MongoStore.collection) :
  dict_get "id" canary = Some (VStr id) ->
  "_id" ∉ dict_keys canary ->
  MongoStore.get id self = Raise KeyError ->
  MongoStore.create canary self = (self', Ok ()) ->
  MongoStore.get id self' = Ok canary.
Proof.
  intros Hid Hoid [_ Hno]%get_KeyError Hcreate.
  unfold MongoStore.create in Hcreate.
  destruct (MongoStore.slug_taken _ _); [done|].
  injection Hcreate as <-.
  unfold MongoStore.get. simpl. rewrite filter_app.
  rewrite (filter_none _ (MongoStore.docs self)) by by apply no_match_not.
  rewrite filter_cons_True, filter_nil; simpl.
  - rewrite without_oid_set by done.
    destruct canary; [done|done].
  - apply Is_true_true, field_eq_str.
    rewrite dict_get_set. by case_decide.
Qed.

Lemma mongo_create_then_get_witness :
  MongoStore.get "c1" coll1 = Ok c1.
Proof.
  apply (mongo_create_then_get c1 "c1" (MongoStore.Collection [] 0) coll1).
  - reflexivity.
  - apply (bool_decide_unpack _). vm_compute. exact I.
  - reflexivity.
  - reflexivity.
Defined.

(** ** The document store: delete *)

Lemma filter_first {A} (P Q : A -> Prop)
    `{!forall x, Decision (P x)} `{!forall x, Decision (Q x)}
    (l : list A) c rest :
  filter P l = c :: rest -> Q c ->
  exists rest', filter P (filter Q l) = c :: rest'.
Proof.
  induction l as [|x l IH]; [done|].
  destruct (decide (P x)) as [HP|HP].
  - rewrite filter_cons_True by done. intros [= -> <-] HQ.
    rewrite (filter_cons_True Q) by done.
    rewrite filter_cons_True by done. by eexists.
  - rewrite filter_cons_False by done. intros Hf HQ.
    destruct (decide (Q x)).
    + rewrite (filter_cons_True Q) by done.
      rewrite filter_cons_False by done. by apply IH.
    + rewrite (filter_cons_False Q) by done. by apply IH.
Qed.

Lemma get_unbound identifier (self : MongoStore.collection) :
  Forall (λ d, MongoStore.field_eq "id" (VStr identifier) d = false)
    (MongoStore.docs self) ->
  MongoStore.get identifier self = Raise KeyError.
Proof.
  intros Hno%no_match_not. unfold MongoStore.get.
  by rewrite filter_none.
Qed.

Lemma get_Ok_inv identifier (self : MongoStore.collection) d :
  MongoStore.get identifier self = Ok d ->
  exists doc rest,
    filter (λ d, Is_true (MongoStore.field_eq "id" (VStr identifier) d))
      (MongoStore.docs self) = doc :: rest
    /\ MongoStore.field_eq "id" (VStr identifier) doc = true
    /\ d = MongoStore.without_oid doc.
Proof.
  unfold MongoStore.get.
  destruct (filter _ _) as [|doc rest] eqn:Hf; [done|].
  intros Hd. exists doc, rest. split; [done|].
  assert (Hin : doc ∈ filter
            (λ d, Is_true (MongoStore.field_eq "id" (VStr identifier) d))
            (MongoStore.docs self)) by (rewrite Hf; left).
  apply list_elem_of_filter in Hin as [Hm%Is_true_true _].
  split; [done|].
  destruct (MongoStore.without_oid doc); [done|]. by injection Hd.
Qed.

Lemma get_of_first identifier (self : MongoStore.collection) doc rest :
  filter (λ d, Is_true (MongoStore.field_eq "id" (VStr identifier) d))
    (MongoStore.docs self) = doc :: rest ->
  MongoStore.get identifier self = Ok (MongoStore.without_oid doc).
Proof.
  intros Hf. unfold MongoStore.get. rewrite Hf.
  assert (Hin : doc ∈ filter
            (λ d, Is_true (MongoStore.field_eq "id" (VStr identifier) d))
            (MongoStore.docs self)) by (rewrite Hf; left).
  apply list_elem_of_filter in Hin as [Hm%Is_true_true _].
  apply field_eq_has_field in Hm as [v Hv].
  rewrite <- (dict_get_without_oid "id") in Hv by done.
  by destruct (MongoStore.without_oid doc).
Qed.

(** X16: [delete] on the document store.  Afterwards [get] of the id
    raises KeyError; [delete] itself raises KeyError exactly when [get] of
    the id did so before; and a canary of another id is still what [get] of
    that id returns. *)
Theorem mongo_delete_then_get
    (id : string) (self : MongoStore.collection) :
  MongoStore.get id (MongoStore.delete id self).1 = Raise KeyError
  /\ ((MongoStore.delete id self).2 = Raise KeyError
      <-> MongoStore.get id self = Raise KeyError)
  /\ (forall id' d,
        id' <> id ->
        MongoStore.get id' self = Ok d ->
        dict_get "id" d = Some (VStr id') ->
        MongoStore.get id' (MongoStore.delete id self).1 = Ok d).
Proof.
  split; [|split].
  - apply get_unbound. apply no_match_not.
    unfold MongoStore.delete.
    assert (Hkeep : Forall
      (λ d, ¬ Is_true (MongoStore.field_eq "id" (VStr id) d))
      (filter (λ d, ¬ Is_true (MongoStore.field_eq "id" (VStr id) d))
         (MongoStore.docs self))).
    { apply Forall_forall. by intros d [? _]%list_elem_of_filter. }
    by destruct (_ =? _)%nat.
  - split.
    + unfold MongoStore.delete.
      destruct (_ =? _)%nat eqn:Hn; simpl; [intros _|done].
      apply Nat.eqb_eq in Hn. apply get_unbound, no_match_not.
      apply (filter_length_all _ _).
      assert (Hle := length_filter
        (λ d, ¬ Is_true (MongoStore.field_eq "id" (VStr id) d))
        (MongoStore.docs self)). lia.
    + intros [_ Hno]%get_KeyError.
      by rewrite mongo_delete_unbound.
  - intros id' d Hne (doc & rest & Hf & Hm & ->)%get_Ok_inv Hid.
    rewrite dict_get_without_oid in Hid by done.
    assert (Hkeep : ¬ Is_true (MongoStore.field_eq "id" (VStr id) doc)).
    { unfold MongoStore.field_eq. rewrite Hid.
      rewrite bool_decide_eq_false_2 by congruence. by intros []. }
    destruct (filter_first _
      (λ d, ¬ Is_true (MongoStore.field_eq "id" (VStr id) d))
      _ _ _ Hf Hkeep) as (rest' & Hf').
    apply (get_of_first _ _ _ rest').
    unfold MongoStore.delete. by destruct (_ =? _)%nat.
Qed.

Lemma mongo_delete_then_get_witness :
  MongoStore.get "c4" (MongoStore.delete "c1" coll14).1 = Ok c4.
Proof.
  destruct (mongo_delete_then_get "c1" coll14) as (_ & _ & Hothers).
  apply Hothers.
  - discriminate.
  - reflexivity.
  - reflexivity.
Defined.

(** ** The document store: slugs *)

Lemma update_one_inv identifier set unset after : forall before ds,
  MongoStore.update_one identifier set unset before after = Ok ds ->
  (Forall (λ d, MongoStore.field_eq "id" (VStr identifier) d = false) after
   /\ ds = before ++ after)
  \/ exists pre d post,
       after = pre ++ d :: post
       /\ Forall (λ d, MongoStore.field_eq "id" (VStr identifier) d = false) pre
       /\ MongoStore.field_eq "id" (VStr identifier) d = true
       /\ ds = before ++ pre ++ MongoStore.apply_update set unset d :: post
       /\ (MongoStore.slug_key (MongoStore.apply_update set unset d)
           = MongoStore.slug_key d
           \/ MongoStore.slug_taken
                (MongoStore.slug_key (MongoStore.apply_update set unset d))
                (before ++ pre ++ post) = false).
Proof.
  induction after as [|d rest IH]; intros before ds.
  - simpl. intros [= <-]. left. by rewrite app_nil_r.
  - simpl. destruct (MongoStore.field_eq "id" (VStr identifier) d) eqn:Hm.
    + destruct (negb (bool_decide (dict_get "_id" _ = _))); [done|].
      case_bool_decide as Hslug; simpl.
      * intros [= <-]. right. exists [], d, rest.
        repeat split; try done. by left.
      * destruct (MongoStore.slug_taken _ _) eqn:Htaken; [done|].
        intros [= <-]. right. exists [], d, rest.
        repeat split; try done. by right.
    + intros [(Hno & ->)|(pre & d' & post & -> & Hno & Hd' & -> & Hslug)]%IH.
      * left. split; [by constructor|]. by rewrite <- app_assoc.
      * right. exists (d :: pre), d', post.
        split; [done|]. split; [by constructor|]. split; [done|].
        rewrite <- !app_assoc in *. simpl in *. done.
Qed.

Lemma slug_taken_spec slug (ds : list dict) :
  MongoStore.slug_taken slug ds = false
  <-> slug ∉ MongoStore.slug_key <$> ds.
Proof.
  unfold MongoStore.slug_taken. induction ds as [|d ds IH]; simpl.
  - split; [intros _; apply not_elem_of_nil|done].
  - rewrite orb_false_iff, IH, not_elem_of_cons, bool_decide_eq_false.
    split; intros [? ?]; (split; [congruence|done]).
Qed.

Lemma field_eq_scalar_slug slug (d : dict) :
  scalar_slug d = true ->
  MongoStore.field_eq "slug" (VStr slug) d = true ->
  MongoStore.slug_key d = VStr slug.
Proof.
  unfold MongoStore.field_eq, MongoStore.slug_key, scalar_slug.
  destruct (dict_get "slug" d) as [v|] eqn:Hv; simpl.
  - destruct v; try done; by intros _ ?%bool_decide_eq_true.
  - done.
Qed.

(** X18: once [create] of a canary with a slug has returned on the
    document store, [find_identifier] of that slug returns the id of the
    canary, and the slugs bound before still resolve as they did. *)
Theorem mongo_create_then_find_identifier
    (canary : dict) (slug : string) (v : pyval)
    (self self' : MongoStore.collection) :
  scalar_slugs self ->
  dict_get "slug" canary = Some (VStr slug) ->
  dict_get "id" canary = Some v ->
  MongoStore.create canary self = (self', Ok ()) ->
  MongoStore.find_identifier slug self' = Ok v
  /\ forall slug' i,
       MongoStore.find_identifier slug' self = Ok i ->
       MongoStore.find_identifier slug' self' = Ok i.
Proof.
  intros Hscalar Hslug Hid Hcreate. unfold MongoStore.create in Hcreate.
  destruct (MongoStore.slug_taken _ _) eqn:Htaken; [done|].
  injection Hcreate as <-. split.
  - unfold MongoStore.find_identifier. simpl. rewrite filter_app.
    rewrite (filter_none _ (MongoStore.docs self)).
    + rewrite filter_cons_True, filter_nil; simpl.
      * unfold getitem. rewrite dict_get_set.
        case_decide; [done|]. by rewrite Hid.
      * apply Is_true_true, field_eq_str.
        rewrite dict_get_set. by case_decide.
    + apply slug_taken_spec in Htaken.
      unfold scalar_slugs in Hscalar. rewrite Forall_forall in Hscalar.
      apply Forall_forall. intros d Hd Hm%Is_true_true.
      apply Htaken. apply list_elem_of_fmap. exists d. split; [|done].
      rewrite (field_eq_scalar_slug slug d (Hscalar d Hd) Hm).
      unfold MongoStore.slug_key. rewrite dict_get_set.
      case_decide; [done|]. by rewrite Hslug.
  - intros slug' i. unfold MongoStore.find_identifier. simpl.
    rewrite filter_app.
    by destruct (filter _ (MongoStore.docs self)).
Qed.

Lemma mongo_create_then_find_identifier_witness :
  MongoStore.find_identifier "weekly" coll14 = Ok (VStr "c4").
Proof.
  refine (proj1 (mongo_create_then_find_identifier c4 "weekly" (VStr "c4")
                  coll1 coll14 _ _ _ _)).
  - unfold scalar_slugs. apply (bool_decide_unpack _). vm_compute. exact I.
  - reflexivity.
  - reflexivity.
  - reflexivity.
Defined.

(** ** The document store: update *)

Lemma dict_get_elem k v (d : dict) :
  NoDup (dict_keys d) -> dict_get k d = Some v <-> (k, v) ∈ d.
Proof.
  unfold dict_keys. induction d as [|[k' v'] d IH]; intros Hd.
  - simpl. split; [done|by intros ?%elem_of_nil].
  - rewrite fmap_cons in Hd. apply NoDup_cons in Hd as [Hk' Hd].
    rewrite dict_get_cons, eqb_decide, elem_of_cons.
    case_bool_decide as Hk.
    + subst k'. split.
      * intros [= ->]. by left.
      * intros [[= ->]|Hin]; [done|].
        destruct Hk'. apply list_elem_of_fmap. by exists (k, v).
    + rewrite (IH Hd). split; [by right|].
      intros [[= -> ->]|Hin]; [done|done].
Qed.

Lemma dict_get_oid_without (d : dict) :
  dict_get "_id" (MongoStore.without_oid d) = None.
Proof.
  apply dict_get_None. unfold dict_keys, MongoStore.without_oid.
  intros ([k v] & Hk & [Hne _]%list_elem_of_filter)%list_elem_of_fmap.
  simpl in *. congruence.
Qed.

Lemma foldl_pop_get (unset : list string) : forall (d : dict) k,
  NoDup (dict_keys d) ->
  dict_get k (foldl (λ d k, dict_pop k d) d unset)
  = if decide (k ∈ unset) then None else dict_get k d.
Proof.
  induction unset as [|k' rest IH]; intros d k Hd.
  - simpl. destruct (decide (k ∈ [])) as [Hin|_]; [|done].
    by apply elem_of_nil in Hin.
  - simpl. rewrite IH by (by apply dict_keys_pop).
    rewrite dict_get_pop by done.
    destruct (decide (k ∈ rest)) as [Hin|Hin].
    + rewrite decide_True; [done|by right].
    + destruct (decide (k = k')) as [->|Hne].
      * rewrite decide_True; [done|by left].
      * rewrite decide_False; [done|].
        by intros [?|?]%elem_of_cons.
Qed.

Lemma set_part_keys (updates : dict) :
  NoDup (dict_keys updates) ->
  NoDup (dict_keys (filter (λ kv, kv.2 ≠ VNone) updates)).
Proof.
  unfold dict_keys, dict. intros Hd.
  eapply sublist_NoDup; [exact Hd|].
  apply fmap_sublist, sublist_filter.
Qed.

Lemma set_part_get (updates : dict) k :
  NoDup (dict_keys updates) ->
  dict_get k (filter (λ kv, kv.2 ≠ VNone) updates)
  = match dict_get k updates with
    | Some VNone => None
    | o => o
    end.
Proof.
  intros Hd.
  destruct (dict_get k (filter (λ kv, kv.2 ≠ VNone) updates)) as [v|] eqn:Hv.
  - apply dict_get_elem in Hv; [|by apply set_part_keys].
    unfold dict in Hv. apply list_elem_of_filter in Hv as [Hne Hin].
    apply (dict_get_elem _ _ _ Hd) in Hin. rewrite Hin.
    by destruct v.
  - destruct (dict_get k updates) as [v|] eqn:Hu; [|done].
    destruct (decide (v = VNone)) as [->|Hne]; [done|].
    apply (dict_get_elem _ _ _ Hd) in Hu.
    assert (Hin : (k, v) ∈ filter (λ kv : string * pyval, kv.2 ≠ VNone)
                    updates) by by apply list_elem_of_filter.
    apply (dict_get_elem _ _ _ (set_part_keys _ Hd)) in Hin.
    unfold dict in *. congruence.
Qed.

Lemma unset_part_elem (updates : dict) k :
  NoDup (dict_keys updates) ->
  k ∈ (filter (λ kv, kv.2 = VNone) updates).*1
  <-> dict_get k updates = Some VNone.
Proof.
  intros Hd. rewrite (dict_get_elem _ _ _ Hd), list_elem_of_fmap. split.
  - intros ([k' v] & -> & [Hv Hin]%list_elem_of_filter).
    simpl in *. by subst.
  - intros Hin. exists (k, VNone). split; [done|].
    by apply list_elem_of_filter.
Qed.

Lemma apply_update_get (updates doc : dict) k :
  NoDup (dict_keys updates) -> NoDup (dict_keys doc) ->
  dict_get k
    (MongoStore.apply_update (filter (λ kv, kv.2 ≠ VNone) updates)
       (filter (λ kv, kv.2 = VNone) updates).*1 doc)
  = match dict_get k updates with
    | Some VNone => None
    | Some v => Some v
    | None => dict_get k doc
    end.
Proof.
  intros Hu Hd. unfold MongoStore.apply_update.
  rewrite foldl_pop_get by by apply foldl_set_keys.
  rewrite foldl_set_get by by apply set_part_keys.
  rewrite set_part_get by done.
  case_decide as Hin.
  - apply (unset_part_elem _ _ Hu) in Hin. by rewrite Hin.
  - rewrite (unset_part_elem _ _ Hu) in Hin.
    destruct (dict_get k updates) as [[]|]; done.
Qed.

(** X19: what [get] returns after [update] has returned on the
    document store: the record it returned before, with every field of the
    updates given a value set to it and every field given None removed. *)
Theorem mongo_update_then_get
    (id : string) (updates : dict) (self self' : MongoStore.collection)
    (d : dict) :
  Forall (λ doc, NoDup (dict_keys doc)) (MongoStore.docs self) ->
  NoDup (dict_keys updates) ->
  "id" ∉ dict_keys updates ->
  "_id" ∉ dict_keys updates ->
  MongoStore.get id self = Ok d ->
  MongoStore.update id updates self = (self', Ok ()) ->
  exists d',
    MongoStore.get id self' = Ok d'
    /\ forall k,
         dict_get k d'
         = match dict_get k updates with
           | Some VNone => None
           | Some v => Some v
           | None => dict_get k d
           end.
Proof.
  intros Hdocs Hu Hid%dict_get_None Hoid%dict_get_None
    (doc & rest & Hf & Hm & ->)%get_Ok_inv Hupd.
  unfold MongoStore.update in Hupd.
  destruct (MongoStore.update_one _ _ _ _ _) as [ds|] eqn:Hone; [|done].
  injection Hupd as <-.
  apply update_one_inv in Hone
    as [(Hno & _)|(pre & d0 & post & Hsplit & Hno & Hm0 & -> & _)].
  { apply no_match_not in Hno. by rewrite (filter_none _ _ Hno) in Hf. }
  apply no_match_not in Hno.
  rewrite Hsplit, filter_app, (filter_none _ _ Hno) in Hf.
  rewrite filter_cons_True in Hf by by apply Is_true_true.
  injection Hf as -> _.
  assert (Hd0 : NoDup (dict_keys doc)).
  { rewrite Forall_forall in Hdocs. apply Hdocs. rewrite Hsplit.
    apply elem_of_app. right. left. }
  set (doc' := MongoStore.apply_update _ _ doc).
  assert (Hget : forall k,
            dict_get k doc'
            = match dict_get k updates with
              | Some VNone => None
              | Some v => Some v
              | None => dict_get k doc
              end).
  { intros k. by apply apply_update_get. }
  exists (MongoStore.without_oid doc'). split.
  - eapply get_of_first. simpl. rewrite filter_app, (filter_none _ _ Hno).
    rewrite filter_cons_True; [done|].
    apply Is_true_true. unfold MongoStore.field_eq in *.
    by rewrite Hget, Hid.
  - intros k. destruct (decide (k = "_id")) as [->|Hk].
    + by rewrite !dict_get_oid_without, Hoid.
    + by rewrite !dict_get_without_oid, Hget.
Qed.

Lemma mongo_update_then_get_witness :
  exists d',
    MongoStore.get "c1"
      (MongoStore.update "c1" [("late", VBool true); ("periodicity", VNone)]
         coll1).1 = Ok d'
    /\ dict_get "late" d' = Some (VBool true)
    /\ dict_get "periodicity" d' = None
    /\ dict_get "name" d' = Some (VStr "DB Backup").
Proof.
  destruct (mongo_update_then_get "c1"
              [("late", VBool true); ("periodicity", VNone)] coll1
              (MongoStore.update "c1"
                 [("late", VBool true); ("periodicity", VNone)] coll1).1 c1)
    as (d' & Hget & Hfields).
  - apply (bool_decide_unpack _). vm_compute. exact I.
  - apply (bool_decide_unpack _). vm_compute. exact I.
  - apply (bool_decide_unpack _). vm_compute. exact I.
  - apply (bool_decide_unpack _). vm_compute. exact I.
  - reflexivity.
  - reflexivity.
  - exists d'. split; [exact Hget|].
    split; [exact (Hfields "late")|].
    split; [exact (Hfields "periodicity")|exact (Hfields "name")].
Defined.

(** ** The document store: upcoming deadlines *)

Lemma int_le_total (a b : option pyval) :
  int_le a b = true \/ int_le b a = true.
Proof.
  unfold int_le.
  destruct a as [[]|], b as [[]|]; try (by left);
    rewrite !Z.leb_le; lia.
Qed.

(** X20: [upcoming_deadlines] on the document store yields exactly the
    canaries that are neither paused nor late, each without its [_id], and
    in the order of the server on their deadlines. *)
Theorem mongo_upcoming_deadlines_sorted
    (sort_le : option pyval -> option pyval -> bool)
    (self : MongoStore.collection) :
  (forall a b, sort_le a b = true \/ sort_le b a = true) ->
  (forall r,
     r ∈ MongoStore.upcoming_deadlines sort_le self
     <-> exists doc,
           doc ∈ MongoStore.docs self
           /\ dict_get "paused" doc = Some (VBool false)
           /\ dict_get "late" doc = Some (VBool false)
           /\ r = MongoStore.without_oid doc)
  /\ Sorted
       (λ a b, Is_true (sort_le (dict_get "deadline" a)
                                (dict_get "deadline" b)))
       (MongoStore.upcoming_deadlines sort_le self).
Proof.
  intros Htotal.
  unfold MongoStore.upcoming_deadlines, MongoStore.list_, MongoStore.sort,
    MongoStore.fields.
  split.
  - intros r. rewrite list_elem_of_fmap. split.
    + intros (doc & -> & Hin). rewrite merge_sort_Permutation in Hin.
      apply list_elem_of_filter in Hin as [Hspec Hin].
      unfold MongoStore.spec in Hspec. rewrite andb_true_r in Hspec.
      apply andb_prop_elim in Hspec as [Hp%Is_true_true Hl%Is_true_true].
      apply field_eq_bool in Hp, Hl. by exists doc.
    + intros (doc & Hin & Hp & Hl & ->). exists doc. split; [done|].
      rewrite merge_sort_Permutation. apply list_elem_of_filter.
      split; [|done]. unfold MongoStore.spec. rewrite andb_true_r.
      apply andb_prop_intro. split; by apply Is_true_true, field_eq_bool.
  - eapply Sorted_fmap; [|apply Sorted_merge_sort].
    + intros a b. simpl. by rewrite !dict_get_without_oid.
    + intros a b. destruct (Htotal (dict_get "deadline" a)
                                   (dict_get "deadline" b)) as [H|H];
        [left|right]; by apply Is_true_true.
Qed.

Lemma mongo_upcoming_deadlines_sorted_witness :
  c4 ∈ MongoStore.upcoming_deadlines int_le coll14
  /\ Sorted
       (λ a b, Is_true (int_le (dict_get "deadline" a)
                               (dict_get "deadline" b)))
       (MongoStore.upcoming_deadlines int_le coll14).
Proof.
  destruct (mongo_upcoming_deadlines_sorted int_le coll14 int_le_total)
    as [Hiff Hsorted].
  split; [|exact Hsorted].
  apply Hiff. exists (dict_set "_id" (VOid 1) c4).
  split; [|split; [|split]]; try reflexivity.
  apply (bool_decide_unpack _). vm_compute. exact I.
Defined.

(** ** Emails and history on the key-value store *)

(** X21: [load_brief] never raises KeyError: for an id that has no hash
    it returns a record whose name and slug are None. *)
Theorem redis_load_brief_never_keyerror
    (st : RedisCanary.store) (id : string) (db : redis) :
  RedisCanary.load_brief st id db <> Raise KeyError
  /\ (exists_ db (RedisCanary.key st id) = false ->
      RedisCanary.load_brief st id db
      = Ok (<["slug" := LNone]> (<["id" := LStr id]> {["name" := LNone]}))).
Proof.
  unfold RedisCanary.load_brief, hmget, hgetall, exists_, wrongtype.
  destruct (db !! RedisCanary.key st id) as [[h| | |]|]; simpl;
    split; try done.
Qed.

Lemma redis_load_brief_never_keyerror_witness :
  RedisCanary.load_brief cm "ghost" db1
  = Ok (<["slug" := LNone]> (<["id" := LStr "ghost"]> {["name" := LNone]})).
Proof.
  apply (proj2 (redis_load_brief_never_keyerror cm "ghost" db1)).
  reflexivity.
Defined.

(** X22: [update(id, {"emails": []})] of a canary that exists sends
    nothing: the server is left as it was and the stored list stays. *)
Theorem redis_update_empty_emails_sends_nothing
    (st : RedisCanary.store) (id : string) (db : redis) :
  exists_ db (RedisCanary.key st id) = true ->
  RedisStore.update st id [("emails", VEmails [])] db = (db, Ok ()).
Proof.
  intros Hex.
  unfold RedisStore.update, RedisCanary.save, transaction, RedisCanary._save.
  by rewrite Hex.
Qed.

Lemma redis_update_empty_emails_sends_nothing_witness :
  RedisStore.update cm "c1" [("emails", VEmails [])] db1 = (db1, Ok ()).
Proof.
  apply (redis_update_empty_emails_sends_nothing cm "c1" db1).
  reflexivity.
Defined.

Lemma save_emails_commands st id (e : string) (em : list string) db :
  exists_ db (RedisCanary.key st id) = true ->
  RedisCanary._save st id [("emails", VEmails (e :: em))] false db
  = Ok [DEL [RedisCanary.emails_k st id];
        RPUSH (RedisCanary.emails_k st id) (e :: em)].
Proof. intros Hex. unfold RedisCanary._save. by rewrite Hex. Qed.

(** X23: after [update(id, {"emails": l})] with a list that is not empty
    has returned, [get(id)] returns the record it returned before with [l]
    as its emails. *)
Theorem redis_update_emails_then_get
    (ns id : string) (db db' : redis) (e : string) (em : list string)
    (res : record) :
  id ∉ reserved ->
  RedisStore.get (RedisStore.new ns) id db = Ok res ->
  RedisStore.update (RedisStore.new ns) id [("emails", VEmails (e :: em))] db
    = (db', Ok ()) ->
  RedisStore.get (RedisStore.new ns) id db'
  = Ok (<["emails" := LEmails (e :: em)]> res).
Proof.
  intros Hid Hget Hupd. set (st := RedisStore.new ns) in *.
  assert (Hkeys := canary_keys_distinct ns id Hid).
  fold st in Hkeys. unfold canary_keys in Hkeys. distinct_keys Hkeys.
  unfold RedisStore.get in *.
  destruct (load_ok_inv _ _ _ _ Hget) as (h & em0 & hs & dl & Hh & Hload).
  destruct (load_replies_inv _ _ _ _ _ Hh Hload)
    as (em' & hs' & dl' & [= <- <- <-] & Hem & Hhs & Hdl).
  unfold RedisStore.update, RedisCanary.save, transaction in Hupd.
  rewrite save_emails_commands in Hupd by (by eapply exists_lookup).
  assert (Hdb' : db' = (execute
     [DEL [RedisCanary.emails_k st id];
      RPUSH (RedisCanary.emails_k st id) (e :: em)] db).1)
    by (by rewrite Hupd).
  clear Hupd.
  assert (Hload' : RedisCanary._load st id db' = Ok (h, e :: em, hs, dl)).
  { apply load_replies.
    - rewrite Hdb'. by run_key.
    - unfold lrange. rewrite Hdb'. by run_key.
    - rewrite <- Hhs. apply zrange_same. rewrite Hdb'. by run_key.
    - rewrite <- Hdl. apply zscore_same. rewrite Hdb'. by run_key. }
  rewrite (load_after_replies _ _ _ _ _ _ _ Hload) in Hget.
  rewrite (load_after_replies _ _ _ _ _ _ _ Hload').
  destruct (stored_flag (h !! "paused")) as [p|]; simpl in *; [|done].
  destruct (stored_flag (h !! "late")) as [l|]; simpl in *; [|done].
  destruct (default false p); simpl in *.
  - injection Hget as <-. f_equal. apply map_eq. intros k.
    destruct (h !! "periodicity");
      rewrite !lookup_insert, !lookup_fmap, ?lookup_insert;
      repeat case_decide; subst; done.
  - destruct dl as [ts|]; [|done].
    injection Hget as <-. f_equal. apply map_eq. intros k.
    destruct (h !! "periodicity");
      rewrite !lookup_insert, !lookup_fmap, ?lookup_insert;
      repeat case_decide; subst; done.
Qed.

Lemma redis_update_emails_then_get_witness :
  RedisStore.get cm "c1" db_emails
  = Ok (<["emails" := LEmails ["dev@example.com"; "ops@example.com"]]> res1).
Proof.
  apply (redis_update_emails_then_get "cm" "c1" db1 db_emails
           "dev@example.com" ["ops@example.com"] res1).
  - apply (bool_decide_unpack _). vm_compute. exact I.
  - reflexivity.
  - reflexivity.
Defined.

Lemma zsorted_NoDup (z : gmap string Z) : NoDup (zsorted z).*1.
Proof.
  unfold zsorted. rewrite merge_sort_Permutation.
  apply NoDup_fst_map_to_list.
Qed.

Lemma swapped_comments (hs : list (string * Z)) :
  ((λ '(member, score), (score, member)) <$> hs).*2 = hs.*1.
Proof.
  induction hs as [|[m s] hs IH]; [done|].
  rewrite !fmap_cons. simpl. by rewrite IH.
Qed.

(** X24: the history of a record [get] returns is in ascending order of
    timestamp and holds every comment once. *)
Theorem redis_get_history_sorted
    (st : RedisCanary.store) (id : string) (db : redis) (res : record) :
  RedisStore.get st id db = Ok res ->
  exists hs,
    res !! "history" = Some (LHistory hs)
    /\ NoDup hs.*2
    /\ StronglySorted (λ a b : Z * string, (a.1 <= b.1)%Z) hs.
Proof.
  unfold RedisStore.get. intros Hres.
  destruct (load_ok_inv _ _ _ _ Hres) as (h & em & hs & dl & Hh & Hload).
  destruct (load_replies_inv _ _ _ _ _ Hh Hload)
    as (em' & hs' & dl' & [= <- <- <-] & Hem & Hhs & Hdl).
  rewrite (load_after_replies _ _ _ _ _ _ _ Hload) in Hres.
  exists ((λ '(member, score), (score, member)) <$> hs).
  split; [|split].
  - destruct (stored_flag (h !! "paused")) as [p|]; simpl in Hres; [|done].
    destruct (stored_flag (h !! "late")) as [l|]; simpl in Hres; [|done].
    destruct (default false p); simpl in Hres.
    + injection Hres as <-. destruct (h !! "periodicity"); by simplify_map_eq.
    + destruct dl as [ts|]; [|done]. injection Hres as <-.
      destruct (h !! "periodicity"); by simplify_map_eq.
  - assert (Hnd : NoDup hs.*1).
    { unfold zrange_withscores in Hhs.
      destruct (db !! RedisCanary.history_k st id) as [[| |z|]|];
        try done; injection Hhs as <-;
        [apply zsorted_NoDup|apply NoDup_nil_2]. }
    by rewrite swapped_comments.
  - assert (Hs : StronglySorted (λ a b : string * Z, (a.2 <= b.2)%Z) hs).
    { unfold zrange_withscores in Hhs.
      destruct (db !! RedisCanary.history_k st id) as [[| |z|]|];
        try done; injection Hhs as <-;
        [apply zsorted_scores|constructor]. }
    eapply StronglySorted_fmap; [|exact Hs]. by intros [] [].
Qed.

(** ** A history written and read back *)

Lemma redis_get_history_sorted_witness :
  exists hs,
    <["history" := LHistory [(10%Z, "created"); (20%Z, "late")]]> res1
      !! "history" = Some (LHistory hs)
    /\ NoDup hs.*2
    /\ StronglySorted (λ a b : Z * string, (a.1 <= b.1)%Z) hs.
Proof.
  apply (redis_get_history_sorted cm "c1" db_history
           (<["history" := LHistory [(10%Z, "created"); (20%Z, "late")]]>
              res1)).
  reflexivity.
Defined.

Lemma save_history_commands st id (l : list (Z * string)) db :
  exists_ db (RedisCanary.key st id) = true ->
  RedisCanary._save st id [("history", VHistory l)] false db
  = Ok (DEL [RedisCanary.history_k st id]
          :: ((λ '(ts, comment), ZADD (RedisCanary.history_k st id) ts comment)
                <$> l)).
Proof.
  intros Hex. unfold RedisCanary._save. rewrite Hex. simpl.
  by rewrite !app_nil_r.
Qed.

Lemma foldl_zadd k (l : list (Z * string)) : forall z : gmap string Z,
  foldl (λ v c, step_key k c v) (Some (RZSet z))
    ((λ '(ts, comment), ZADD k ts comment) <$> l)
  = Some (RZSet (list_to_map (rev ((λ '(ts, comment), (comment, ts)) <$> l))
                 ∪ z)).
Proof.
  induction l as [|[ts c] l IH]; intros z.
  - simpl. by rewrite (left_id_L ∅ (∪)).
  - rewrite !fmap_cons. cbn [foldl].
    rewrite step_key_same by apply elem_of_one. cbn [on_content].
    rewrite IH. do 2 f_equal.
    cbn [rev]. rewrite list_to_map_app. simpl.
    rewrite insert_empty, <- (assoc_L (∪)).
    by rewrite <- insert_union_singleton_l.
Qed.

Lemma history_after_zadds k (l : list (Z * string)) :
  NoDup l.*2 ->
  match foldl (λ v c, step_key k c v) None
          ((λ '(ts, comment), ZADD k ts comment) <$> l) with
  | None => l = []
  | Some (RZSet z) => map_to_list z ≡ₚ (λ '(ts, comment), (comment, ts)) <$> l
  | Some _ => False
  end.
Proof.
  destruct l as [|[ts c] l]; [done|]. intros Hnd.
  rewrite fmap_cons. cbn [foldl].
  rewrite step_key_same by apply elem_of_one. cbn [on_content].
  rewrite foldl_zadd.
  assert (Heq : list_to_map (rev ((λ '(ts, comment), (comment, ts)) <$> l))
                ∪ ({[c := ts]} : gmap string Z)
              = list_to_map
                  (rev ((λ '(ts, comment), (comment, ts)) <$> (ts, c) :: l))).
  { rewrite fmap_cons. cbn [rev]. rewrite list_to_map_app. simpl.
    by rewrite insert_empty. }
  rewrite Heq. rewrite map_to_list_to_map.
  - by rewrite <- Permutation_rev.
  - rewrite <- Permutation_rev. clear Heq.
    replace (((λ '(ts, comment), (comment, ts)) <$> (ts, c) :: l).*1)
      with (((ts, c) :: l).*2); [done|].
    generalize ((ts, c) :: l). intros l'.
    induction l' as [|[] l' IH]; [done|].
    rewrite !fmap_cons. simpl. by rewrite IH.
Qed.

Lemma history_commands_keys st id (l : list (Z * string)) k :
  k <> RedisCanary.history_k st id ->
  Forall (λ c, k ∉ command_keys c)
    (DEL [RedisCanary.history_k st id]
       :: ((λ '(ts, comment), ZADD (RedisCanary.history_k st id) ts comment)
             <$> l)).
Proof.
  intros Hne. constructor.
  - by apply not_elem_of_one.
  - apply Forall_fmap, Forall_forall. intros [ts c] _.
    by apply not_elem_of_one.
Qed.

Lemma swap_back (l : list (Z * string)) :
  (λ '(member, score), (score, member)) <$>
    ((λ '(ts, comment), (comment, ts)) <$> l) = l.
Proof.
  induction l as [|[ts c] l IH]; [done|].
  rewrite !fmap_cons. by rewrite IH.
Qed.

(** X25: after [update(id, {"history": l})] has returned for a history
    whose comments are pairwise different, [get(id)] returns the record it
    returned before with the entries of [l] as its history, in some
    order. *)
Theorem redis_update_history_then_get
    (ns id : string) (db db' : redis) (l : list (Z * string))
    (res : record) :
  id ∉ reserved ->
  NoDup l.*2 ->
  RedisStore.get (RedisStore.new ns) id db = Ok res ->
  RedisStore.update (RedisStore.new ns) id [("history", VHistory l)] db
    = (db', Ok ()) ->
  exists hs,
    RedisStore.get (RedisStore.new ns) id db'
    = Ok (<["history" := LHistory hs]> res)
    /\ hs ≡ₚ l.
Proof.
  intros Hid Hnd Hget Hupd. set (st := RedisStore.new ns) in *.
  assert (Hkeys := canary_keys_distinct ns id Hid).
  fold st in Hkeys. unfold canary_keys in Hkeys. distinct_keys Hkeys.
  unfold RedisStore.get in *.
  destruct (load_ok_inv _ _ _ _ Hget) as (h & em & hs & dl & Hh & Hload).
  destruct (load_replies_inv _ _ _ _ _ Hh Hload)
    as (em' & hs' & dl' & [= <- <- <-] & Hem & Hhs & Hdl).
  unfold RedisStore.update, RedisCanary.save, transaction in Hupd.
  rewrite save_history_commands in Hupd by (by eapply exists_lookup).
  assert (Hdb' : db' = (execute
     (DEL [RedisCanary.history_k st id]
        :: ((λ '(ts, comment), ZADD (RedisCanary.history_k st id) ts comment)
              <$> l)) db).1)
    by (by rewrite Hupd).
  clear Hupd.
  assert (Hother : forall k, k <> RedisCanary.history_k st id ->
                             db' !! k = db !! k).
  { intros k Hk. rewrite Hdb', execute_key.
    by apply foldl_step_key_other, history_commands_keys. }
  assert (Hhist : exists hs0,
            zrange_withscores db' (RedisCanary.history_k st id) = Ok hs0
            /\ hs0 ≡ₚ (λ '(ts, comment), (comment, ts)) <$> l).
  { unfold zrange_withscores. rewrite Hdb', execute_key. cbn [foldl].
    rewrite step_key_same by apply elem_of_one. cbn [on_content].
    assert (Hz := history_after_zadds (RedisCanary.history_k st id) l Hnd).
    destruct (foldl _ None _) as [[| |z|]|]; try done.
    - exists (zsorted z). split; [done|].
      unfold zsorted. by rewrite merge_sort_Permutation.
    - exists []. split; [done|]. by rewrite Hz. }
  destruct Hhist as (hs0 & Hhs0 & Hperm).
  exists ((λ '(member, score), (score, member)) <$> hs0). split.
  - assert (Hload' : RedisCanary._load st id db' = Ok (h, em, hs0, dl)).
    { apply load_replies; [|  |done|].
      - rewrite Hother; [done|congruence].
      - rewrite <- Hem. apply lrange_same. apply Hother. congruence.
      - rewrite <- Hdl. apply zscore_same. apply Hother. congruence. }
    rewrite (load_after_replies _ _ _ _ _ _ _ Hload) in Hget.
    rewrite (load_after_replies _ _ _ _ _ _ _ Hload').
    destruct (stored_flag (h !! "paused")) as [p|]; simpl in *; [|done].
    destruct (stored_flag (h !! "late")) as [la|]; simpl in *; [|done].
    destruct (default false p); simpl in *.
    + injection Hget as <-. f_equal. apply map_eq. intros k.
      destruct (h !! "periodicity");
        rewrite !lookup_insert, !lookup_fmap, ?lookup_insert;
        repeat case_decide; subst; done.
    + destruct dl as [ts|]; [|done].
      injection Hget as <-. f_equal. apply map_eq. intros k.
      destruct (h !! "periodicity");
        rewrite !lookup_insert, !lookup_fmap, ?lookup_insert;
        repeat case_decide; subst; done.
  - rewrite Hperm. by rewrite swap_back.
Qed.

Lemma redis_update_history_then_get_witness :
  exists hs,
    RedisStore.get cm "c1" db_history'
    = Ok (<["history" := LHistory hs]> res1)
    /\ hs ≡ₚ [(30%Z, "late"); (10%Z, "created")].
Proof.
  apply (redis_update_history_then_get "cm" "c1" db1 db_history'
           [(30%Z, "late"); (10%Z, "created")] res1).
  - apply (bool_decide_unpack _). vm_compute. exact I.
  - apply (bool_decide_unpack _). vm_compute. exact I.
  - reflexivity.
  - reflexivity.
Defined.
